(** * Plant-pollinator ODE models (sweetsour-phenology): a shallow embedding

    The C++ sources define three right-hand-side functors
    ([OnePlantSystemFunction], [OnePlantSeasonSystemFunction],
    [LandConstFSystemFunction]), an observer, and three exported entry points
    that drive [boost::numeric::odeint::integrate_const].

    Numbers.  A C++ [double] is modelled by the real number it denotes.

    The arithmetic of the dynamics functions and of the stepper (the state
    arithmetic) is the exact arithmetic of [R]: rounding, overflow,
    infinities and NaN are outside the model.  Where C++ would produce a
    non-finite value (a zero denominator, [std::pow] outside the domain
    described by [Std.pow_finite]) the model still returns some real
    number, which carries no meaning.

    The arithmetic on times in the loop of [integrate_const] decides how
    many steps are taken and which times are recorded, and it is sensitive
    to rounding.  The integrator is therefore written over a class
    [Rounding] with two arithmetics: [exact_arithmetic], which does not
    round, and [binary64], in which every operation on times returns its
    exact result rounded to the nearest double, ties to even, as IEEE 754
    prescribes ([Binary64.round]).  The exponent range of [Binary64.round]
    is unbounded above: results beyond the largest double are outside the
    model.  A statement that names no arithmetic is about the exact one.

    Part I holds the definitions, Part II the lemmas and theorems. *)

From Stdlib Require Import String.
From Stdlib Require Import Reals Lra Lia List ZArith Bool.
Import ListNotations.
Local Open Scope R_scope.

(* ================================================================== *)
(** * Part I: definitions                                              *)
(* ================================================================== *)

(** A C++ [double]. *)
Abbreviation double := R (only parsing).

(** ** <cmath> *)

Module Std.

(** [y] holds an integer value. *)
Definition is_integer (y : double) : bool :=
  if Req_dec_T (IZR (Int_part y)) y then true else false.

(** The arguments at which [std::pow] returns a finite real value:
    a positive base, a zero base with a non-negative exponent, or a
    negative base with an integer exponent. *)
Definition pow_finite (x y : double) : Prop :=
  0 < x \/ (x = 0 /\ 0 <= y) \/ (x < 0 /\ is_integer y = true).

(** [std::pow(x, y)].  For a positive base it is [exp (y * ln x)]; a zero
    base gives 0 for a positive exponent and 1 for exponent 0; a negative
    base with an integer exponent is the integer power.  The remaining
    cases are +inf or NaN in C++ (see [pow_finite]). *)
Definition pow (x y : double) : double :=
  if Rlt_dec 0 x then Rpower x y
  else if Req_dec_T x 0 then (if Rlt_dec 0 y then 0 else 1)
  else if is_integer y then powerRZ x (Int_part y) else 0.

(** [std::exp]. *)
Definition exp (x : double) : double := Rtrigo_def.exp x.

(** [std::numeric_limits<double>::epsilon()], 2^-52. *)
Definition epsilon : double := / 4503599627370496.

End Std.

(** ** IEEE 754 binary64 *)

Module Binary64.

(** The precision (bits of the significand) and the exponent of the
    smallest positive double, 2^-1074. *)
Definition prec : Z := 53.
Definition emin : Z := -1074.

(** The magnitude of x <> 0: the integer with 2^(mag - 1) <= |x| < 2^mag
    (lemma [mag_spec]). *)
Definition mag (x : double) : Z := up (ln (Rabs x) / ln 2).

(** The exponent of the unit in the last place of a double near x: doubles
    of that size are the integer multiples of 2^(ulp_exponent x). *)
Definition ulp_exponent (x : double) : Z := Z.max (mag x - prec) emin.

(** The integer nearest to r; of two equally near, the even one. *)
Definition nearest_even (r : double) : Z :=
  let f := Int_part r in
  if Rlt_dec (r - IZR f) (1/2) then f
  else if Rlt_dec (1/2) (r - IZR f) then (f + 1)%Z
  else if Z.even f then f else (f + 1)%Z.

(** Rounding to nearest, ties to even. *)
Definition round (x : double) : double :=
  IZR (nearest_even (x / powerRZ 2 (ulp_exponent x)))
  * powerRZ 2 (ulp_exponent x).

(** The finite doubles: m 2^e with |m| < 2^53 and -1074 <= e <= 971. *)
Definition is_double (x : double) : Prop :=
  exists m e : Z,
    x = IZR m * powerRZ 2 e /\ (Z.abs m < 2 ^ 53)%Z /\ (emin <= e <= 971)%Z.

(** The integer multiples of 2^-1074: every double is one, and so are the
    sums, differences and integer multiples of doubles. *)
Definition on_grid (x : double) : Prop :=
  exists z : Z, x = IZR z * powerRZ 2 emin.

(** The unit roundoff 2^-53, half the machine epsilon. *)
Definition unit_roundoff : double := powerRZ 2 (-53).



End Binary64.

(** ** Arithmetic on times

    [integrate_const] is a template over the type of the times, which the
    entry points instantiate with [double]; its loop adds, subtracts and
    multiplies times.  An arithmetic is given by the rounding it applies to
    the exact result of each of these operations. *)
Class Rounding : Type := { rnd : double -> double }.

(** Exact arithmetic. *)
#[global] Instance exact_arithmetic : Rounding := {| rnd := fun x => x |}.

(** The arithmetic of [double]. *)
Definition binary64 : Rounding := {| rnd := Binary64.round |}.

(** ** Containers *)

(** [std::vector<double>] *)
Definition VecType : Type := list double.

(** The landscape state: an n_plants x 2 matrix, one row (Y, B) per plant. *)
Definition MatType : Type := list (double * double).

(** [x(i, j)] for column j = 0 or 1. *)
Definition mat_get (x : MatType) (i j : nat) : double :=
  match j with
  | O => fst (nth i x (0, 0))
  | _ => snd (nth i x (0, 0))
  end.

(** [v[i] = a] for [i < v.size()]; an index out of range is undefined
    behaviour in C++ and leaves the model's vector unchanged. *)
Fixpoint vec_set (v : VecType) (i : nat) (a : double) : VecType :=
  match v, i with
  | [], _ => []
  | _ :: v', O => a :: v'
  | b :: v', S i' => b :: vec_set v' i' a
  end.

(** [v.resize(n)]: truncates, or pads with zeros. *)
Definition vec_resize (v : VecType) (n : nat) : VecType :=
  firstn n v ++ repeat 0 (n - length v).

(** [Rcpp::NumericMatrix]: its dimensions and its rows. *)
Record NumericMatrix : Type := mkNumericMatrix {
  nrow : nat;
  ncol : nat;
  cells : list (list double)
}.

(** ** State algebra used by the steppers

    odeint's steppers only add and scale state objects (range_algebra on
    [std::vector<double>], vector_space_algebra on the matrix type): both
    act element by element. *)

Class StateAlgebra (S : Type) : Type := {
  st_add : S -> S -> S;
  st_scale : double -> S -> S
}.

Fixpoint zip_with {A B C : Type} (f : A -> B -> C) (l1 : list A) (l2 : list B)
  : list C :=
  match l1, l2 with
  | a :: l1', b :: l2' => f a b :: zip_with f l1' l2'
  | _, _ => []
  end.

#[export] Instance VecAlgebra : StateAlgebra VecType := {
  st_add := zip_with Rplus;
  st_scale := fun a => map (Rmult a)
}.

Definition row_add (r1 r2 : double * double) : double * double :=
  (fst r1 + fst r2, snd r1 + snd r2).

Definition row_scale (a : double) (r : double * double) : double * double :=
  (a * fst r, a * snd r).

#[export] Instance MatAlgebra : StateAlgebra MatType := {
  st_add := zip_with row_add;
  st_scale := fun a => map (row_scale a)
}.

(** ** The fixed-step integrator *)

(** The stepper types [VecStepperType] and [MatStepperType] are typedefs of
    ode.h, which is not among the sources; the stepper is therefore a
    parameter: an explicit Runge-Kutta scheme given by its Butcher tableau,
    one row (c_i, [a_i1; ...; a_i(i-1)]) per stage and the weights b. *)
Record Tableau : Type := mkTableau {
  rk_rows : list (double * list double);
  rk_b : list double
}.

(** The classical fourth-order scheme (odeint's [runge_kutta4]). *)
Definition rk4 : Tableau :=
  {| rk_rows := [ (0, []); (1/2, [1/2]); (1/2, [0; 1/2]); (1, [0; 0; 1]) ];
     rk_b := [1/6; 1/3; 1/3; 1/6] |}.

(** The explicit Euler scheme (odeint's [euler]). *)
Definition euler : Tableau :=
  {| rk_rows := [ (0, []) ]; rk_b := [1] |}.

Section Integrator.

(** [St]: state type; [Sys]: the system functor's own state (it is passed
    with [std::ref], so what a call changes in it persists); [Ob]: the
    observer's state. *)
Context {rd : Rounding} {St : Type} {SA : StateAlgebra St} {Sys Ob : Type}.
Variable system : Sys -> St -> double -> Sys * St.
Variable observer : Ob -> St -> double -> Ob.

(** x + dt * (a_1 k_1 + a_2 k_2 + ...) *)
Fixpoint axpy (x : St) (dt : double) (coeffs : list double) (ks : list St) : St :=
  match coeffs, ks with
  | a :: coeffs', k :: ks' => axpy (st_add x (st_scale (dt * a) k)) dt coeffs' ks'
  | _, _ => x
  end.

(** The stage derivatives: k_i = f(x + dt * sum_j a_ij k_j, t + c_i dt). *)
Fixpoint rk_stages (rows : list (double * list double)) (sys : Sys) (x : St)
         (t dt : double) (ks : list St) : Sys * list St :=
  match rows with
  | [] => (sys, ks)
  | (c, a) :: rows' =>
      let (sys', k) := system sys (axpy x dt a ks) (t + c * dt) in
      rk_stages rows' sys' x t dt (ks ++ [k])
  end.

(** [stepper.do_step(system, x, t, dt)] *)
Definition do_step (tab : Tableau) (sys : Sys) (x : St) (t dt : double) : Sys * St :=
  let (sys', ks) := rk_stages (rk_rows tab) sys x t dt [] in
  (sys', axpy x dt (rk_b tab) ks).

(** odeint's [less_eq_with_sign(t1, t2, dt)]: t1 <= t2 in the direction
    of dt, up to the machine epsilon:

      if (dt > 0) return t1 - t2 <= epsilon; else return t2 - t1 <= epsilon; *)
Definition less_eq_with_sign (t1 t2 dt : double) : bool :=
  if Rlt_dec 0 dt
  then (if Rle_dec (rnd (t1 - t2)) Std.epsilon then true else false)
  else (if Rle_dec (rnd (t2 - t1)) Std.epsilon then true else false).

(** The value of the loop's variable [time] when [step] steps have been
    taken: [start_time] before the first step, and afterwards
    [start_time + step * dt], recomputed after every step.  [step] is an
    [int]: its conversion to [double] is exact, and a run of fewer than
    2^31 steps does not overflow it. *)
Definition time_at (start_time dt : double) (step : nat) : double :=
  match step with
  | O => start_time
  | S _ => rnd (start_time + rnd (INR step * dt))
  end.

(** What [integrate_const] leaves behind: the system, the state and the
    observer (all three passed by reference) and the returned number of
    steps. *)
Record Integrated : Type := mkIntegrated {
  int_sys : Sys;
  int_state : St;
  int_obs : Ob;
  int_steps : nat
}.

(** The loop of [boost::numeric::odeint::integrate_const] for a plain
    stepper:

      time = start_time; step = 0;
      while (less_eq_with_sign(time + dt, end_time, dt)) {
        obs(x, time); st.do_step(system, x, time, dt);
        ++step; time = start_time + step * dt;
      }
      obs(x, time); return step;

    [fuel] bounds the number of iterations; [None] means it ran out.
    The loop's [time] is [time_at start_time dt step]. *)
Fixpoint integrate_const_loop (tab : Tableau) (start_time end_time dt : double)
         (fuel : nat) (sys : Sys) (x : St) (step : nat) (obs : Ob)
  : option Integrated :=
  let time := time_at start_time dt step in
  if less_eq_with_sign (rnd (time + dt)) end_time dt
  then match fuel with
       | O => None
       | S fuel' =>
           let obs' := observer obs x time in
           let (sys', x') := do_step tab sys x time dt in
           integrate_const_loop tab start_time end_time dt fuel' sys' x'
                                (S step) obs'
       end
  else Some (mkIntegrated sys x (observer obs x time) step).

(** Iterations that suffice for the loop to end when dt > 0, in either
    arithmetic: twice the length of the interval in units of dt. *)
Definition integrate_fuel (start_time end_time dt : double) : nat :=
  Z.to_nat (up (2 * ((Rabs (end_time - start_time) + Std.epsilon) / Rabs dt))).

(** [integrate_const(stepper, std::ref(system), x, start_time, end_time,
    dt, std::ref(obs))].  [None] stands for a loop that does not end within
    [integrate_fuel] iterations, as the C++ loop with dt = 0 and end_time
    not after start_time; for dt > 0 the result is [Some] (lemma
    [integrate_const_forward] in exact arithmetic, lemma
    [integrate_const_binary64] in the arithmetic of [double]). *)
Definition integrate_const (tab : Tableau) (sys : Sys) (x : St)
           (start_time end_time dt : double) (obs : Ob) : option Integrated :=
  integrate_const_loop tab start_time end_time dt
                       (integrate_fuel start_time end_time dt) sys x 0%nat obs.

End Integrator.

Arguments Integrated : clear implicits.
Arguments mkIntegrated {St Sys Ob}.
Arguments int_sys {St Sys Ob}.
Arguments int_state {St Sys Ob}.
Arguments int_obs {St Sys Ob}.
Arguments int_steps {St Sys Ob}.

(** A system functor paired with a ghost counter of its evaluations. *)
Definition counted {St Sys : Type} (system : Sys -> St -> double -> Sys * St)
  : (Sys * nat) -> St -> double -> (Sys * nat) * St :=
  fun sn x t => let (sys', dxdt) := system (fst sn) x t in
                ((sys', S (snd sn)), dxdt).

(** Modelled from the spec: the class template [Observer<C>] of ode.h, used
    by the seasonal and the landscape entry points, is not among the
    sources.  Section 4.5: "a sink invoked once per completed step with
    (state, time); appends a copy of state and the time to two parallel
    ordered sequences".  [OnePlantObserver] below, which is in the sources,
    has the same two members and the same call operator. *)
Record Observer (C : Type) : Type := mkObserver {
  data : list C;
  time : list double
}.
Arguments mkObserver {C}.
Arguments data {C}.
Arguments time {C}.

Definition Observer_new {C : Type} : Observer C := mkObserver [] [].

Definition Observer_call {C : Type} (obs : Observer C) (x : C) (t : double)
  : Observer C :=
  mkObserver (data obs ++ [x]) (time obs ++ [t]).

(** Runs an observer over a list of recorded (state, time) pairs. *)
Definition feed {Ob St : Type} (observer : Ob -> St -> double -> Ob)
           (obs : Ob) (records : list (St * double)) : Ob :=
  fold_left (fun o r => observer o (fst r) (snd r)) records obs.

(** ** Single plant, constant resource input *)

Module OnePlant.

(** [class OnePlantSystemFunction].  The member [R] is named [R_in] here,
    [R] being the type of the reals. *)
Record OnePlantSystemFunction : Type := mkSystem {
  m : double;
  R_in : double;
  d_yp : double;
  d_b0 : double;
  d_bp : double;
  g_yp : double;
  g_b0 : double;
  g_bp : double;
  L_0 : double;
  P_max : double;
  q : double;
  s_0_h : double;
  h : double;
  f_0_u : double;
  F_tilde : double;
  u : double
}.

(** The constructor: caches s_0^h and f_0^u. *)
Definition make (m_ R_ d_yp_ d_b0_ d_bp_ g_yp_ g_b0_ g_bp_ L_0_ P_max_ q_
                 s_0_ h_ f_0_ F_tilde_ u_ : double) : OnePlantSystemFunction :=
  {| m := m_; R_in := R_; d_yp := d_yp_; d_b0 := d_b0_; d_bp := d_bp_;
     g_yp := g_yp_; g_b0 := g_b0_; g_bp := g_bp_; L_0 := L_0_;
     P_max := P_max_; q := q_;
     s_0_h := Std.pow s_0_ h_;
     h := h_;
     f_0_u := Std.pow f_0_ u_;
     F_tilde := F_tilde_; u := u_ |}.

(** The local [P] of [operator()]: the pollinator visitation rate. *)
Definition visitation (sys : OnePlantSystemFunction) (x : VecType) : double :=
  let B := nth 1 x 0 in
  let F := nth 0 x 0 + B + nth 2 x 0 in
  let FF_u := Std.pow (F / (F + F_tilde sys)) (u sys) in
  let phi := FF_u / (f_0_u sys + FF_u) in
  let psi := s_0_h sys / (s_0_h sys + Std.pow (B / F) (h sys)) in
  P_max sys * (q sys * psi + (1 - q sys) * phi).

(** [operator()(x, dxdt, t)]: returns what it writes into [dxdt].  [x] has
    the three elements the entry point gives it. *)
Definition call (sys : OnePlantSystemFunction) (x : VecType) (t : double)
  : VecType :=
  let Y := nth 0 x 0 in
  let B := nth 1 x 0 in
  let N := nth 2 x 0 in
  let F := Y + B + N in
  let P := visitation sys x in
  let PF := P / F in
  let Lambda := PF / (L_0 sys + PF) in
  let gamma_y := g_yp sys * Lambda in
  let gamma_b := g_b0 sys + g_bp sys * Lambda in
  let delta_y := d_yp sys * Lambda in
  let delta_b := d_b0 sys + d_bp sys * Lambda in
  let disp_y := delta_y * Y / F + gamma_y in
  let disp_b := delta_b * B / F + gamma_b in
  let dYdt := disp_y * N - m sys * Y in
  let dBdt := disp_b * N - m sys * B in
  let dNdt := R_in sys - N * (m sys + disp_y + disp_b) in
  [dYdt; dBdt; dNdt].

(** The functor as the integrator sees it: the call changes nothing in
    the object. *)
Definition system (sys : OnePlantSystemFunction) (x : VecType) (t : double)
  : OnePlantSystemFunction * VecType :=
  (sys, call sys x t).

(** [struct OnePlantObserver] *)
Record OnePlantObserver : Type := mkObserver {
  data : list VecType;
  time : list double
}.

Definition OnePlantObserver_new : OnePlantObserver := mkObserver [] [].

(** Its call operator: [data.push_back(x); time.push_back(t)]. *)
Definition observe (obs : OnePlantObserver) (x : VecType) (t : double)
  : OnePlantObserver :=
  mkObserver (data obs ++ [x]) (time obs ++ [t]).

(** One row of the output of [one_plant_ode]: the time, the [xsize]
    state values, and the recomputed "P" column. *)
Definition output_row (P_max q s_0_h h f_0_u u : double) (xsize : nat)
           (t : double) (d : VecType) : list double :=
  let F := fold_left (fun F j => F + nth j d 0) (seq 0 xsize) 0 in
  let F_u := Std.pow F u in
  let phi := F_u / (f_0_u + F_u) in
  let psi := s_0_h / (s_0_h + Std.pow (nth 1 d 0 / F) h) in
  (t :: map (fun j => nth j d 0) (seq 0 xsize))
    ++ [P_max * (q * psi + (1 - q) * phi)].

(** [one_plant_ode] up to the return of [integrate_const]; the system
    carries a ghost count of its evaluations. *)
Definition one_plant_integrate {rd : Rounding} (stepper : Tableau)
           (m R d_yp d_b0 d_bp g_yp g_b0 g_bp L_0 P_max q s_0 h f_0 F_tilde u
            dt max_t Y0 B0 N0 : double)
  : option (Integrated VecType (OnePlantSystemFunction * nat) OnePlantObserver) :=
  let x := vec_set (vec_set (vec_set (repeat 0 3) 0 Y0) 1 B0) 2 N0 in
  let obs := OnePlantObserver_new in
  let system_ := make m R d_yp d_b0 d_bp g_yp g_b0 g_bp L_0 P_max q s_0 h
                      f_0 F_tilde u in
  integrate_const (counted system) observe stepper (system_, 0%nat) x
                  0 max_t dt obs.

(** [one_plant_ode]: the table with columns t, Y, B, N, P. *)
Definition one_plant_ode {rd : Rounding} (stepper : Tableau)
           (m R d_yp d_b0 d_bp g_yp g_b0 g_bp L_0 P_max q s_0 h f_0 F_tilde u
            dt max_t Y0 B0 N0 : double) : option NumericMatrix :=
  match one_plant_integrate stepper m R d_yp d_b0 d_bp g_yp g_b0 g_bp L_0
                            P_max q s_0 h f_0 F_tilde u dt max_t Y0 B0 N0 with
  | None => None
  | Some r =>
      let obs := int_obs r in
      let xsize := length (int_state r) in
      let n_steps := length (data obs) in
      let f_0_u := Std.pow f_0 u in
      let s_0_h := Std.pow s_0 h in
      Some (mkNumericMatrix n_steps (xsize + 2)
              (zip_with (output_row P_max q s_0_h h f_0_u u xsize)
                        (time obs) (data obs)))
  end.

End OnePlant.

(** ** Single plant, seasonal resource input *)

Module OnePlantSeason.

(** [class OnePlantSeasonSystemFunction] *)
Record OnePlantSeasonSystemFunction : Type := mkSystem {
  m : double;
  d_yp : double;
  d_b0 : double;
  d_bp : double;
  g_yp : double;
  g_b0 : double;
  g_bp : double;
  L_0 : double;
  P_max : double;
  q : double;
  s_0_h : double;
  h : double;
  f_0_u : double;
  F_tilde : double;
  u : double;
  R_hat : double;
  t0 : double;
  k : double;
  lambda : double
}.

Definition make (m_ d_yp_ d_b0_ d_bp_ g_yp_ g_b0_ g_bp_ L_0_ P_max_ q_
                 s_0_ h_ f_0_ F_tilde_ u_ R_hat_ t0_ k_ lambda_ : double)
  : OnePlantSeasonSystemFunction :=
  {| m := m_; d_yp := d_yp_; d_b0 := d_b0_; d_bp := d_bp_;
     g_yp := g_yp_; g_b0 := g_b0_; g_bp := g_bp_; L_0 := L_0_;
     P_max := P_max_; q := q_;
     s_0_h := Std.pow s_0_ h_;
     h := h_;
     f_0_u := Std.pow f_0_ u_;
     F_tilde := F_tilde_; u := u_;
     R_hat := R_hat_; t0 := t0_; k := k_; lambda := lambda_ |}.

(** The local [R] of [operator()]: the Weibull-shaped resource pulse. *)
Definition resource (sys : OnePlantSeasonSystemFunction) (t : double) : double :=
  R_hat sys * (k sys / lambda sys)
    * Std.pow ((t + t0 sys) / lambda sys) (k sys - 1)
    * Std.exp (-1 * Std.pow ((t + t0 sys) / lambda sys) (k sys)).

(** The local [P] of [operator()]. *)
Definition visitation (sys : OnePlantSeasonSystemFunction) (x : VecType) : double :=
  let B := nth 1 x 0 in
  let F := nth 0 x 0 + B + nth 2 x 0 in
  let FF_u := Std.pow (F / (F + F_tilde sys)) (u sys) in
  let phi := FF_u / (f_0_u sys + FF_u) in
  let psi := s_0_h sys / (s_0_h sys + Std.pow (B / F) (h sys)) in
  P_max sys * (q sys * psi + (1 - q sys) * phi).

(** [operator()(x, dxdt, t)] *)
Definition call (sys : OnePlantSeasonSystemFunction) (x : VecType) (t : double)
  : VecType :=
  let Y := nth 0 x 0 in
  let B := nth 1 x 0 in
  let N := nth 2 x 0 in
  let R := resource sys t in
  let F := Y + B + N in
  let P := visitation sys x in
  let PF := P / F in
  let Lambda := PF / (L_0 sys + PF) in
  let gamma_y := g_yp sys * Lambda in
  let gamma_b := g_b0 sys + g_bp sys * Lambda in
  let delta_y := d_yp sys * Lambda in
  let delta_b := d_b0 sys + d_bp sys * Lambda in
  let disp_y := delta_y * Y / F + gamma_y in
  let disp_b := delta_b * B / F + gamma_b in
  let dYdt := disp_y * N - m sys * Y in
  let dBdt := disp_b * N - m sys * B in
  let dNdt := R - N * (m sys + disp_y + disp_b) in
  [dYdt; dBdt; dNdt].

Definition system (sys : OnePlantSeasonSystemFunction) (x : VecType) (t : double)
  : OnePlantSeasonSystemFunction * VecType :=
  (sys, call sys x t).

(** One row of the output of [one_plant_season_ode]. *)
Definition output_row (P_max q s_0_h h f_0_u F_tilde u : double) (xsize : nat)
           (t : double) (d : VecType) : list double :=
  let F := fold_left (fun F j => F + nth j d 0) (seq 0 xsize) 0 in
  let FF_u := Std.pow (F / (F + F_tilde)) u in
  let phi := FF_u / (f_0_u + FF_u) in
  let psi := s_0_h / (s_0_h + Std.pow (nth 1 d 0 / F) h) in
  (t :: map (fun j => nth j d 0) (seq 0 xsize))
    ++ [P_max * (q * psi + (1 - q) * phi)].

Definition one_plant_season_integrate {rd : Rounding} (stepper : Tableau)
           (m d_yp d_b0 d_bp g_yp g_b0 g_bp L_0 P_max q s_0 h f_0 F_tilde u
            R_hat t0 k lambda dt max_t Y0 B0 N0 : double)
  : option (Integrated VecType (OnePlantSeasonSystemFunction * nat)
                       (Observer VecType)) :=
  let x := vec_set (vec_set (vec_set (repeat 0 3) 0 Y0) 1 B0) 2 N0 in
  let obs := Observer_new in
  let system_ := make m d_yp d_b0 d_bp g_yp g_b0 g_bp L_0 P_max q s_0 h
                      f_0 F_tilde u R_hat t0 k lambda in
  integrate_const (counted system) Observer_call stepper (system_, 0%nat) x
                  0 max_t dt obs.

(** [one_plant_season_ode]: the table with columns t, Y, B, N, P. *)
Definition one_plant_season_ode {rd : Rounding} (stepper : Tableau)
           (m d_yp d_b0 d_bp g_yp g_b0 g_bp L_0 P_max q s_0 h f_0 F_tilde u
            R_hat t0 k lambda dt max_t Y0 B0 N0 : double)
  : option NumericMatrix :=
  match one_plant_season_integrate stepper m d_yp d_b0 d_bp g_yp g_b0 g_bp
          L_0 P_max q s_0 h f_0 F_tilde u R_hat t0 k lambda dt max_t
          Y0 B0 N0 with
  | None => None
  | Some r =>
      let obs := int_obs r in
      let xsize := length (int_state r) in
      let n_steps := length (data obs) in
      let f_0_u := Std.pow f_0 u in
      let s_0_h := Std.pow s_0 h in
      Some (mkNumericMatrix n_steps (xsize + 2)
              (zip_with (output_row P_max q s_0_h h f_0_u F_tilde u xsize)
                        (time obs) (data obs)))
  end.

End OnePlantSeason.

(** ** Landscape of plants with constant flower totals *)

(** Modelled from the spec: [len_check] of ode.h is not among the sources.
    Section 7: the validation "must check per-plant parameter vector lengths
    against the plant count before the core runs and report a
    dimension-mismatch condition".  The call [len_check(err, vec, name, np)]
    raises the flag [err] when [vec] does not have [np] elements and leaves
    it as it is otherwise; the name only serves the report. *)
Definition len_check (err : bool) (vec : VecType) (name : string) (np : nat)
  : bool :=
  if Nat.eqb (length vec) np then err else true.

Module LandConstF.

(** [class LandConstFSystemFunction]; [weights] is its private member. *)
Record LandConstFSystemFunction : Type := mkSystem {
  m : VecType;
  d_yp : VecType;
  d_b0 : VecType;
  d_bp : VecType;
  g_yp : VecType;
  g_b0 : VecType;
  g_bp : VecType;
  L_0 : VecType;
  u : double;
  X : double;
  n_plants : nat;
  weights : VecType
}.

Definition make (m_ d_yp_ d_b0_ d_bp_ g_yp_ g_b0_ g_bp_ L_0_ : VecType)
           (u_ X_ : double) : LandConstFSystemFunction :=
  {| m := m_; d_yp := d_yp_; d_b0 := d_b0_; d_bp := d_bp_;
     g_yp := g_yp_; g_b0 := g_b0_; g_bp := g_bp_; L_0 := L_0_;
     u := u_; X := X_;
     n_plants := length m_;
     weights := repeat 0 (length m_) |}.

Definition set_weights (sys : LandConstFSystemFunction) (w : VecType)
  : LandConstFSystemFunction :=
  {| m := m sys; d_yp := d_yp sys; d_b0 := d_b0 sys; d_bp := d_bp sys;
     g_yp := g_yp sys; g_b0 := g_b0 sys; g_bp := g_bp sys; L_0 := L_0 sys;
     u := u sys; X := X sys; n_plants := n_plants sys; weights := w |}.

(** The first loop of [make_weights]: the body at index [i], on the pair
    (wts_vec, wt_sum). *)
Definition raw_weight_step (sys : LandConstFSystemFunction) (x : MatType)
           (acc : VecType * double) (i : nat) : VecType * double :=
  let YN := 1 - mat_get x i 1 in
  let wts_vec := vec_set (fst acc) i (Std.pow YN (u sys)) in
  (wts_vec, snd acc + nth i wts_vec 0).

(** [make_weights(wts_vec, x)]: returns the new content of [wts_vec]. *)
Definition make_weights (sys : LandConstFSystemFunction) (wts_vec : VecType)
           (x : MatType) : VecType :=
  let wts_vec :=
    if Nat.eqb (length wts_vec) (n_plants sys) then wts_vec
    else vec_resize wts_vec (n_plants sys) in
  let acc := fold_left (raw_weight_step sys x) (seq 0 (n_plants sys))
                       (wts_vec, 0) in
  map (fun w => w / (X sys + snd acc)) (fst acc).

(** [one_plant(i, x, dxdt, t)]: returns the row i it writes into [dxdt]. *)
Definition one_plant (sys : LandConstFSystemFunction) (i : nat) (x : MatType)
           (t : double) : double * double :=
  let Y := mat_get x i 0 in
  let B := mat_get x i 1 in
  let N := 1 - Y - B in
  let P := nth i (weights sys) 0 in
  let Lambda := P / (nth i (L_0 sys) 0 + P) in
  let gamma_y := nth i (g_yp sys) 0 * Lambda in
  let gamma_b := nth i (g_b0 sys) 0 + nth i (g_bp sys) 0 * Lambda in
  let delta_y := nth i (d_yp sys) 0 * Lambda in
  let delta_b := nth i (d_b0 sys) 0 + nth i (d_bp sys) 0 * Lambda in
  let disp_y := delta_y * Y + gamma_y in
  let disp_b := delta_b * B + gamma_b in
  let dYdt := disp_y * N - nth i (m sys) 0 * Y in
  let dBdt := disp_b * N - nth i (m sys) 0 * B in
  (dYdt, dBdt).

(** [operator()(x, dxdt, t)]: refreshes the member [weights] from [x],
    then writes one row of [dxdt] per plant.  [dxdt] has the n_plants rows
    of the state, each written once, so the result is given as the list
    of the written rows. *)
Definition call (sys : LandConstFSystemFunction) (x : MatType) (t : double)
  : LandConstFSystemFunction * MatType :=
  let sys' := set_weights sys (make_weights sys (weights sys) x) in
  (sys', map (fun i => one_plant sys' i x t) (seq 0 (n_plants sys'))).

(** The rows of the output for one recorded sample: t, p, Y, B, P for
    every plant k. *)
Definition output_rows (np : nat) (t : double) (d : MatType) (wts : VecType)
  : list (list double) :=
  map (fun k => [t; INR k; mat_get d k 0; mat_get d k 1; nth k wts 0])
      (seq 0 np).

(** The output loop: [wts] is refreshed by [make_weights] for every
    sample and read for every plant. *)
Definition output_step (sys : LandConstFSystemFunction) (np : nat)
           (acc : VecType * list (list double)) (r : double * MatType)
  : VecType * list (list double) :=
  let wts := make_weights sys (fst acc) (snd r) in
  (wts, snd acc ++ output_rows np (fst r) (snd r) wts).

(** What a call of the entry point does: the table it returns, the number
    of integration steps taken and the ghost count of evaluations of the
    dynamics function. *)
Record Outcome : Type := mkOutcome {
  output : NumericMatrix;
  steps_taken : nat;
  rhs_evaluations : nat
}.

(** The entry point after validation: lines 168-182. *)
Definition landscape_integrate {rd : Rounding} (stepper : Tableau)
           (m d_yp d_b0 d_bp g_yp g_b0 g_bp L_0 : VecType) (u X : double)
           (Y0 B0 : VecType) (dt max_t : double)
  : option (Integrated MatType (LandConstFSystemFunction * nat)
                       (Observer MatType)) :=
  let np := length m in
  let x := map (fun i => (nth i Y0 0, nth i B0 0)) (seq 0 np) in
  let obs := Observer_new in
  let system_ := make m d_yp d_b0 d_bp g_yp g_b0 g_bp L_0 u X in
  integrate_const (counted call) Observer_call stepper (system_, 0%nat) x
                  0 max_t dt obs.

(** [landscape_constantF_ode] *)
Definition landscape_constantF_ode {rd : Rounding} (stepper : Tableau)
           (m d_yp d_b0 d_bp g_yp g_b0 g_bp L_0 : VecType) (u X : double)
           (Y0 B0 : VecType) (dt max_t : double) : option Outcome :=
  let np := length m in
  let err := false in
  let err := len_check err d_yp "d_yp" np in
  let err := len_check err d_b0 "d_b0" np in
  let err := len_check err d_bp "d_bp" np in
  let err := len_check err g_yp "g_yp" np in
  let err := len_check err g_b0 "g_b0" np in
  let err := len_check err g_bp "g_bp" np in
  let err := len_check err L_0 "L_0" np in
  let err := len_check err Y0 "Y0" np in
  let err := len_check err B0 "B0" np in
  if err then Some (mkOutcome (mkNumericMatrix 0 0 []) 0 0)
  else
    let n_states := 2%nat in
    match landscape_integrate stepper m d_yp d_b0 d_bp g_yp g_b0 g_bp L_0
                              u X Y0 B0 dt max_t with
    | None => None
    | Some r =>
        let obs := int_obs r in
        let system_ := fst (int_sys r) in
        let n_steps := length (data obs) in
        let wts := repeat 0 np in
        let out := fold_left (output_step system_ np)
                             (combine (time obs) (data obs)) (wts, []) in
        Some (mkOutcome
                (mkNumericMatrix (n_steps * np) (n_states + 3) (snd out))
                (int_steps r) (snd (int_sys r)))
    end.

End LandConstF.

(** ** The spec's formulas, written from its words *)

Module Spec.

(** Section 4.1, steps 1-6, with the resource term R given. *)
Definition single_plant_rhs
           (m R d_yp d_b0 d_bp g_yp g_b0 g_bp L_0 P_max q s_0 h f_0 F_tilde u
            Y B N : double) : double * double * double :=
  let F := Y + B + N in
  let FF_u := Std.pow (F / (F + F_tilde)) u in
  let phi := FF_u / (Std.pow f_0 u + FF_u) in
  let psi := Std.pow s_0 h / (Std.pow s_0 h + Std.pow (B / F) h) in
  let P := P_max * (q * psi + (1 - q) * phi) in
  let Lambda := (P / F) / (L_0 + P / F) in
  let gamma_y := g_yp * Lambda in
  let gamma_b := g_b0 + g_bp * Lambda in
  let delta_y := d_yp * Lambda in
  let delta_b := d_b0 + d_bp * Lambda in
  let disp_y := delta_y * (Y / F) + gamma_y in
  let disp_b := delta_b * (B / F) + gamma_b in
  (disp_y * N - m * Y, disp_b * N - m * B, R - N * (m + disp_y + disp_b)).

(** The visitation rate P of Section 4.1, step 2. *)
Definition visitation_rate (P_max q s_0 h f_0 F_tilde u Y B N : double)
  : double :=
  let F := Y + B + N in
  let FF_u := Std.pow (F / (F + F_tilde)) u in
  let phi := FF_u / (Std.pow f_0 u + FF_u) in
  let psi := Std.pow s_0 h / (Std.pow s_0 h + Std.pow (B / F) h) in
  P_max * (q * psi + (1 - q) * phi).

(** The Weibull resource pulse of Section 4.1. *)
Definition seasonal_resource (R_hat t0 k lambda t : double) : double :=
  R_hat * (k / lambda) * Std.pow ((t + t0) / lambda) (k - 1)
    * Std.exp (- Std.pow ((t + t0) / lambda) k).

(** Section 4.3: the sum of the raw weights (1 - B_j)^u. *)
Definition raw_weight_sum (u : double) (x : MatType) : double :=
  fold_right (fun row acc => Std.pow (1 - snd row) u + acc) 0 x.

(** Section 4.3: P_i = (1 - B_i)^u / (X + sum_j (1 - B_j)^u). *)
Definition allocation_weight (u X : double) (x : MatType) (i : nat) : double :=
  Std.pow (1 - mat_get x i 1) u / (X + raw_weight_sum u x).

End Spec.

(** Sum of a vector of doubles. *)
Definition vec_sum (v : VecType) : double := fold_right Rplus 0 v.

(** The raw weights (1 - B_i)^u of the first [n] plants, as the first loop
    of [make_weights] computes them. *)
Definition raw_weights (u : double) (x : MatType) (n : nat) : VecType :=
  map (fun i => Std.pow (1 - mat_get x i 1) u) (seq 0 n).

(** ** The trajectory of a run, as functions of the number of steps *)

Section Trajectory.

Context {rd : Rounding} {St : Type} {SA : StateAlgebra St} {Sys : Type}.
Variable system : Sys -> St -> double -> Sys * St.
Variable tab : Tableau.
Variables start_time dt : double.

(** The system and the state [n] steps after step number [step]. *)
Fixpoint steps_from (n : nat) (sys : Sys) (x : St) (step : nat) : Sys * St :=
  match n with
  | O => (sys, x)
  | S n' =>
      let (sys', x') :=
        do_step system tab sys x (time_at start_time dt step) dt in
      steps_from n' sys' x' (S step)
  end.

(** The (state, time) pairs handed to the observer when [n] steps are
    taken from step number [step]: the current pair, then one per step. *)
Fixpoint records_from (n : nat) (sys : Sys) (x : St) (step : nat)
  : list (St * double) :=
  (x, time_at start_time dt step) ::
  match n with
  | O => []
  | S n' =>
      let (sys', x') :=
        do_step system tab sys x (time_at start_time dt step) dt in
      records_from n' sys' x' (S step)
  end.

End Trajectory.

(** The number of steps [integrate_const] takes for dt > 0 in exact
    arithmetic: the largest n with start_time + n dt <= end_time + epsilon. *)
Definition step_count (start_time end_time dt : double) : nat :=
  Z.to_nat (Int_part ((end_time - start_time + Std.epsilon) / dt)).

Definition strictly_increasing (l : list double) : Prop :=
  forall i : nat, (S i < length l)%nat -> nth i l 0 < nth (S i) l 0.

(** The i-th element of l is i dt up to a relative error of 2^-53. *)
Definition spaced_by (dt : double) (l : list double) : Prop :=
  forall i : nat,
    (i < length l)%nat ->
    Rabs (nth i l 0 - INR i * dt) <= Binary64.unit_roundoff * (INR i * dt).

(** The calls of the entry points considered in the arithmetic of
    [double]: dt and max_t are positive finite doubles; max_t is at most
    2^1022, so that no time computed by the loop exceeds the largest
    double; and max_t / dt is at most 2^30 = 1073741824, so that the step
    counter, an [int], does not overflow. *)
Definition valid_times (dt max_t : double) : Prop :=
  Binary64.is_double dt /\ Binary64.is_double max_t
  /\ 0 < dt /\ 0 < max_t
  /\ max_t <= powerRZ 2 1022
  /\ max_t + Std.epsilon <= 1073741824 * dt.

(** The recorded samples of a run in the arithmetic of [double] over
    [0, max_t] with step dt that took [steps] steps: the times are the
    doubles nearest to 0, dt, 2 dt, ..., steps * dt; they increase strictly
    and are spaced by dt up to rounding; the last of them is not past
    max_t + epsilon, and one more step would lead past max_t (both up to
    rounding); there is one record for the initial state and one per
    step; the number of steps is in the range of [int]. *)
Definition sampled_on_grid (dt max_t : double) (times : list double)
           (n_records steps : nat) : Prop :=
  times = map (fun k => Binary64.round (INR k * dt)) (seq 0 (S steps))
  /\ Forall Binary64.is_double times
  /\ strictly_increasing times
  /\ spaced_by dt times
  /\ nth 0 times 0 = 0
  /\ last times 0 <= (max_t + Std.epsilon) * (1 + 3 * Std.epsilon)
  /\ max_t < (last times 0 + dt) * (1 + Std.epsilon)
  /\ length times = S steps
  /\ n_records = S steps
  /\ (Z.of_nat steps < 2 ^ 31)%Z.

(** Plants i and j of the landscape have the same parameters. *)
Definition same_parameters (sys : LandConstF.LandConstFSystemFunction)
           (i j : nat) : Prop :=
  nth i (LandConstF.m sys) 0 = nth j (LandConstF.m sys) 0
  /\ nth i (LandConstF.d_yp sys) 0 = nth j (LandConstF.d_yp sys) 0
  /\ nth i (LandConstF.d_b0 sys) 0 = nth j (LandConstF.d_b0 sys) 0
  /\ nth i (LandConstF.d_bp sys) 0 = nth j (LandConstF.d_bp sys) 0
  /\ nth i (LandConstF.g_yp sys) 0 = nth j (LandConstF.g_yp sys) 0
  /\ nth i (LandConstF.g_b0 sys) 0 = nth j (LandConstF.g_b0 sys) 0
  /\ nth i (LandConstF.g_bp sys) 0 = nth j (LandConstF.g_bp sys) 0
  /\ nth i (LandConstF.L_0 sys) 0 = nth j (LandConstF.L_0 sys) 0.

(** The state has n rows, and its rows i and j are equal. *)
Definition same_rows (n i j : nat) (x : MatType) : Prop :=
  length x = n /\ nth i x (0, 0) = nth j x (0, 0).

(** A landscape system object for n plants in which plants i and j have
    the same parameters. *)
Definition symmetric_system (n i j : nat)
           (sys : LandConstF.LandConstFSystemFunction) : Prop :=
  LandConstF.n_plants sys = n /\ same_parameters sys i j.

(** ** The scenario of Section 8 of the spec *)


(** Coefficients that are non-negative and add up to at most 1. *)
Definition convex_coeffs (cs : list double) : Prop :=
  Forall (fun a => 0 <= a) cs /\ vec_sum cs <= 1.

(** A tableau all of whose stage rows and whose weights are such
    coefficients; the classical fourth-order scheme and the explicit Euler
    scheme are of this kind. *)
Definition convex_tableau (tab : Tableau) : Prop :=
  Forall (fun row => convex_coeffs (snd row)) (rk_rows tab)
  /\ convex_coeffs (rk_b tab).

(** The step of the scenario: dt = 0.1, the double nearest to 1/10. *)
Definition scenario_dt : double := Binary64.round (1/10).



(* ================================================================== *)
(** * Part II: lemmas and theorems                                     *)
(* ================================================================== *)

(** ** The single-plant dynamics functions *)

(** C1.  For every state (Y, B, N) with Y + B + N > 0 and every time t, the
    derivative written by the constant-input dynamics function, built by its
    constructor from the raw parameters, is the one given by the algebra of
    Section 4.1 of the spec. *)
Theorem one_plant_call_matches_spec :
  forall (m R d_yp d_b0 d_bp g_yp g_b0 g_bp L_0 P_max q s_0 h f_0 F_tilde u
          Y B N t : double),
    Y + B + N > 0 ->
    OnePlant.call
      (OnePlant.make m R d_yp d_b0 d_bp g_yp g_b0 g_bp L_0 P_max q s_0 h f_0
                     F_tilde u) [Y; B; N] t
    = let '(dY, dB, dN) :=
        Spec.single_plant_rhs m R d_yp d_b0 d_bp g_yp g_b0 g_bp L_0 P_max q
                              s_0 h f_0 F_tilde u Y B N in
      [dY; dB; dN].
Proof.
  intros. unfold OnePlant.call, OnePlant.visitation, Spec.single_plant_rhs.
  cbn [OnePlant.make OnePlant.m OnePlant.R_in OnePlant.d_yp OnePlant.d_b0
       OnePlant.d_bp OnePlant.g_yp OnePlant.g_b0 OnePlant.g_bp OnePlant.L_0
       OnePlant.P_max OnePlant.q OnePlant.s_0_h OnePlant.h OnePlant.f_0_u
       OnePlant.F_tilde OnePlant.u nth].
  repeat (apply (f_equal2 (@cons R)); [unfold Rdiv; ring |]).
  reflexivity.
Qed.

Lemma one_plant_call_matches_spec_witness :
  OnePlant.call
    (OnePlant.make (1/10) 1 (1/5) (1/20) (1/10) (3/10) (1/20) (1/10) 1 5 (1/2)
                   1 2 1 1 2) [1; 1; 1] 0
  = let '(dY, dB, dN) :=
      Spec.single_plant_rhs (1/10) 1 (1/5) (1/20) (1/10) (3/10) (1/20) (1/10)
                            1 5 (1/2) 1 2 1 1 2 1 1 1 in
    [dY; dB; dN].
Proof.
  apply (one_plant_call_matches_spec (1/10) 1 (1/5) (1/20) (1/10) (3/10)
           (1/20) (1/10) 1 5 (1/2) 1 2 1 1 2 1 1 1 0).
  lra.
Defined.

(** The three components of the constant-input derivative add up to
    R - m (Y + B + N). *)
Lemma one_plant_derivative_sum :
  forall (sys : OnePlant.OnePlantSystemFunction) (Y B N t : double),
    nth 0 (OnePlant.call sys [Y; B; N] t) 0
    + nth 1 (OnePlant.call sys [Y; B; N] t) 0
    + nth 2 (OnePlant.call sys [Y; B; N] t) 0
    = OnePlant.R_in sys - OnePlant.m sys * (Y + B + N).
Proof.
  intros. unfold OnePlant.call. cbn [nth]. ring.
Qed.

(** The resource term computed by the seasonal dynamics function is the
    Weibull pulse of the spec. *)
Lemma season_resource_matches_spec :
  forall (sys : OnePlantSeason.OnePlantSeasonSystemFunction) (t : double),
    OnePlantSeason.resource sys t
    = Spec.seasonal_resource (OnePlantSeason.R_hat sys) (OnePlantSeason.t0 sys)
                             (OnePlantSeason.k sys) (OnePlantSeason.lambda sys) t.
Proof.
  intros. unfold OnePlantSeason.resource, Spec.seasonal_resource.
  replace (-1 * Std.pow ((t + OnePlantSeason.t0 sys) / OnePlantSeason.lambda sys)
                        (OnePlantSeason.k sys))
    with (- Std.pow ((t + OnePlantSeason.t0 sys) / OnePlantSeason.lambda sys)
                    (OnePlantSeason.k sys)) by ring.
  reflexivity.
Qed.

Lemma season_derivative_sum :
  forall (sys : OnePlantSeason.OnePlantSeasonSystemFunction) (Y B N t : double),
    nth 0 (OnePlantSeason.call sys [Y; B; N] t) 0
    + nth 1 (OnePlantSeason.call sys [Y; B; N] t) 0
    + nth 2 (OnePlantSeason.call sys [Y; B; N] t) 0
    = OnePlantSeason.resource sys t - OnePlantSeason.m sys * (Y + B + N).
Proof.
  intros. unfold OnePlantSeason.call. cbn [nth]. ring.
Qed.

(** C2.  For both single-plant variants, for every state with
    F = Y + B + N > 0, every time t and arbitrary parameter values, the
    components of the derivative satisfy dY/dt + dB/dt + dN/dt
    = R - m (Y + B + N), where R is the fixed resource parameter
    (constant input) or the Weibull resource term at t (seasonal). *)
Theorem derivative_sum_identity :
  forall (Y B N t : double),
    Y + B + N > 0 ->
    (forall sys : OnePlant.OnePlantSystemFunction,
        let dxdt := OnePlant.call sys [Y; B; N] t in
        nth 0 dxdt 0 + nth 1 dxdt 0 + nth 2 dxdt 0
        = OnePlant.R_in sys - OnePlant.m sys * (Y + B + N))
    /\
    (forall sys : OnePlantSeason.OnePlantSeasonSystemFunction,
        let dxdt := OnePlantSeason.call sys [Y; B; N] t in
        nth 0 dxdt 0 + nth 1 dxdt 0 + nth 2 dxdt 0
        = Spec.seasonal_resource (OnePlantSeason.R_hat sys)
                                 (OnePlantSeason.t0 sys)
                                 (OnePlantSeason.k sys)
                                 (OnePlantSeason.lambda sys) t
          - OnePlantSeason.m sys * (Y + B + N)).
Proof.
  intros Y B N t _. split; intros sys dxdt; subst dxdt.
  - apply one_plant_derivative_sum.
  - rewrite <- season_resource_matches_spec. apply season_derivative_sum.
Qed.

Lemma derivative_sum_identity_witness :
  (forall sys : OnePlant.OnePlantSystemFunction,
      let dxdt := OnePlant.call sys [1; 1; 1] 0 in
      nth 0 dxdt 0 + nth 1 dxdt 0 + nth 2 dxdt 0
      = OnePlant.R_in sys - OnePlant.m sys * (1 + 1 + 1))
  /\
  (forall sys : OnePlantSeason.OnePlantSeasonSystemFunction,
      let dxdt := OnePlantSeason.call sys [1; 1; 1] 0 in
      nth 0 dxdt 0 + nth 1 dxdt 0 + nth 2 dxdt 0
      = Spec.seasonal_resource (OnePlantSeason.R_hat sys)
                               (OnePlantSeason.t0 sys)
                               (OnePlantSeason.k sys)
                               (OnePlantSeason.lambda sys) 0
        - OnePlantSeason.m sys * (1 + 1 + 1)).
Proof.
  apply (derivative_sum_identity 1 1 1 0). lra.
Defined.

(** ** Vectors *)

Lemma vec_set_length : forall v i a, length (vec_set v i a) = length v.
Proof.
  induction v as [|b v IH]; intros [|i] a; simpl; auto.
Qed.

Lemma vec_set_middle :
  forall (l1 l2 : VecType) (b a : double),
    vec_set (l1 ++ b :: l2) (length l1) a = l1 ++ a :: l2.
Proof.
  induction l1 as [|c l1 IH]; intros; simpl; [reflexivity | now rewrite IH].
Qed.

Lemma vec_set_at :
  forall (l1 l2 : VecType) (b a : double) (k : nat),
    length l1 = k -> vec_set (l1 ++ b :: l2) k a = l1 ++ a :: l2.
Proof.
  intros l1 l2 b a k <-. apply vec_set_middle.
Qed.

Lemma nth_at :
  forall (l1 l2 : VecType) (a : double) (k : nat),
    length l1 = k -> nth k (l1 ++ a :: l2) 0 = a.
Proof.
  intros l1 l2 a k <-. apply nth_middle.
Qed.

Lemma vec_resize_length : forall v n, length (vec_resize v n) = n.
Proof.
  intros v n. unfold vec_resize.
  rewrite length_app, length_firstn, repeat_length. lia.
Qed.

Lemma skipn_cons_nth :
  forall (v : VecType) (k : nat),
    (k < length v)%nat -> skipn k v = nth k v 0 :: skipn (S k) v.
Proof.
  induction v as [|b v IH]; intros [|k] Hk; simpl in *; try lia; auto.
  apply IH. lia.
Qed.

Lemma fold_left_Rplus :
  forall (l : VecType) (a : double), fold_left Rplus l a = a + vec_sum l.
Proof.
  induction l as [|b l IH]; intros a; simpl.
  - lra.
  - rewrite IH. lra.
Qed.

Lemma vec_sum_app : forall l1 l2, vec_sum (l1 ++ l2) = vec_sum l1 + vec_sum l2.
Proof.
  induction l1 as [|a l1 IH]; intros; simpl; [lra | rewrite IH; lra].
Qed.

Lemma vec_sum_map_div :
  forall (l : VecType) (c : double),
    vec_sum (map (fun w => w / c) l) = vec_sum l / c.
Proof.
  induction l as [|a l IH]; intros c; simpl.
  - unfold Rdiv. ring.
  - rewrite IH. unfold Rdiv. ring.
Qed.

Lemma nth_map_seq :
  forall {A : Type} (f : nat -> A) (n i : nat) (d : A),
    (i < n)%nat -> nth i (map f (seq 0 n)) d = f i.
Proof.
  intros A f n i d Hi.
  rewrite (nth_indep _ d (f 0%nat)) by (rewrite length_map, length_seq; exact Hi).
  rewrite (map_nth f (seq 0 n) 0%nat i), seq_nth by exact Hi. reflexivity.
Qed.

(** ** [std::pow] on the arguments the models use *)

Lemma pow_pos_base : forall x y, 0 < x -> Std.pow x y = Rpower x y.
Proof.
  intros x y Hx. unfold Std.pow. destruct (Rlt_dec 0 x); [reflexivity | lra].
Qed.

Lemma pow_positive : forall x y, 0 < x -> 0 < Std.pow x y.
Proof.
  intros x y Hx. rewrite pow_pos_base by exact Hx.
  unfold Rpower. apply exp_pos.
Qed.

Lemma pow_zero_base : forall y, 0 < y -> Std.pow 0 y = 0.
Proof.
  intros y Hy. unfold Std.pow.
  destruct (Rlt_dec 0 0); [lra |].
  destruct (Req_dec_T 0 0); [| lra].
  destruct (Rlt_dec 0 y); [reflexivity | lra].
Qed.

Lemma pow_zero_exponent : forall x, 0 <= x -> Std.pow x 0 = 1.
Proof.
  intros x Hx. unfold Std.pow.
  destruct (Rlt_dec 0 x).
  - apply Rpower_O. assumption.
  - destruct (Req_dec_T x 0); [| lra].
    destruct (Rlt_dec 0 0); [lra | reflexivity].
Qed.

Lemma pow_nonneg : forall x y, 0 <= x -> 0 <= Std.pow x y.
Proof.
  intros x y Hx. destruct (Rle_lt_or_eq_dec 0 x Hx) as [Hpos | Hz].
  - left. apply pow_positive. exact Hpos.
  - subst x. unfold Std.pow.
    destruct (Rlt_dec 0 0); [lra |].
    destruct (Req_dec_T 0 0); [| lra].
    destruct (Rlt_dec 0 y); lra.
Qed.

Lemma pow_one_exponent : forall x, 0 <= x -> Std.pow x 1 = x.
Proof.
  intros x Hx. destruct (Rle_lt_or_eq_dec 0 x Hx) as [Hpos | Hz].
  - rewrite pow_pos_base by exact Hpos. apply Rpower_1. exact Hpos.
  - subst x. apply pow_zero_base. lra.
Qed.

Lemma pow_two_exponent : forall x, 0 <= x -> Std.pow x 2 = x * x.
Proof.
  intros x Hx. destruct (Rle_lt_or_eq_dec 0 x Hx) as [Hpos | Hz].
  - rewrite pow_pos_base by exact Hpos.
    replace 2 with (1 + 1) by lra.
    rewrite Rpower_plus, Rpower_1 by exact Hpos. reflexivity.
  - subst x. rewrite pow_zero_base by lra. ring.
Qed.

(** ** The pollinator-allocation module *)

Lemma raw_weights_S :
  forall (u : double) (x : MatType) (k : nat),
    raw_weights u x (S k)
    = raw_weights u x k ++ [Std.pow (1 - mat_get x k 1) u].
Proof.
  intros. unfold raw_weights. now rewrite seq_S, map_app.
Qed.

Lemma raw_weights_length :
  forall (u : double) (x : MatType) (k : nat), length (raw_weights u x k) = k.
Proof.
  intros. unfold raw_weights. now rewrite length_map, length_seq.
Qed.

(** The first loop of [make_weights], after k iterations: the first k
    entries hold the raw weights, the others are untouched, and the running
    sum is the sum of the raw weights so far. *)
Lemma raw_weight_loop :
  forall (sys : LandConstF.LandConstFSystemFunction) (x : MatType)
         (w0 : VecType) (k : nat),
    (k <= length w0)%nat ->
    fold_left (LandConstF.raw_weight_step sys x) (seq 0 k) (w0, 0)
    = (raw_weights (LandConstF.u sys) x k ++ skipn k w0,
       vec_sum (raw_weights (LandConstF.u sys) x k)).
Proof.
  intros sys x w0. induction k as [|k IH]; intros Hk.
  - reflexivity.
  - rewrite seq_S, fold_left_app, IH by lia. cbn [fold_left plus].
    rewrite raw_weights_S, vec_sum_app.
    pose proof (raw_weights_length (LandConstF.u sys) x k) as Hlen.
    set (rw := raw_weights (LandConstF.u sys) x k) in *.
    unfold LandConstF.raw_weight_step. cbn [fst snd].
    rewrite (skipn_cons_nth w0 k) by lia.
    rewrite (vec_set_at rw _ _ _ k Hlen), (nth_at rw _ _ k Hlen).
    rewrite <- app_assoc. cbn [app vec_sum fold_right].
    f_equal. lra.
Qed.

(** [make_weights] overwrites every entry of the vector it is given: its
    result depends on the state only. *)
Lemma make_weights_closed_form :
  forall (sys : LandConstF.LandConstFSystemFunction) (wts_vec : VecType)
         (x : MatType),
    LandConstF.make_weights sys wts_vec x
    = map (fun w => w / (LandConstF.X sys
                         + vec_sum (raw_weights (LandConstF.u sys) x
                                                (LandConstF.n_plants sys))))
          (raw_weights (LandConstF.u sys) x (LandConstF.n_plants sys)).
Proof.
  intros sys wts_vec x. unfold LandConstF.make_weights.
  set (w0 := if Nat.eqb _ _ then _ else _).
  assert (Hw0 : length w0 = LandConstF.n_plants sys).
  { unfold w0. destruct (Nat.eqb_spec (length wts_vec) (LandConstF.n_plants sys)).
    - assumption.
    - apply vec_resize_length. }
  rewrite raw_weight_loop by lia. cbn [fst snd].
  rewrite <- Hw0 at 2. rewrite skipn_all, app_nil_r. reflexivity.
Qed.

Lemma raw_weights_of_rows :
  forall (u : double) (x : MatType),
    raw_weights u x (length x) = map (fun row => Std.pow (1 - snd row) u) x.
Proof.
  intros u x. unfold raw_weights.
  apply nth_ext with (d := 0) (d' := 0).
  - now rewrite !length_map, length_seq.
  - intros i Hi. rewrite length_map, length_seq in Hi.
    rewrite nth_map_seq by exact Hi.
    rewrite (nth_indep _ 0 (Std.pow (1 - snd (0, 0)) u))
      by (now rewrite length_map).
    rewrite (map_nth (fun row => Std.pow (1 - snd row) u) x (0, 0) i).
    reflexivity.
Qed.

Lemma raw_weight_sum_of_rows :
  forall (u : double) (x : MatType),
    vec_sum (raw_weights u x (length x)) = Spec.raw_weight_sum u x.
Proof.
  intros u x. rewrite raw_weights_of_rows.
  induction x as [|row x IH]; simpl; [reflexivity | now rewrite IH].
Qed.

Lemma make_weights_length :
  forall sys wts_vec x,
    length (LandConstF.make_weights sys wts_vec x) = LandConstF.n_plants sys.
Proof.
  intros. rewrite make_weights_closed_form. unfold raw_weights.
  now rewrite !length_map, length_seq.
Qed.

(** Every entry of the result of [make_weights] is the spec's allocation
    weight of the state it was given. *)
Lemma make_weights_nth :
  forall sys wts_vec x i,
    length x = LandConstF.n_plants sys ->
    (i < LandConstF.n_plants sys)%nat ->
    nth i (LandConstF.make_weights sys wts_vec x) 0
    = Spec.allocation_weight (LandConstF.u sys) (LandConstF.X sys) x i.
Proof.
  intros sys wts_vec x i Hx Hi. rewrite make_weights_closed_form.
  unfold Spec.allocation_weight. rewrite <- raw_weight_sum_of_rows, Hx.
  set (c := LandConstF.X sys + _).
  rewrite (nth_indep _ 0 (0 / c))
    by (unfold raw_weights; now rewrite !length_map, length_seq).
  rewrite (map_nth (fun w => w / c)). unfold raw_weights.
  rewrite nth_map_seq by exact Hi. reflexivity.
Qed.

(** C3.  At every invocation of the landscape dynamics function the
    allocation weights are recomputed from the state matrix passed to it:
    whatever the member [weights] held before the call has no influence on
    the call, and afterwards it holds, for every plant i,
    P_i = (1 - B_i)^u / (X + sum_j (1 - B_j)^u) of that state; the same
    P_i is the one the derivative of plant i is computed from. *)
Theorem call_recomputes_weights :
  forall (sys : LandConstF.LandConstFSystemFunction) (stale : VecType)
         (x : MatType) (t : double),
    length x = LandConstF.n_plants sys ->
    LandConstF.call (LandConstF.set_weights sys stale) x t
    = LandConstF.call sys x t
    /\ length (LandConstF.weights (fst (LandConstF.call sys x t)))
       = LandConstF.n_plants sys
    /\ forall i : nat,
        (i < LandConstF.n_plants sys)%nat ->
        nth i (LandConstF.weights (fst (LandConstF.call sys x t))) 0
        = Spec.allocation_weight (LandConstF.u sys) (LandConstF.X sys) x i
        /\ nth i (snd (LandConstF.call sys x t)) (0, 0)
           = LandConstF.one_plant
               (LandConstF.set_weights sys
                  (map (Spec.allocation_weight (LandConstF.u sys)
                                               (LandConstF.X sys) x)
                       (seq 0 (LandConstF.n_plants sys))))
               i x t.
Proof.
  intros sys stale x t Hx. unfold LandConstF.call.
  cbn [fst snd LandConstF.weights LandConstF.set_weights LandConstF.n_plants].
  split; [| split].
  - unfold LandConstF.set_weights at 1 2 3 4.
    unfold LandConstF.set_weights at 2 3.
    rewrite !make_weights_closed_form.
    reflexivity.
  - apply make_weights_length.
  - intros i Hi. split.
    + apply make_weights_nth; assumption.
    + rewrite nth_map_seq by exact Hi.
      unfold LandConstF.one_plant.
      cbn [LandConstF.set_weights LandConstF.weights LandConstF.L_0
           LandConstF.g_yp LandConstF.g_b0 LandConstF.g_bp LandConstF.d_yp
           LandConstF.d_b0 LandConstF.d_bp LandConstF.m].
      rewrite make_weights_nth by assumption.
      rewrite nth_map_seq by exact Hi. reflexivity.
Qed.

Lemma call_recomputes_weights_witness :
  let sys := LandConstF.make [1/10; 1/10] [1/5; 1/5] [1/20; 1/20] [1/10; 1/10]
                             [3/10; 3/10] [1/20; 1/20] [1/10; 1/10] [1; 1] 1 1 in
  let x := [(1/2, 1/10); (1/2, 1/10)] in
  LandConstF.call (LandConstF.set_weights sys [7; 7; 7]) x 0
  = LandConstF.call sys x 0
  /\ length (LandConstF.weights (fst (LandConstF.call sys x 0)))
     = LandConstF.n_plants sys
  /\ forall i : nat,
      (i < LandConstF.n_plants sys)%nat ->
      nth i (LandConstF.weights (fst (LandConstF.call sys x 0))) 0
      = Spec.allocation_weight (LandConstF.u sys) (LandConstF.X sys) x i
      /\ nth i (snd (LandConstF.call sys x 0)) (0, 0)
         = LandConstF.one_plant
             (LandConstF.set_weights sys
                (map (Spec.allocation_weight (LandConstF.u sys)
                                             (LandConstF.X sys) x)
                     (seq 0 (LandConstF.n_plants sys))))
             i x 0.
Proof.
  intros sys x.
  apply (call_recomputes_weights sys [7; 7; 7] x 0).
  reflexivity.
Defined.

(** The allocation weights add up to W / (X + W), W the sum of the raw
    weights. *)
Lemma make_weights_sum :
  forall sys wts_vec x,
    vec_sum (LandConstF.make_weights sys wts_vec x)
    = vec_sum (raw_weights (LandConstF.u sys) x (LandConstF.n_plants sys))
      / (LandConstF.X sys
         + vec_sum (raw_weights (LandConstF.u sys) x (LandConstF.n_plants sys))).
Proof.
  intros. rewrite make_weights_closed_form. apply vec_sum_map_div.
Qed.

Lemma raw_weight_sum_nonneg :
  forall (u : double) (x : MatType),
    (forall row, In row x -> 0 <= snd row <= 1) ->
    0 <= Spec.raw_weight_sum u x.
Proof.
  intros u x. induction x as [|row x IH]; intros Hx; simpl.
  - lra.
  - assert (0 <= Std.pow (1 - snd row) u).
    { apply pow_nonneg. specialize (Hx row (or_introl eq_refl)). lra. }
    assert (0 <= Spec.raw_weight_sum u x).
    { apply IH. intros r Hr. apply Hx. now right. }
    lra.
Qed.

(** A plant whose flowers are all visited (B = 1) gets weight 0 when u = 1:
    the weights are not all positive. *)
Lemma weight_zero_when_all_visited :
  let sys := LandConstF.make [1/10] [1/5] [1/20] [1/10] [3/10] [1/20] [1/10]
                             [1] 1 1 in
  let x := [(0, 1)] in
  0 < LandConstF.X sys
  /\ (forall row, In row x -> 0 <= snd row <= 1)
  /\ length x = LandConstF.n_plants sys
  /\ ~ (forall i, (i < LandConstF.n_plants sys)%nat ->
                  0 < nth i (LandConstF.make_weights sys (LandConstF.weights sys) x) 0).
Proof.
  intros sys x. split; [| split; [| split]].
  - simpl. lra.
  - intros row [<- | []]. simpl. lra.
  - reflexivity.
  - intros Hall. specialize (Hall 0%nat (Nat.lt_0_1)).
    rewrite make_weights_nth in Hall by (reflexivity || (simpl; lia)).
    unfold Spec.allocation_weight, Spec.raw_weight_sum in Hall.
    cbn [sys x LandConstF.make LandConstF.u LandConstF.X mat_get nth snd
         fold_right] in Hall.
    replace (1 - 1) with 0 in Hall by lra.
    rewrite pow_zero_base in Hall by lra.
    lra.
Qed.

(** C4 (amended).  For every landscape state with X > 0 and every B_i in
    [0, 1], with u >= 0 when some B_i = 1: the weights add up to strictly
    less than 1, no weight is negative, and P_i > 0 for every plant with
    B_i < 1. *)
Theorem weights_sum_below_one :
  forall (sys : LandConstF.LandConstFSystemFunction) (wts_vec : VecType)
         (x : MatType),
    length x = LandConstF.n_plants sys ->
    0 < LandConstF.X sys ->
    (forall row, In row x -> 0 <= snd row <= 1) ->
    (0 <= LandConstF.u sys \/ forall row, In row x -> snd row < 1) ->
    vec_sum (LandConstF.make_weights sys wts_vec x) < 1
    /\ forall i : nat,
        (i < LandConstF.n_plants sys)%nat ->
        0 <= nth i (LandConstF.make_weights sys wts_vec x) 0
        /\ (mat_get x i 1 < 1 ->
            0 < nth i (LandConstF.make_weights sys wts_vec x) 0).
Proof.
  intros sys wts_vec x Hx HX HB _.
  pose proof (raw_weight_sum_nonneg (LandConstF.u sys) x HB) as HW.
  split.
  - rewrite make_weights_sum, <- Hx, raw_weight_sum_of_rows.
    apply Rmult_lt_reg_r with (r := LandConstF.X sys + Spec.raw_weight_sum (LandConstF.u sys) x);
      [lra |].
    unfold Rdiv. rewrite Rmult_assoc, Rinv_l by lra. lra.
  - intros i Hi. rewrite make_weights_nth by assumption.
    unfold Spec.allocation_weight.
    assert (Hrow : 0 <= mat_get x i 1 <= 1).
    { unfold mat_get. apply HB. apply nth_In. lia. }
    assert (Hden : 0 < / (LandConstF.X sys + Spec.raw_weight_sum (LandConstF.u sys) x))
      by (apply Rinv_0_lt_compat; lra).
    split.
    + apply Rmult_le_pos; [apply pow_nonneg; lra | lra].
    + intros Hlt. apply Rmult_lt_0_compat; [apply pow_positive; lra | exact Hden].
Qed.

Lemma weights_sum_below_one_witness :
  let sys := LandConstF.make [1/10; 1/10] [1/5; 1/5] [1/20; 1/20] [1/10; 1/10]
                             [3/10; 3/10] [1/20; 1/20] [1/10; 1/10] [1; 1] 1 1 in
  let x := [(1/2, 1/10); (0, 1)] in
  vec_sum (LandConstF.make_weights sys [] x) < 1
  /\ forall i : nat,
      (i < LandConstF.n_plants sys)%nat ->
      0 <= nth i (LandConstF.make_weights sys [] x) 0
      /\ (mat_get x i 1 < 1 -> 0 < nth i (LandConstF.make_weights sys [] x) 0).
Proof.
  intros sys x.
  apply (weights_sum_below_one sys [] x).
  - reflexivity.
  - simpl. lra.
  - intros row [<- | [<- | []]]; simpl; lra.
  - left. simpl. lra.
Defined.

(** ** The landscape dynamics function *)

(** C10.  At every state in which plant i has Y_i + B_i = 1 (so the implicit
    N_i is 0), the derivative written for that plant is
    dY_i/dt = - m_i Y_i and dB_i/dt = - m_i B_i; their sum is
    - m_i (Y_i + B_i) = - m_i, so for m_i >= 0 the vector field does not
    increase Y_i + B_i there. *)
Theorem boundary_derivative :
  forall (sys : LandConstF.LandConstFSystemFunction) (x : MatType)
         (t : double) (i : nat),
    (i < LandConstF.n_plants sys)%nat ->
    mat_get x i 0 + mat_get x i 1 = 1 ->
    let dxdt := snd (LandConstF.call sys x t) in
    let m_i := nth i (LandConstF.m sys) 0 in
    mat_get dxdt i 0 = - m_i * mat_get x i 0
    /\ mat_get dxdt i 1 = - m_i * mat_get x i 1
    /\ mat_get dxdt i 0 + mat_get dxdt i 1 = - m_i * (mat_get x i 0 + mat_get x i 1)
    /\ mat_get dxdt i 0 + mat_get dxdt i 1 = - m_i
    /\ (0 <= m_i -> mat_get dxdt i 0 + mat_get dxdt i 1 <= 0).
Proof.
  intros sys x t i Hi HYB dxdt m_i.
  assert (HN : 1 - mat_get x i 0 - mat_get x i 1 = 0) by lra.
  assert (Hrow : nth i dxdt (0, 0)
                 = LandConstF.one_plant (fst (LandConstF.call sys x t)) i x t).
  { unfold dxdt, LandConstF.call. cbn [fst snd].
    rewrite nth_map_seq; [reflexivity | exact Hi]. }
  assert (HdY : mat_get dxdt i 0 = - m_i * mat_get x i 0).
  { unfold mat_get at 1. rewrite Hrow. unfold LandConstF.one_plant.
    cbn [fst]. rewrite HN. unfold m_i, LandConstF.call. cbn [fst LandConstF.m LandConstF.set_weights].
    ring. }
  assert (HdB : mat_get dxdt i 1 = - m_i * mat_get x i 1).
  { unfold mat_get at 1. rewrite Hrow. unfold LandConstF.one_plant.
    cbn [snd]. rewrite HN. unfold m_i, LandConstF.call. cbn [fst LandConstF.m LandConstF.set_weights].
    ring. }
  rewrite HdY, HdB. repeat split; try lra.
  - rewrite <- Rmult_plus_distr_l, HYB. ring.
  - intros Hm. rewrite <- Rmult_plus_distr_l, HYB. lra.
Qed.

Lemma boundary_derivative_witness :
  let sys := LandConstF.make [1/10; 1/10] [1/5; 1/5] [1/20; 1/20] [1/10; 1/10]
                             [3/10; 3/10] [1/20; 1/20] [1/10; 1/10] [1; 1] 1 1 in
  let x := [(3/4, 1/4); (1/2, 1/10)] in
  let dxdt := snd (LandConstF.call sys x 0) in
  let m_i := nth 0 (LandConstF.m sys) 0 in
  mat_get dxdt 0 0 = - m_i * mat_get x 0 0
  /\ mat_get dxdt 0 1 = - m_i * mat_get x 0 1
  /\ mat_get dxdt 0 0 + mat_get dxdt 0 1 = - m_i * (mat_get x 0 0 + mat_get x 0 1)
  /\ mat_get dxdt 0 0 + mat_get dxdt 0 1 = - m_i
  /\ (0 <= m_i -> mat_get dxdt 0 0 + mat_get dxdt 0 1 <= 0).
Proof.
  intros sys x.
  apply (boundary_derivative sys x 0 0%nat).
  - simpl. lia.
  - simpl. lra.
Defined.

(** ** Rounding to the nearest double

    [Binary64.round] leaves the doubles unchanged ([round_double]), returns
    a double ([round_format], [round_is_double]), and moves an integer
    multiple of 2^-1074 by at most the fraction 2^-53 of its size
    ([round_error]); [round_eval] computes it at a given value. *)

Lemma pow2_pos : forall e : Z, 0 < powerRZ 2 e.
Proof.
  intros e. apply powerRZ_lt. lra.
Qed.

Lemma pow2_add : forall a b : Z, powerRZ 2 (a + b) = powerRZ 2 a * powerRZ 2 b.
Proof.
  intros a b. apply powerRZ_add. lra.
Qed.

Lemma pow2_nonneg_IZR :
  forall k : Z, (0 <= k)%Z -> powerRZ 2 k = IZR (2 ^ k).
Proof.
  intros k Hk. rewrite <- (Z2Nat.id k Hk) at 1.
  rewrite <- pow_powerRZ. rewrite <- (Z2Nat.id k Hk) at 2.
  rewrite <- Zpower_nat_Z.
  induction (Z.to_nat k) as [|n IH].
  - reflexivity.
  - rewrite Zpower_nat_succ_r, mult_IZR, <- IH. simpl. reflexivity.
Qed.

Lemma pow2_ge_1 : forall k : Z, (0 <= k)%Z -> 1 <= powerRZ 2 k.
Proof.
  intros k Hk. rewrite pow2_nonneg_IZR by exact Hk.
  apply IZR_le. pose proof (Z.pow_pos_nonneg 2 k ltac:(lia) Hk). lia.
Qed.

Lemma pow2_le : forall a b : Z, (a <= b)%Z -> powerRZ 2 a <= powerRZ 2 b.
Proof.
  intros a b H. replace b with (a + (b - a))%Z by lia. rewrite pow2_add.
  pose proof (pow2_pos a). pose proof (pow2_ge_1 (b - a) ltac:(lia)). nra.
Qed.

Lemma pow2_lt_inv : forall a b : Z, powerRZ 2 a < powerRZ 2 b -> (a < b)%Z.
Proof.
  intros a b H. destruct (Z_lt_le_dec a b) as [Hlt | Hle]; [exact Hlt |].
  pose proof (pow2_le b a Hle). lra.
Qed.

Lemma ln2_pos : 0 < ln 2.
Proof.
  pose proof ln_lt_2. lra.
Qed.

Lemma ln_pow2 : forall e : Z, ln (powerRZ 2 e) = IZR e * ln 2.
Proof.
  intros e. rewrite powerRZ_Rpower by lra. apply ln_Rpower.
Qed.

(** The magnitude brackets |x| between two consecutive powers of 2. *)
Lemma mag_spec :
  forall x : R, x <> 0 ->
    powerRZ 2 (Binary64.mag x - 1) <= Rabs x < powerRZ 2 (Binary64.mag x).
Proof.
  intros x Hx. unfold Binary64.mag.
  assert (Ha : 0 < Rabs x) by (apply Rabs_pos_lt; exact Hx).
  set (a := Rabs x) in *. set (L := ln a / ln 2).
  destruct (archimed L) as [Hup Hlo]. set (m := up L) in *.
  pose proof ln2_pos as H2.
  assert (HL : L * ln 2 = ln a) by (unfold L; field; lra).
  split.
  - destruct (Rle_lt_dec (powerRZ 2 (m - 1)) a) as [H | H]; [exact H |].
    apply ln_increasing in H; [| exact Ha].
    rewrite ln_pow2, minus_IZR in H. nra.
  - apply ln_lt_inv; [exact Ha | apply pow2_pos |].
    rewrite ln_pow2. nra.
Qed.

Lemma mag_unique :
  forall (x : R) (e : Z),
    powerRZ 2 (e - 1) <= Rabs x < powerRZ 2 e -> Binary64.mag x = e.
Proof.
  intros x e [Hlo Hhi].
  assert (Hx : x <> 0).
  { intros ->. rewrite Rabs_R0 in Hlo. pose proof (pow2_pos (e - 1)). lra. }
  destruct (mag_spec x Hx) as [Mlo Mhi].
  assert (H1 : (Binary64.mag x - 1 < e)%Z) by (apply pow2_lt_inv; lra).
  assert (H2 : (e - 1 < Binary64.mag x)%Z) by (apply pow2_lt_inv; lra).
  lia.
Qed.

Lemma Int_part_IZR : forall z : Z, Int_part (IZR z) = z.
Proof.
  intros z. symmetry. apply Int_part_spec. lra.
Qed.

Lemma nearest_even_IZR : forall z : Z, Binary64.nearest_even (IZR z) = z.
Proof.
  intros z. unfold Binary64.nearest_even. rewrite Int_part_IZR.
  destruct (Rlt_dec (IZR z - IZR z) (1 / 2)) as [_ | H]; [reflexivity | lra].
Qed.

(** The nearest integer is within 1/2. *)
Lemma nearest_even_error :
  forall r : R, Rabs (IZR (Binary64.nearest_even r) - r) <= 1 / 2.
Proof.
  intros r. unfold Binary64.nearest_even.
  destruct (base_Int_part r) as [Hlo Hhi]. set (f := Int_part r) in *.
  destruct (Rlt_dec (r - IZR f) (1 / 2)) as [H1 | H1].
  - apply Rabs_le. lra.
  - destruct (Rlt_dec (1 / 2) (r - IZR f)) as [H2 | H2].
    + rewrite plus_IZR. apply Rabs_le. lra.
    + destruct (Z.even f); [| rewrite plus_IZR]; apply Rabs_le; lra.
Qed.

Lemma nearest_even_eval :
  forall (r : R) (m : Z),
    Rabs (r - IZR m) < 1 / 2 -> Binary64.nearest_even r = m.
Proof.
  intros r m H. apply Rabs_def2 in H. destruct H as [Hhi Hlo].
  unfold Binary64.nearest_even.
  destruct (Rle_lt_dec (IZR m) r) as [Hle | Hlt].
  - assert (Hf : m = Int_part r) by (apply Int_part_spec; lra).
    rewrite <- Hf.
    destruct (Rlt_dec (r - IZR m) (1 / 2)) as [_ | Hn]; [reflexivity | lra].
  - assert (Hf : (m - 1)%Z = Int_part r)
      by (apply Int_part_spec; rewrite minus_IZR; lra).
    rewrite <- Hf. rewrite minus_IZR.
    destruct (Rlt_dec (r - (IZR m - 1)) (1 / 2)) as [Hn | _]; [lra |].
    destruct (Rlt_dec (1 / 2) (r - (IZR m - 1))) as [_ | Hn]; [lia | lra].
Qed.

Lemma round_0 : Binary64.round 0 = 0.
Proof.
  unfold Binary64.round. unfold Rdiv. rewrite Rmult_0_l.
  rewrite (nearest_even_IZR 0). ring.
Qed.

Lemma ulp_exponent_ge_emin :
  forall x : R, (Binary64.emin <= Binary64.ulp_exponent x)%Z.
Proof.
  intros x. unfold Binary64.ulp_exponent. lia.
Qed.

(** The value m 2^e, seen with a smaller exponent, is still an integer
    multiple. *)
Lemma rescale :
  forall (m e e' : Z), (e' <= e)%Z ->
    IZR m * powerRZ 2 e / powerRZ 2 e' = IZR (m * 2 ^ (e - e')).
Proof.
  intros m e e' H. rewrite mult_IZR, <- pow2_nonneg_IZR by lia.
  replace e with ((e - e') + e')%Z at 1 by lia. rewrite pow2_add.
  field. pose proof (pow2_pos e'). lra.
Qed.

Lemma round_multiple :
  forall (m e : Z), (Binary64.ulp_exponent (IZR m * powerRZ 2 e) <= e)%Z ->
    Binary64.round (IZR m * powerRZ 2 e) = IZR m * powerRZ 2 e.
Proof.
  intros m e H. unfold Binary64.round.
  set (e' := Binary64.ulp_exponent (IZR m * powerRZ 2 e)) in *.
  rewrite (rescale m e e' H), nearest_even_IZR, <- (rescale m e e' H).
  field. pose proof (pow2_pos e'). lra.
Qed.

Lemma Rabs_pow2 : forall e : Z, Rabs (powerRZ 2 e) = powerRZ 2 e.
Proof.
  intros e. apply Rabs_pos_eq. left. apply pow2_pos.
Qed.

(** Rounding leaves m 2^e with |m| < 2^53 and e >= -1074 unchanged. *)
Lemma round_id_strict :
  forall (m e : Z), (Binary64.emin <= e)%Z -> (Z.abs m < 2 ^ 53)%Z ->
    Binary64.round (IZR m * powerRZ 2 e) = IZR m * powerRZ 2 e.
Proof.
  intros m e He Hm.
  destruct (Z.eq_dec m 0) as [-> | Hm0].
  { rewrite Rmult_0_l. apply round_0. }
  apply round_multiple. unfold Binary64.ulp_exponent.
  set (y := IZR m * powerRZ 2 e).
  assert (Hy : y <> 0).
  { unfold y. apply Rmult_integral_contrapositive_currified.
    - apply not_0_IZR. exact Hm0.
    - pose proof (pow2_pos e). lra. }
  destruct (mag_spec y Hy) as [Mlo _].
  assert (Hlt : Rabs y < powerRZ 2 (53 + e)).
  { unfold y. rewrite Rabs_mult, Rabs_pow2, pow2_add.
    apply Rmult_lt_compat_r; [apply pow2_pos |].
    rewrite <- abs_IZR. rewrite pow2_nonneg_IZR by lia. apply IZR_lt. exact Hm. }
  assert (H : (Binary64.mag y - 1 < 53 + e)%Z) by (apply pow2_lt_inv; lra).
  unfold Binary64.prec. lia.
Qed.

(** A significand of 2^53 in absolute value is 2^52 at the next
    exponent. *)
Lemma halve_significand :
  forall (m e : Z), Z.abs m = (2 ^ 53)%Z ->
    IZR m * powerRZ 2 e = IZR (m / 2) * powerRZ 2 (e + 1)
    /\ (Z.abs (m / 2) < 2 ^ 53)%Z.
Proof.
  intros m e H.
  assert (Hm2 : m = (2 * (m / 2))%Z).
  { destruct (Z.abs_eq_or_opp m) as [E | E]; rewrite E in H.
    - rewrite H. reflexivity.
    - assert (m = - 2 ^ 53)%Z by lia. subst m. reflexivity. }
  split.
  - rewrite Hm2 at 1. rewrite mult_IZR, pow2_add.
    change (powerRZ 2 1) with (2 * 1). ring.
  - rewrite Hm2 in H. rewrite Z.abs_mul in H. simpl Z.abs in H. lia.
Qed.

Lemma round_id :
  forall (m e : Z), (Binary64.emin <= e)%Z -> (Z.abs m <= 2 ^ 53)%Z ->
    Binary64.round (IZR m * powerRZ 2 e) = IZR m * powerRZ 2 e.
Proof.
  intros m e He Hm.
  destruct (Z_lt_le_dec (Z.abs m) (2 ^ 53)) as [Hlt | Hge].
  - apply round_id_strict; assumption.
  - destruct (halve_significand m e ltac:(lia)) as [Hval Hhalf].
    rewrite Hval. apply round_id_strict; [lia | exact Hhalf].
Qed.

(** The significand of a rounded value has at most 53 bits, or is 2^53. *)
Lemma round_significand :
  forall x : R,
    (Z.abs (Binary64.nearest_even (x / powerRZ 2 (Binary64.ulp_exponent x)))
     <= 2 ^ 53)%Z.
Proof.
  intros x.
  set (e := Binary64.ulp_exponent x).
  set (s := x / powerRZ 2 e).
  assert (Hs : Rabs s < powerRZ 2 53).
  { unfold s. destruct (Req_dec x 0) as [-> | Hx].
    - unfold Rdiv. rewrite Rmult_0_l, Rabs_R0. apply pow2_pos.
    - destruct (mag_spec x Hx) as [_ Mhi].
      unfold Rdiv. rewrite Rabs_mult, Rabs_inv, Rabs_pow2.
      apply Rmult_lt_reg_r with (r := powerRZ 2 e); [apply pow2_pos |].
      rewrite Rmult_assoc, Rinv_l by (pose proof (pow2_pos e); lra).
      rewrite Rmult_1_r, <- pow2_add.
      apply Rlt_le_trans with (1 := Mhi). apply pow2_le.
      unfold e, Binary64.ulp_exponent, Binary64.prec. lia. }
  pose proof (nearest_even_error s) as Herr.
  rewrite pow2_nonneg_IZR in Hs by lia.
  assert (Hn : Rabs (IZR (Binary64.nearest_even s)) < IZR (2 ^ 53) + 1).
  { replace (IZR (Binary64.nearest_even s))
      with ((IZR (Binary64.nearest_even s) - s) + s) by ring.
    eapply Rle_lt_trans; [apply Rabs_triang |]. lra. }
  rewrite <- abs_IZR, <- plus_IZR in Hn. apply lt_IZR in Hn. lia.
Qed.

Lemma round_format :
  forall x : R,
    exists (n e : Z),
      Binary64.round x = IZR n * powerRZ 2 e
      /\ (Z.abs n <= 2 ^ 53)%Z /\ (Binary64.emin <= e)%Z.
Proof.
  intros x.
  exists (Binary64.nearest_even (x / powerRZ 2 (Binary64.ulp_exponent x))),
         (Binary64.ulp_exponent x).
  split; [reflexivity |].
  split; [apply round_significand | apply ulp_exponent_ge_emin].
Qed.

(** Rounding a value below 2^1023 gives a finite double. *)
Lemma round_is_double :
  forall x : R,
    Rabs x < powerRZ 2 1023 -> Binary64.is_double (Binary64.round x).
Proof.
  intros x Hx.
  destruct (Req_dec x 0) as [-> | Hx0].
  { rewrite round_0. exists 0%Z, 0%Z. split; [ring |].
    split; [reflexivity | unfold Binary64.emin; lia]. }
  pose proof (round_significand x) as Hn.
  pose proof (ulp_exponent_ge_emin x) as He.
  assert (Hmag : (Binary64.mag x <= 1023)%Z).
  { destruct (mag_spec x Hx0) as [Mlo _].
    assert ((Binary64.mag x - 1 < 1023)%Z) by (apply pow2_lt_inv; lra).
    lia. }
  assert (He' : (Binary64.ulp_exponent x <= 970)%Z)
    by (unfold Binary64.ulp_exponent, Binary64.prec, Binary64.emin; lia).
  unfold Binary64.round.
  set (e := Binary64.ulp_exponent x) in *.
  set (n := Binary64.nearest_even (x / powerRZ 2 e)) in *.
  destruct (Z_lt_le_dec (Z.abs n) (2 ^ 53)) as [Hlt | Hge].
  - exists n, e. split; [reflexivity |]. split; [exact Hlt | lia].
  - destruct (halve_significand n e ltac:(lia)) as [Hval Hhalf].
    exists (n / 2)%Z, (e + 1)%Z. split; [exact Hval |].
    split; [exact Hhalf | lia].
Qed.

(** Rounding twice is rounding once. *)
Lemma round_round :
  forall x : R, Binary64.round (Binary64.round x) = Binary64.round x.
Proof.
  intros x. destruct (round_format x) as [n [e [-> [Hn He]]]].
  apply round_id; assumption.
Qed.


Lemma on_grid_multiple :
  forall (m e : Z), (Binary64.emin <= e)%Z ->
    Binary64.on_grid (IZR m * powerRZ 2 e).
Proof.
  intros m e He. exists (m * 2 ^ (e - Binary64.emin))%Z.
  rewrite <- (rescale m e Binary64.emin He). field.
  pose proof (pow2_pos Binary64.emin). lra.
Qed.

Lemma double_on_grid :
  forall x : R, Binary64.is_double x -> Binary64.on_grid x.
Proof.
  intros x [m [e [-> [_ [He _]]]]]. apply on_grid_multiple. exact He.
Qed.

Lemma round_on_grid : forall x : R, Binary64.on_grid (Binary64.round x).
Proof.
  intros x. destruct (round_format x) as [n [e [-> [_ He]]]].
  apply on_grid_multiple. exact He.
Qed.

Lemma on_grid_plus :
  forall x y, Binary64.on_grid x -> Binary64.on_grid y ->
              Binary64.on_grid (x + y).
Proof.
  intros x y [a ->] [b ->]. exists (a + b)%Z. rewrite plus_IZR. ring.
Qed.

Lemma on_grid_minus :
  forall x y, Binary64.on_grid x -> Binary64.on_grid y ->
              Binary64.on_grid (x - y).
Proof.
  intros x y [a ->] [b ->]. exists (a - b)%Z. rewrite minus_IZR. ring.
Qed.

Lemma on_grid_INR_mult :
  forall (k : nat) x, Binary64.on_grid x -> Binary64.on_grid (INR k * x).
Proof.
  intros k x [a ->]. exists (Z.of_nat k * a)%Z.
  rewrite mult_IZR, <- INR_IZR_INZ. ring.
Qed.

(** The relative error of rounding a multiple of 2^emin is at most 2^-53. *)
Lemma round_error :
  forall x : R, Binary64.on_grid x ->
    Rabs (Binary64.round x - x) <= Binary64.unit_roundoff * Rabs x.
Proof.
  intros x Hg.
  destruct (Req_dec x 0) as [-> | Hx].
  { rewrite round_0, Rminus_diag, Rabs_R0. lra. }
  destruct (Z_le_gt_dec (Binary64.mag x - Binary64.prec) Binary64.emin)
    as [Hsub | Hnorm].
  - (* subnormal range: x is representable *)
    destruct Hg as [z ->].
    rewrite round_multiple.
    + rewrite Rminus_diag, Rabs_R0.
      apply Rmult_le_pos; [left; apply pow2_pos | apply Rabs_pos].
    + unfold Binary64.ulp_exponent. lia.
  - unfold Binary64.round.
    assert (He : Binary64.ulp_exponent x = (Binary64.mag x - 53)%Z)
      by (unfold Binary64.ulp_exponent, Binary64.prec in *; lia).
    rewrite He. set (e := (Binary64.mag x - 53)%Z).
    set (s := x / powerRZ 2 e).
    pose proof (nearest_even_error s) as Herr.
    pose proof (pow2_pos e) as Hpe.
    assert (Hxs : x = s * powerRZ 2 e) by (unfold s; field; lra).
    replace (IZR (Binary64.nearest_even s) * powerRZ 2 e - x)
      with ((IZR (Binary64.nearest_even s) - s) * powerRZ 2 e)
      by (unfold s; field; lra).
    rewrite Rabs_mult, Rabs_pow2.
    destruct (mag_spec x Hx) as [Mlo _].
    replace (Binary64.mag x - 1)%Z with (e + 1 + 51)%Z in Mlo by (unfold e; lia).
    unfold Binary64.unit_roundoff.
    assert (Hu : powerRZ 2 (-53) * powerRZ 2 (e + 1 + 51)
                 = 1 / 2 * powerRZ 2 e).
    { rewrite <- pow2_add. replace (-53 + (e + 1 + 51))%Z with (e + -1)%Z by lia.
      rewrite pow2_add. change (powerRZ 2 (-1)) with (/ (2 * 1)). lra. }
    pose proof (pow2_pos (-53)) as Hu0.
    pose proof (Rabs_pos (IZR (Binary64.nearest_even s) - s)).
    nra.
Qed.

Lemma ulp_exponent_eval :
  forall (x : R) (e : Z),
    (Binary64.emin <= e)%Z ->
    powerRZ 2 (e + 52) <= Rabs x < powerRZ 2 (e + 53) ->
    Binary64.ulp_exponent x = e.
Proof.
  intros x e He Hx.
  assert (Hmag : Binary64.mag x = (e + 53)%Z).
  { apply mag_unique. replace (e + 53 - 1)%Z with (e + 52)%Z by lia. exact Hx. }
  unfold Binary64.ulp_exponent, Binary64.prec. lia.
Qed.

(** The rounding of a value whose size and nearest multiple of the unit in
    the last place are known. *)
Lemma round_eval :
  forall (x : R) (e m : Z),
    (Binary64.emin <= e)%Z ->
    powerRZ 2 (e + 52) <= Rabs x < powerRZ 2 (e + 53) ->
    Rabs (x / powerRZ 2 e - IZR m) < 1 / 2 ->
    Binary64.round x = IZR m * powerRZ 2 e.
Proof.
  intros x e m He Hx Hm. unfold Binary64.round.
  rewrite (ulp_exponent_eval x e He Hx), (nearest_even_eval _ m Hm).
  reflexivity.
Qed.

(** Powers of 2 with a literal exponent, as rational constants. *)
Lemma pow2_Zneg :
  forall p : positive, powerRZ 2 (Z.neg p) = / IZR (2 ^ Z.pos p).
Proof.
  intros p. change (Z.neg p) with (- Z.pos p)%Z.
  rewrite powerRZ_neg', pow2_nonneg_IZR by lia. reflexivity.
Qed.

Lemma pow2_Zpos :
  forall p : positive, powerRZ 2 (Z.pos p) = IZR (2 ^ Z.pos p).
Proof.
  intros p. apply pow2_nonneg_IZR. lia.
Qed.

(** Replaces the powers of 2 with literal exponents in the goal by their
    values. *)
Ltac pow2_const :=
  repeat match goal with
  | |- context [powerRZ 2 (?a + ?b)] =>
      let v := eval vm_compute in (a + b)%Z in
      change (a + b)%Z with v
  | |- context [powerRZ 2 0] => change (powerRZ 2 0) with 1
  | |- context [powerRZ 2 (Z.neg ?p)] =>
      rewrite (pow2_Zneg p);
      let v := eval vm_compute in (2 ^ Z.pos p)%Z in
      change (2 ^ Z.pos p)%Z with v
  | |- context [powerRZ 2 (Z.pos ?p)] =>
      rewrite (pow2_Zpos p);
      let v := eval vm_compute in (2 ^ Z.pos p)%Z in
      change (2 ^ Z.pos p)%Z with v
  end.

(** ** The integration loop *)

Section IntegratorFacts.

Context {rd : Rounding} {St : Type} {SA : StateAlgebra St} {Sys Ob : Type}.
Variable system : Sys -> St -> double -> Sys * St.
Variable observer : Ob -> St -> double -> Ob.
Variable tab : Tableau.
Variables start_time end_time dt : double.

(** If the loop test holds for the next n steps and fails after them, the
    loop takes exactly those n steps, calls the observer on every pair of
    [records_from] in order, and needs no more than n units of fuel. *)
Lemma integrate_const_loop_runs :
  forall (n fuel : nat) (sys : Sys) (x : St) (step : nat) (obs : Ob),
    (n <= fuel)%nat ->
    (forall k, (step <= k < step + n)%nat ->
               less_eq_with_sign (rnd (time_at start_time dt k + dt))
                                 end_time dt = true) ->
    less_eq_with_sign (rnd (time_at start_time dt (step + n) + dt))
                      end_time dt = false ->
    integrate_const_loop system observer tab start_time end_time dt
                         fuel sys x step obs
    = Some (mkIntegrated
              (fst (steps_from system tab start_time dt n sys x step))
              (snd (steps_from system tab start_time dt n sys x step))
              (feed observer obs
                    (records_from system tab start_time dt n sys x step))
              (step + n)).
Proof.
  induction n as [|n IH]; intros fuel sys x step obs Hfuel Hyes Hno.
  - rewrite Nat.add_0_r in Hno.
    destruct fuel; cbn [integrate_const_loop];
      rewrite Hno; cbn [steps_from records_from feed fold_left fst snd];
      now rewrite Nat.add_0_r.
  - destruct fuel as [|fuel]; [lia |].
    cbn [integrate_const_loop].
    rewrite (Hyes step) by lia.
    cbn [steps_from records_from].
    destruct (do_step system tab sys x (time_at start_time dt step) dt)
      as [sys' x'].
    rewrite IH.
    + cbn [feed fold_left fst snd]. do 2 f_equal. lia.
    + lia.
    + intros k Hk. apply Hyes. lia.
    + replace (S step + n)%nat with (step + S n)%nat by lia. exact Hno.
Qed.

Lemma records_from_length :
  forall n sys x step,
    length (records_from system tab start_time dt n sys x step) = S n.
Proof.
  induction n as [|n IH]; intros; cbn [records_from].
  - reflexivity.
  - destruct (do_step _ _ _ _ _ _) as [sys' x']. cbn [length].
    now rewrite IH.
Qed.

(** The recorded times are the values the loop's [time] takes. *)
Lemma records_from_time_at :
  forall n sys x step,
    map snd (records_from system tab start_time dt n sys x step)
    = map (time_at start_time dt) (seq step (S n)).
Proof.
  induction n as [|n IH]; intros; cbn [records_from].
  - reflexivity.
  - destruct (do_step _ _ _ _ _ _) as [sys' x'].
    cbn [map snd]. rewrite IH. reflexivity.
Qed.

(** The k-th recorded state is the state after k steps: one record per
    step, none dropped, none repeated. *)
Lemma records_from_states :
  forall n sys x step,
    map fst (records_from system tab start_time dt n sys x step)
    = map (fun k => snd (steps_from system tab start_time dt k sys x step))
          (seq 0 (S n)).
Proof.
  induction n as [|n IH]; intros; cbn [records_from].
  - reflexivity.
  - destruct (do_step system tab sys x (time_at start_time dt step) dt)
      as [sys' x'] eqn:Hstep.
    change (seq 0 (S (S n))) with (0%nat :: seq 1 (S n)).
    cbn [map fst]. rewrite IH. f_equal.
    rewrite <- (seq_shift (S n) 0), map_map.
    apply map_ext. intros k. cbn [steps_from]. now rewrite Hstep.
Qed.


End IntegratorFacts.

(** A test either holds below K or fails somewhere below K. *)
Lemma bounded_search :
  forall (test : nat -> bool) (K : nat),
    (forall k, (k < K)%nat -> test k = true)
    \/ (exists k, (k < K)%nat /\ test k = false).
Proof.
  intros test. induction K as [|K [Hall | [k [Hk Hf]]]].
  - left. intros k Hk. lia.
  - destruct (test K) eqn:HK.
    + left. intros k Hk.
      destruct (Nat.eq_dec k K) as [-> | Hne]; [exact HK | apply Hall; lia].
    + right. exists K. split; [lia | exact HK].
  - right. exists k. split; [lia | exact Hf].
Qed.

(** The first index at which a test fails. *)
Lemma first_failure :
  forall (test : nat -> bool) (K : nat),
    test K = false ->
    exists n : nat,
      (n <= K)%nat /\ test n = false
      /\ forall k : nat, (k < n)%nat -> test k = true.
Proof.
  intros test K. induction K as [K IH] using lt_wf_ind. intros HK.
  destruct (bounded_search test K) as [Hall | [k [Hk Hf]]].
  - exists K. split; [lia |]. split; assumption.
  - destruct (IH k Hk Hf) as [n [Hn [Hfn Hbefore]]].
    exists n. split; [lia |]. split; assumption.
Qed.

(** ** The number of steps in exact arithmetic *)

Lemma epsilon_pos : 0 < Std.epsilon.
Proof.
  unfold Std.epsilon. apply Rinv_0_lt_compat. lra.
Qed.

Lemma epsilon_small : Std.epsilon < 1 / 1000.
Proof.
  unfold Std.epsilon.
  apply Rmult_lt_reg_r with (r := 4503599627370496); [lra |].
  rewrite Rinv_l by lra. lra.
Qed.

(** In exact arithmetic the loop's time is start_time + step * dt. *)
Lemma exact_time_at :
  forall (start_time dt : double) (k : nat),
    time_at start_time dt k = start_time + INR k * dt.
Proof.
  intros start_time dt k. destruct k as [|k].
  - cbn [time_at INR]. ring.
  - reflexivity.
Qed.

(** For dt > 0 the loop test at step k says (k + 1) dt <= end - start + eps. *)
Lemma less_eq_with_sign_forward :
  forall (start_time end_time dt : double) (k : nat),
    0 < dt ->
    less_eq_with_sign (rnd (time_at start_time dt k + dt)) end_time dt = true
    <-> INR (S k) * dt <= end_time - start_time + Std.epsilon.
Proof.
  intros start_time end_time dt k Hdt. rewrite exact_time_at.
  unfold less_eq_with_sign. cbn [rnd exact_arithmetic].
  rewrite S_INR.
  destruct (Rlt_dec 0 dt) as [_ | Hn]; [| lra].
  destruct (Rle_dec (start_time + INR k * dt + dt - end_time) Std.epsilon)
    as [Hle | Hgt]; split; intros H; try discriminate; try reflexivity; lra.
Qed.

Lemma step_count_spec :
  forall (start_time end_time dt : double) (k : nat),
    0 < dt ->
    INR (S k) * dt <= end_time - start_time + Std.epsilon
    <-> (k < step_count start_time end_time dt)%nat.
Proof.
  intros start_time end_time dt k Hdt. unfold step_count.
  set (r := (end_time - start_time + Std.epsilon) / dt).
  assert (Hr : INR (S k) * dt <= end_time - start_time + Std.epsilon
               <-> INR (S k) <= r).
  { unfold r. split; intros H.
    - apply Rmult_le_reg_r with (r := dt); [exact Hdt |].
      unfold Rdiv. rewrite Rmult_assoc, Rinv_l by lra. lra.
    - apply Rmult_le_compat_r with (r := dt) in H; [| lra].
      unfold Rdiv in H. rewrite Rmult_assoc, Rinv_l in H by lra. lra. }
  rewrite Hr. destruct (base_Int_part r) as [Hlo Hhi].
  rewrite INR_IZR_INZ. split; intros H.
  - assert (Hlt : IZR (Z.of_nat (S k)) < IZR (Int_part r + 1)).
    { rewrite plus_IZR. lra. }
    apply lt_IZR in Hlt. lia.
  - assert (Hle : (Z.of_nat (S k) <= Int_part r)%Z) by lia.
    apply IZR_le in Hle. lra.
Qed.

Lemma step_count_le_fuel :
  forall (start_time end_time dt : double),
    0 < dt ->
    (step_count start_time end_time dt
     <= integrate_fuel start_time end_time dt)%nat.
Proof.
  intros start_time end_time dt Hdt. unfold step_count, integrate_fuel.
  rewrite (Rabs_pos_eq dt) by lra.
  set (r := (end_time - start_time + Std.epsilon) / dt).
  set (r' := (Rabs (end_time - start_time) + Std.epsilon) / dt).
  assert (Hi : 0 < / dt) by (apply Rinv_0_lt_compat; exact Hdt).
  assert (Hrr : r <= r').
  { unfold r, r'. apply Rmult_le_compat_r.
    - left. exact Hi.
    - pose proof (Rle_abs (end_time - start_time)). lra. }
  assert (Hr0 : 0 <= r').
  { unfold r'. apply Rmult_le_pos; [| left; exact Hi].
    pose proof (Rabs_pos (end_time - start_time)). pose proof epsilon_pos.
    lra. }
  destruct (base_Int_part r) as [Hlo _].
  destruct (archimed (2 * r')) as [Hup _].
  assert (Hlt : IZR (Int_part r) < IZR (up (2 * r'))) by lra.
  apply lt_IZR in Hlt. lia.
Qed.

(** For dt > 0 [integrate_const] terminates in exact arithmetic: it takes
    [step_count] steps and hands the observer the pairs of [records_from],
    in order. *)
Lemma integrate_const_forward :
  forall {St : Type} {SA : StateAlgebra St} {Sys Ob : Type}
         (system : Sys -> St -> double -> Sys * St)
         (observer : Ob -> St -> double -> Ob)
         (tab : Tableau) (sys : Sys) (x : St)
         (start_time end_time dt : double) (obs : Ob),
    0 < dt ->
    let n := step_count start_time end_time dt in
    integrate_const system observer tab sys x start_time end_time dt obs
    = Some (mkIntegrated
              (fst (steps_from system tab start_time dt n sys x 0))
              (snd (steps_from system tab start_time dt n sys x 0))
              (feed observer obs
                    (records_from system tab start_time dt n sys x 0))
              n).
Proof.
  intros St SA Sys Ob system observer tab sys x start_time end_time dt obs
         Hdt n.
  unfold integrate_const.
  rewrite (integrate_const_loop_runs system observer tab start_time end_time
             dt n).
  - reflexivity.
  - apply step_count_le_fuel. exact Hdt.
  - intros k Hk. apply less_eq_with_sign_forward; [exact Hdt |].
    apply step_count_spec; [exact Hdt |]. fold n. lia.
  - cbn [plus].
    destruct (less_eq_with_sign (rnd (time_at start_time dt n + dt))
                                end_time dt)
      eqn:Hc; [| reflexivity].
    apply less_eq_with_sign_forward in Hc; [| exact Hdt].
    apply step_count_spec in Hc; [| exact Hdt]. fold n in Hc. lia.
Qed.

Lemma step_count_eq :
  forall (start_time end_time dt : double) (n : nat),
    0 < dt ->
    INR n * dt <= end_time - start_time + Std.epsilon ->
    end_time - start_time + Std.epsilon < INR (S n) * dt ->
    step_count start_time end_time dt = n.
Proof.
  intros start_time end_time dt n Hdt Hlo Hhi.
  assert (Hge : (n <= step_count start_time end_time dt)%nat).
  { destruct n as [|k]; [lia |].
    apply (step_count_spec start_time end_time dt k Hdt) in Hlo. lia. }
  assert (Hle : ~ (n < step_count start_time end_time dt)%nat).
  { intros Hlt.
    apply (step_count_spec start_time end_time dt n Hdt) in Hlt. lra. }
  lia.
Qed.

(** ** The observers *)

Lemma feed_one_plant_observer :
  forall (records : list (VecType * double)) (obs : OnePlant.OnePlantObserver),
    feed OnePlant.observe obs records
    = OnePlant.mkObserver (OnePlant.data obs ++ map fst records)
                          (OnePlant.time obs ++ map snd records).
Proof.
  unfold feed.
  induction records as [|r records IH]; intros obs; cbn [fold_left map].
  - rewrite !app_nil_r. now destruct obs.
  - rewrite IH. unfold OnePlant.observe.
    cbn [OnePlant.data OnePlant.time]. now rewrite <- !app_assoc.
Qed.

Lemma feed_observer :
  forall {C : Type} (records : list (C * double)) (obs : Observer C),
    feed Observer_call obs records
    = mkObserver (data obs ++ map fst records) (time obs ++ map snd records).
Proof.
  intros C. unfold feed.
  induction records as [|r records IH]; intros obs; cbn [fold_left map].
  - rewrite !app_nil_r. now destruct obs.
  - rewrite IH. unfold Observer_call. cbn [data time].
    now rewrite <- !app_assoc.
Qed.

(** ** The number of steps in the arithmetic of [double] *)

Lemma unit_roundoff_value : Binary64.unit_roundoff = / 9007199254740992.
Proof.
  unfold Binary64.unit_roundoff. pow2_const. reflexivity.
Qed.

Lemma unit_roundoff_epsilon : Binary64.unit_roundoff = Std.epsilon / 2.
Proof.
  rewrite unit_roundoff_value. unfold Std.epsilon. lra.
Qed.

Lemma unit_roundoff_bounds :
  0 < Binary64.unit_roundoff < / 1000000000000000.
Proof.
  rewrite unit_roundoff_value. lra.
Qed.

Lemma Rabs_le_inv : forall x a : R, Rabs x <= a -> - a <= x <= a.
Proof.
  intros x a H. unfold Rabs in H. destruct (Rcase_abs x); lra.
Qed.

(** Rounding moves a value by at most the fraction 2^-53 of its size. *)
Lemma round_near :
  forall x : double,
    Binary64.on_grid x ->
    x - Binary64.unit_roundoff * Rabs x <= Binary64.round x
    <= x + Binary64.unit_roundoff * Rabs x.
Proof.
  intros x Hg. pose proof (round_error x Hg) as H.
  apply Rabs_le_inv in H. lra.
Qed.

Lemma round_bounds :
  forall x : double,
    Binary64.on_grid x -> 0 <= x ->
    x * (1 - Binary64.unit_roundoff) <= Binary64.round x
    <= x * (1 + Binary64.unit_roundoff).
Proof.
  intros x Hg Hx. pose proof (round_near x Hg) as H.
  rewrite (Rabs_pos_eq x Hx) in H. lra.
Qed.

(** With start time 0 the loop's time after k steps is the double nearest
    to k dt. *)
Lemma binary64_time_at :
  forall (dt : double) (k : nat),
    time_at (rd := binary64) 0 dt k = Binary64.round (INR k * dt).
Proof.
  intros dt k. destruct k as [|k].
  - cbn [time_at INR]. now rewrite Rmult_0_l, round_0.
  - cbn [time_at rnd binary64]. rewrite Rplus_0_l. apply round_round.
Qed.

Section Binary64Loop.

Variables dt max_t : double.
Hypothesis dt_pos : 0 < dt.
Hypothesis dt_grid : Binary64.on_grid dt.
Hypothesis max_t_grid : Binary64.on_grid max_t.

Lemma binary64_time_bounds :
  forall k : nat,
    INR k * dt * (1 - Binary64.unit_roundoff)
    <= Binary64.round (INR k * dt)
    <= INR k * dt * (1 + Binary64.unit_roundoff).
Proof.
  intros k. apply round_bounds.
  - apply on_grid_INR_mult. exact dt_grid.
  - apply Rmult_le_pos; [apply pos_INR | lra].
Qed.

Lemma binary64_time_nonneg :
  forall k : nat, 0 <= Binary64.round (INR k * dt).
Proof.
  intros k. destruct (binary64_time_bounds k) as [H _].
  pose proof unit_roundoff_bounds as Hu.
  assert (0 <= INR k * dt) by (apply Rmult_le_pos; [apply pos_INR | lra]).
  nra.
Qed.

(** The loop test after k steps. *)
Lemma binary64_test :
  forall k : nat,
    less_eq_with_sign (rd := binary64)
      (rnd (Rounding := binary64) (time_at (rd := binary64) 0 dt k + dt))
      max_t dt
    = if Rle_dec (Binary64.round
                    (Binary64.round (Binary64.round (INR k * dt) + dt)
                     - max_t)) Std.epsilon
      then true else false.
Proof.
  intros k. unfold less_eq_with_sign. rewrite binary64_time_at.
  cbn [rnd binary64].
  destruct (Rlt_dec 0 dt) as [_ | Hn]; [reflexivity | lra].
Qed.

Lemma binary64_next_bounds :
  forall k : nat,
    INR (S k) * dt * ((1 - Binary64.unit_roundoff) * (1 - Binary64.unit_roundoff))
    <= Binary64.round (Binary64.round (INR k * dt) + dt)
    <= INR (S k) * dt * ((1 + Binary64.unit_roundoff) * (1 + Binary64.unit_roundoff)).
Proof.
  intros k. rewrite S_INR.
  pose proof unit_roundoff_bounds as Hu.
  pose proof (binary64_time_bounds k) as Ht.
  pose proof (binary64_time_nonneg k) as Ht0.
  assert (Hk : 0 <= INR k * dt) by (apply Rmult_le_pos; [apply pos_INR | lra]).
  set (u := Binary64.unit_roundoff) in *.
  set (t := Binary64.round (INR k * dt)) in *.
  set (kd := INR k * dt) in *.
  assert (Hg : Binary64.on_grid (t + dt)).
  { apply on_grid_plus; [apply round_on_grid | exact dt_grid]. }
  pose proof (round_bounds (t + dt) Hg ltac:(lra)) as Hr. fold u in Hr.
  set (a := Binary64.round (t + dt)) in *.
  replace ((INR k + 1) * dt) with (kd + dt) by (unfold kd; ring).
  assert (Hud : 0 <= dt * u) by nra.
  assert (Hlo : (kd + dt) * (1 - u) <= t + dt) by lra.
  assert (Hhi : t + dt <= (kd + dt) * (1 + u)) by lra.
  split.
  - apply Rle_trans with ((t + dt) * (1 - u)); [| lra].
    replace ((kd + dt) * ((1 - u) * (1 - u)))
      with ((kd + dt) * (1 - u) * (1 - u)) by ring.
    apply Rmult_le_compat_r; lra.
  - apply Rle_trans with ((t + dt) * (1 + u)); [lra |].
    replace ((kd + dt) * ((1 + u) * (1 + u)))
      with ((kd + dt) * (1 + u) * (1 + u)) by ring.
    apply Rmult_le_compat_r; lra.
Qed.

(** If the test holds after k steps, the next time is at most
    max_t + epsilon (1 + epsilon). *)
Lemma binary64_test_true :
  forall k : nat,
    less_eq_with_sign (rd := binary64)
      (rnd (Rounding := binary64) (time_at (rd := binary64) 0 dt k + dt))
      max_t dt = true ->
    Binary64.round (Binary64.round (INR k * dt) + dt)
    <= max_t + Std.epsilon * (1 + Std.epsilon).
Proof.
  intros k. rewrite binary64_test.
  set (a := Binary64.round (Binary64.round (INR k * dt) + dt)).
  destruct (Rle_dec (Binary64.round (a - max_t)) Std.epsilon) as [H | H];
    [intros _ | discriminate].
  assert (Hg : Binary64.on_grid (a - max_t)).
  { apply on_grid_minus; [apply round_on_grid | exact max_t_grid]. }
  pose proof (round_near (a - max_t) Hg) as Hr.
  pose proof epsilon_pos as He. pose proof epsilon_small as Hs.
  rewrite unit_roundoff_epsilon in Hr.
  destruct (Rle_lt_dec (a - max_t) 0) as [Hneg | Hpos].
  - nra.
  - rewrite (Rabs_pos_eq (a - max_t)) in Hr by lra. nra.
Qed.

(** If the test fails after k steps, the next time is past max_t. *)
Lemma binary64_test_false :
  forall k : nat,
    less_eq_with_sign (rd := binary64)
      (rnd (Rounding := binary64) (time_at (rd := binary64) 0 dt k + dt))
      max_t dt = false ->
    max_t < Binary64.round (Binary64.round (INR k * dt) + dt).
Proof.
  intros k. rewrite binary64_test.
  set (a := Binary64.round (Binary64.round (INR k * dt) + dt)).
  destruct (Rle_dec (Binary64.round (a - max_t)) Std.epsilon) as [H | H];
    [discriminate | intros _].
  assert (Hg : Binary64.on_grid (a - max_t)).
  { apply on_grid_minus; [apply round_on_grid | exact max_t_grid]. }
  pose proof (round_near (a - max_t) Hg) as Hr.
  pose proof epsilon_pos as He. pose proof epsilon_small as Hs.
  rewrite unit_roundoff_epsilon in Hr.
  destruct (Rle_lt_dec (a - max_t) 0) as [Hneg | Hpos]; [| lra].
  rewrite (Rabs_left1 (a - max_t)) in Hr by lra. nra.
Qed.

(** The test holds as long as the next grid point is below max_t. *)
Lemma binary64_test_true_by_bound :
  forall k : nat,
    INR (S k) * dt * ((1 + Binary64.unit_roundoff) * (1 + Binary64.unit_roundoff))
    <= max_t ->
    less_eq_with_sign (rd := binary64)
      (rnd (Rounding := binary64) (time_at (rd := binary64) 0 dt k + dt))
      max_t dt = true.
Proof.
  intros k H.
  destruct (less_eq_with_sign (rd := binary64)
              (rnd (Rounding := binary64) (time_at (rd := binary64) 0 dt k + dt))
              max_t dt) eqn:Ht; [reflexivity |].
  apply binary64_test_false in Ht.
  pose proof (binary64_next_bounds k) as Hb. lra.
Qed.

(** The test fails once the next grid point is past max_t + epsilon. *)
Lemma binary64_test_false_by_bound :
  forall k : nat,
    max_t + Std.epsilon * (1 + Std.epsilon)
    < INR (S k) * dt * ((1 - Binary64.unit_roundoff) * (1 - Binary64.unit_roundoff)) ->
    less_eq_with_sign (rd := binary64)
      (rnd (Rounding := binary64) (time_at (rd := binary64) 0 dt k + dt))
      max_t dt = false.
Proof.
  intros k H.
  destruct (less_eq_with_sign (rd := binary64)
              (rnd (Rounding := binary64) (time_at (rd := binary64) 0 dt k + dt))
              max_t dt) eqn:Ht; [| reflexivity].
  apply binary64_test_true in Ht.
  pose proof (binary64_next_bounds k) as Hb. lra.
Qed.

End Binary64Loop.

(** ** The recorded times in the arithmetic of [double] *)

Lemma valid_times_grid :
  forall dt max_t : double,
    valid_times dt max_t -> Binary64.on_grid dt /\ Binary64.on_grid max_t.
Proof.
  intros dt max_t [Hd [Hm _]]. split; apply double_on_grid; assumption.
Qed.

(** The loop ends within its fuel: there is a first step after which the
    test fails. *)
Lemma binary64_steps :
  forall dt max_t : double,
    valid_times dt max_t ->
    exists n : nat,
      (n <= integrate_fuel 0 max_t dt)%nat
      /\ less_eq_with_sign (rd := binary64)
           (rnd (Rounding := binary64) (time_at (rd := binary64) 0 dt n + dt))
           max_t dt = false
      /\ forall k : nat,
          (k < n)%nat ->
          less_eq_with_sign (rd := binary64)
            (rnd (Rounding := binary64) (time_at (rd := binary64) 0 dt k + dt))
            max_t dt = true.
Proof.
  intros dt max_t Hv. destruct (valid_times_grid dt max_t Hv) as [Hgd Hgm].
  destruct Hv as [_ [_ [Hdt [Hmax _]]]].
  pose proof epsilon_pos as He. pose proof epsilon_small as Hs.
  pose proof unit_roundoff_bounds as Hu.
  set (F := integrate_fuel 0 max_t dt).
  assert (HF : 2 * (max_t + Std.epsilon) < INR F * dt).
  { unfold F, integrate_fuel.
    rewrite Rminus_0_r, (Rabs_pos_eq max_t), (Rabs_pos_eq dt) by lra.
    set (q := 2 * ((max_t + Std.epsilon) / dt)).
    destruct (archimed q) as [Hup _].
    assert (Hq : 0 < q).
    { unfold q. apply Rmult_lt_0_compat; [lra |].
      apply Rmult_lt_0_compat; [lra | apply Rinv_0_lt_compat; lra]. }
    rewrite INR_IZR_INZ, Z2Nat.id by (apply le_IZR; lra).
    replace (2 * (max_t + Std.epsilon)) with (q * dt)
      by (unfold q; field; lra).
    apply Rmult_lt_compat_r; lra. }
  assert (HF1 : F = S (pred F)).
  { destruct F as [|F']; [| reflexivity]. simpl in HF. lra. }
  set (u := Binary64.unit_roundoff) in *.
  destruct (first_failure
              (fun k => less_eq_with_sign (rd := binary64)
                          (rnd (Rounding := binary64)
                               (time_at (rd := binary64) 0 dt k + dt))
                          max_t dt) (pred F))
    as [n [Hn [Hfail Hbefore]]].
  - apply binary64_test_false_by_bound; try assumption.
    rewrite <- HF1. fold u.
    assert (Hsq : 99 / 100 <= (1 - u) * (1 - u)) by nra.
    assert (Hpos : 0 < INR F * dt) by lra.
    nra.
  - exists n. split; [lia |]. split; assumption.
Qed.

Lemma last_map_seq :
  forall (f : nat -> double) (n : nat),
    last (map f (seq 0 (S n))) 0 = f n.
Proof.
  intros f n. rewrite seq_S, map_app. cbn [map plus]. apply last_last.
Qed.

Section Binary64Grid.

Variables dt max_t : double.
Variable n : nat.
Hypothesis valid : valid_times dt max_t.
Hypothesis continues :
  forall k : nat,
    (k < n)%nat ->
    less_eq_with_sign (rd := binary64)
      (rnd (Rounding := binary64) (time_at (rd := binary64) 0 dt k + dt))
      max_t dt = true.
Hypothesis stops :
  less_eq_with_sign (rd := binary64)
    (rnd (Rounding := binary64) (time_at (rd := binary64) 0 dt n + dt))
    max_t dt = false.

(** The last grid point is not past max_t + epsilon (1 + epsilon), up to
    two roundings. *)
Lemma binary64_last_step :
  INR n * dt * ((1 - Binary64.unit_roundoff) * (1 - Binary64.unit_roundoff))
  <= max_t + Std.epsilon * (1 + Std.epsilon).
Proof.
  destruct (valid_times_grid dt max_t valid) as [Hgd Hgm].
  destruct valid as [_ [_ [Hdt [Hmax _]]]].
  pose proof epsilon_pos as He.
  destruct n as [|m] eqn:Hn.
  - simpl. nra.
  - pose proof (binary64_test_true dt max_t Hdt Hgm m
                  (continues m ltac:(lia))) as Ht.
    pose proof (binary64_next_bounds dt Hdt Hgd m) as Hb. lra.
Qed.

(** Fewer than 2^31 steps are taken: the counter stays in the range of
    [int]. *)
Lemma binary64_step_bound : INR n <= 1100000000.
Proof.
  pose proof binary64_last_step as Hl.
  destruct valid as [_ [_ [Hdt [Hmax [_ Hsteps]]]]].
  pose proof epsilon_pos as He. pose proof epsilon_small as Hs.
  pose proof unit_roundoff_bounds as Hu.
  set (u := Binary64.unit_roundoff) in *.
  assert (Hsq : 99 / 100 <= (1 - u) * (1 - u)) by nra.
  assert (Hn0 : 0 <= INR n) by apply pos_INR.
  assert (H1 : INR n * dt * (99 / 100) <= 1073741824 * dt * (1 + Std.epsilon)).
  { apply Rle_trans with (INR n * dt * ((1 - u) * (1 - u))).
    - apply Rmult_le_compat_l; [apply Rmult_le_pos; lra | exact Hsq].
    - nra. }
  assert (H2 : INR n * (99 / 100) <= 1073741824 * (1 + Std.epsilon)).
  { apply Rmult_le_reg_r with (r := dt); [exact Hdt |]. lra. }
  lra.
Qed.

Lemma binary64_grid_increasing :
  forall k : nat,
    (k < n)%nat ->
    Binary64.round (INR k * dt) < Binary64.round (INR (S k) * dt).
Proof.
  intros k Hk.
  destruct (valid_times_grid dt max_t valid) as [Hgd Hgm].
  pose proof binary64_step_bound as Hb.
  destruct valid as [_ [_ [Hdt _]]].
  pose proof (binary64_time_bounds dt Hdt Hgd k) as [_ Hhi].
  pose proof (binary64_time_bounds dt Hdt Hgd (S k)) as [Hlo _].
  rewrite S_INR in *.
  assert (Hkn : INR k <= INR n) by (apply le_INR; lia).
  assert (Hk0 : 0 <= INR k) by apply pos_INR.
  rewrite unit_roundoff_value in *.
  set (u := / 9007199254740992) in *.
  assert (Hu : 0 < u < / 1000000000000000) by (unfold u; lra).
  assert (Hku : INR k * u <= 2147483648 * u).
  { apply Rmult_le_compat_r; lra. }
  assert (Hc : 2147483648 * u < 1 / 1000) by (unfold u; lra).
  assert (Hgap : INR k * (1 + u) < (INR k + 1) * (1 - u)) by lra.
  apply Rle_lt_trans with (1 := Hhi).
  apply Rlt_le_trans with (2 := Hlo).
  replace (INR k * dt * (1 + u)) with (INR k * (1 + u) * dt) by ring.
  replace ((INR k + 1) * dt * (1 - u)) with ((INR k + 1) * (1 - u) * dt) by ring.
  apply Rmult_lt_compat_r; lra.
Qed.

Lemma binary64_grid_is_double :
  forall k : nat,
    (k <= n)%nat -> Binary64.is_double (Binary64.round (INR k * dt)).
Proof.
  intros k Hk. apply round_is_double.
  pose proof binary64_last_step as Hl.
  destruct valid as [_ [_ [Hdt [Hmax [Hbig _]]]]].
  pose proof epsilon_pos as He. pose proof epsilon_small as Hs.
  pose proof unit_roundoff_bounds as Hu.
  set (u := Binary64.unit_roundoff) in *.
  assert (Hsq : 99 / 100 <= (1 - u) * (1 - u)) by nra.
  assert (Hkn : INR k <= INR n) by (apply le_INR; lia).
  assert (Hk0 : 0 <= INR k) by apply pos_INR.
  assert (Hkd : 0 <= INR k * dt) by (apply Rmult_le_pos; lra).
  rewrite Rabs_pos_eq by exact Hkd.
  assert (Hnd : INR k * dt <= INR n * dt)
    by (apply Rmult_le_compat_r; lra).
  assert (H1 : INR n * dt * (99 / 100) <= max_t + Std.epsilon * (1 + Std.epsilon)).
  { apply Rle_trans with (INR n * dt * ((1 - u) * (1 - u))); [| exact Hl].
    apply Rmult_le_compat_l; [| exact Hsq].
    apply Rmult_le_pos; [apply pos_INR | lra]. }
  replace 1023%Z with (1022 + 1)%Z by lia.
  rewrite pow2_add. change (powerRZ 2 1) with (2 * 1).
  pose proof (pow2_ge_1 1022 ltac:(lia)) as HP.
  set (P := powerRZ 2 1022) in *.
  nra.
Qed.

(** The samples of a run that took n steps. *)
Lemma binary64_sampled_on_grid :
  sampled_on_grid dt max_t
    (map (time_at (rd := binary64) 0 dt) (seq 0 (S n))) (S n) n.
Proof.
  destruct (valid_times_grid dt max_t valid) as [Hgd Hgm].
  pose proof valid as [_ [_ [Hdt [Hmax _]]]].
  pose proof epsilon_pos as He. pose proof epsilon_small as Hs.
  assert (Htimes : map (time_at (rd := binary64) 0 dt) (seq 0 (S n))
                   = map (fun k => Binary64.round (INR k * dt)) (seq 0 (S n))).
  { apply map_ext. intros k. apply binary64_time_at. }
  rewrite Htimes. clear Htimes.
  set (f := fun k : nat => Binary64.round (INR k * dt)).
  assert (Hnth : forall i, (i <= n)%nat ->
                           nth i (map f (seq 0 (S n))) 0 = f i).
  { intros i Hi. apply nth_map_seq. lia. }
  assert (Hlen : length (map f (seq 0 (S n))) = S n)
    by now rewrite length_map, length_seq.
  unfold sampled_on_grid.
  split; [reflexivity |].
  split.
  { apply Forall_forall. intros t Ht. apply in_map_iff in Ht.
    destruct Ht as [k [<- Hk]]. apply in_seq in Hk.
    apply binary64_grid_is_double. lia. }
  split.
  { intros i Hi. rewrite Hlen in Hi. rewrite !Hnth by lia.
    apply binary64_grid_increasing. lia. }
  split.
  { intros i Hi. rewrite Hlen in Hi. rewrite Hnth by lia. unfold f.
    assert (Hkd : 0 <= INR i * dt)
      by (apply Rmult_le_pos; [apply pos_INR | lra]).
    pose proof (round_error (INR i * dt)
                  (on_grid_INR_mult i dt Hgd)) as Herr.
    now rewrite (Rabs_pos_eq _ Hkd) in Herr. }
  split.
  { rewrite Hnth by lia. unfold f. cbn [INR].
    now rewrite Rmult_0_l, round_0. }
  rewrite last_map_seq. unfold f.
  split.
  { pose proof binary64_last_step as Hl.
    pose proof (binary64_time_bounds dt Hdt Hgd n) as [_ Hhi].
    rewrite unit_roundoff_epsilon in *.
    set (A := INR n * dt) in *.
    assert (HA : 0 <= A)
      by (apply Rmult_le_pos; [apply pos_INR | lra]).
    set (u := Std.epsilon / 2) in *.
    assert (Hu : 0 < u < 1 / 2000) by (unfold u; lra).
    replace Std.epsilon with (2 * u) in * by (unfold u; lra).
    set (M := max_t + 2 * u) in *.
    assert (HM : 0 < M) by (unfold M; lra).
    assert (H1 : A * ((1 - u) * (1 - u)) <= M * (1 + 2 * u)) by (unfold M; nra).
    assert (Hpoly : (1 + 2 * u) * (1 + u)
                    <= (1 + 3 * (2 * u)) * ((1 - u) * (1 - u))) by nra.
    apply Rle_trans with (1 := Hhi).
    apply Rmult_le_reg_r with (r := (1 - u) * (1 - u)); [nra |].
    apply Rle_trans with (M * (1 + 2 * u) * (1 + u)).
    - replace (A * (1 + u) * ((1 - u) * (1 - u)))
        with (A * ((1 - u) * (1 - u)) * (1 + u)) by ring.
      apply Rmult_le_compat_r; lra.
    - replace (M * (1 + 2 * u) * (1 + u))
        with (M * ((1 + 2 * u) * (1 + u))) by ring.
      replace (M * (1 + 3 * (2 * u)) * ((1 - u) * (1 - u)))
        with (M * ((1 + 3 * (2 * u)) * ((1 - u) * (1 - u)))) by ring.
      apply Rmult_le_compat_l; lra. }
  split.
  { pose proof (binary64_test_false dt max_t Hdt Hgm n stops) as Hf.
    pose proof (binary64_time_nonneg dt Hdt Hgd n) as Ht0.
    set (t := Binary64.round (INR n * dt)) in *.
    assert (Hg : Binary64.on_grid (t + dt)).
    { apply on_grid_plus; [apply round_on_grid | exact Hgd]. }
    pose proof (round_bounds (t + dt) Hg ltac:(lra)) as [_ Hr].
    rewrite unit_roundoff_epsilon in Hr.
    apply Rlt_le_trans with (1 := Hf). apply Rle_trans with (1 := Hr).
    apply Rmult_le_compat_l; lra. }
  split; [exact Hlen |].
  split; [reflexivity |].
  pose proof binary64_step_bound as Hb.
  rewrite INR_IZR_INZ in Hb. apply le_IZR in Hb.
  change (2 ^ 31)%Z with 2147483648%Z. lia.
Qed.

End Binary64Grid.

(** ** The recorded trajectory *)

(** The number of steps is determined by the tests. *)
Lemma first_failure_unique :
  forall (test : nat -> bool) (n n' : nat),
    test n = false -> (forall k, (k < n)%nat -> test k = true) ->
    test n' = false -> (forall k, (k < n')%nat -> test k = true) ->
    n = n'.
Proof.
  intros test n n' Hn Hb Hn' Hb'.
  destruct (Nat.lt_trichotomy n n') as [H | [H | H]]; [| exact H |].
  - rewrite (Hb' n H) in Hn. discriminate.
  - rewrite (Hb n' H) in Hn'. discriminate.
Qed.

(** In the arithmetic of [double] a call with valid times whose test holds
    after each of the first n steps and fails after n steps takes n steps,
    and hands the observer the pairs of [records_from], in order. *)
Lemma integrate_const_binary64_steps :
  forall {St : Type} {SA : StateAlgebra St} {Sys Ob : Type}
         (system : Sys -> St -> double -> Sys * St)
         (observer : Ob -> St -> double -> Ob)
         (tab : Tableau) (sys : Sys) (x : St) (dt max_t : double) (obs : Ob)
         (n : nat),
    valid_times dt max_t ->
    (forall k : nat,
        (k < n)%nat ->
        less_eq_with_sign (rd := binary64)
          (rnd (Rounding := binary64) (time_at (rd := binary64) 0 dt k + dt))
          max_t dt = true) ->
    less_eq_with_sign (rd := binary64)
      (rnd (Rounding := binary64) (time_at (rd := binary64) 0 dt n + dt))
      max_t dt = false ->
    integrate_const (rd := binary64) system observer tab sys x 0 max_t dt obs
    = Some (mkIntegrated
              (fst (steps_from (rd := binary64) system tab 0 dt n sys x 0))
              (snd (steps_from (rd := binary64) system tab 0 dt n sys x 0))
              (feed observer obs
                    (records_from (rd := binary64) system tab 0 dt n sys x 0))
              n)
    /\ sampled_on_grid dt max_t
         (map snd (records_from (rd := binary64) system tab 0 dt n sys x 0))
         (length
            (map fst (records_from (rd := binary64) system tab 0 dt n sys x 0)))
         n.
Proof.
  intros St SA Sys Ob system observer tab sys x dt max_t obs n Hv Hyes Hno.
  split.
  - destruct (binary64_steps dt max_t Hv) as [n0 [Hfuel [Hno0 Hyes0]]].
    assert (Hn : n0 = n).
    { apply (first_failure_unique
               (fun k => less_eq_with_sign (rd := binary64)
                           (rnd (Rounding := binary64)
                                (time_at (rd := binary64) 0 dt k + dt))
                           max_t dt)); assumption. }
    subst n0. unfold integrate_const.
    rewrite (integrate_const_loop_runs (rd := binary64) system observer tab
               0 max_t dt n).
    + reflexivity.
    + exact Hfuel.
    + intros k Hk. apply Hyes. lia.
    + exact Hno.
  - rewrite records_from_time_at, length_map, records_from_length.
    apply binary64_sampled_on_grid; assumption.
Qed.

(** In the arithmetic of [double] every call with valid times ends. *)
Lemma integrate_const_binary64 :
  forall {St : Type} {SA : StateAlgebra St} {Sys Ob : Type}
         (system : Sys -> St -> double -> Sys * St)
         (observer : Ob -> St -> double -> Ob)
         (tab : Tableau) (sys : Sys) (x : St) (dt max_t : double) (obs : Ob),
    valid_times dt max_t ->
    exists n : nat,
      integrate_const (rd := binary64) system observer tab sys x 0 max_t dt obs
      = Some (mkIntegrated
                (fst (steps_from (rd := binary64) system tab 0 dt n sys x 0))
                (snd (steps_from (rd := binary64) system tab 0 dt n sys x 0))
                (feed observer obs
                      (records_from (rd := binary64) system tab 0 dt n sys x 0))
                n)
      /\ sampled_on_grid dt max_t
           (map snd (records_from (rd := binary64) system tab 0 dt n sys x 0))
           (length
              (map fst
                   (records_from (rd := binary64) system tab 0 dt n sys x 0)))
           n.
Proof.
  intros St SA Sys Ob system observer tab sys x dt max_t obs Hv.
  destruct (binary64_steps dt max_t Hv) as [n [_ [Hno Hyes]]].
  exists n. apply integrate_const_binary64_steps; assumption.
Qed.

Lemma one_plant_integrate_on_grid :
  forall (stepper : Tableau) (dt max_t : double),
    valid_times dt max_t ->
    forall m R d_yp d_b0 d_bp g_yp g_b0 g_bp L_0 P_max q s_0 h f_0 F_tilde u
           Y0 B0 N0,
    exists r,
      OnePlant.one_plant_integrate (rd := binary64) stepper m R d_yp d_b0
        d_bp g_yp g_b0 g_bp L_0 P_max q s_0 h f_0 F_tilde u dt max_t
        Y0 B0 N0 = Some r
      /\ sampled_on_grid dt max_t (OnePlant.time (int_obs r))
                         (length (OnePlant.data (int_obs r)))
                         (int_steps r)
      /\ OnePlant.data (int_obs r)
         = map (fun k =>
                  snd (steps_from (rd := binary64) (counted OnePlant.system)
                         stepper 0 dt k
                         (OnePlant.make m R d_yp d_b0 d_bp g_yp g_b0 g_bp L_0
                                        P_max q s_0 h f_0 F_tilde u, 0%nat)
                         [Y0; B0; N0] 0))
               (seq 0 (S (int_steps r))).
Proof.
  intros stepper dt max_t Hv.
  intros m Rin d_yp d_b0 d_bp g_yp g_b0 g_bp L_0 P_max q s_0 h f_0 F_tilde u
         Y0 B0 N0.
  unfold OnePlant.one_plant_integrate.
  destruct (integrate_const_binary64 (counted OnePlant.system)
              OnePlant.observe stepper
              (OnePlant.make m Rin d_yp d_b0 d_bp g_yp g_b0 g_bp L_0 P_max q
                             s_0 h f_0 F_tilde u, 0%nat)
              (vec_set (vec_set (vec_set (repeat 0 3) 0 Y0) 1 B0) 2 N0)
              dt max_t OnePlant.OnePlantObserver_new Hv) as [n [Hrun Hgrid]].
  rewrite Hrun. eexists. split; [reflexivity |].
  cbn [int_steps int_obs].
  rewrite feed_one_plant_observer. cbn [OnePlant.time OnePlant.data
    OnePlant.OnePlantObserver_new app].
  split; [exact Hgrid |].
  apply records_from_states.
Qed.

Lemma season_integrate_on_grid :
  forall (stepper : Tableau) (dt max_t : double),
    valid_times dt max_t ->
    forall m d_yp d_b0 d_bp g_yp g_b0 g_bp L_0 P_max q s_0 h f_0 F_tilde u
           R_hat t0 k lambda Y0 B0 N0,
    exists r,
      OnePlantSeason.one_plant_season_integrate (rd := binary64) stepper m
        d_yp d_b0 d_bp g_yp g_b0 g_bp L_0 P_max q s_0 h f_0 F_tilde u R_hat
        t0 k lambda dt max_t Y0 B0 N0 = Some r
      /\ sampled_on_grid dt max_t (time (int_obs r))
                         (length (data (int_obs r))) (int_steps r)
      /\ data (int_obs r)
         = map (fun i =>
                  snd (steps_from (rd := binary64)
                         (counted OnePlantSeason.system) stepper 0 dt i
                         (OnePlantSeason.make m d_yp d_b0 d_bp g_yp g_b0
                              g_bp L_0 P_max q s_0 h f_0 F_tilde u R_hat t0 k
                              lambda, 0%nat)
                         [Y0; B0; N0] 0))
               (seq 0 (S (int_steps r))).
Proof.
  intros stepper dt max_t Hv. intros.
  unfold OnePlantSeason.one_plant_season_integrate.
  destruct (integrate_const_binary64 (counted OnePlantSeason.system)
              Observer_call stepper
              (OnePlantSeason.make m d_yp d_b0 d_bp g_yp g_b0 g_bp L_0 P_max
                 q s_0 h f_0 F_tilde u R_hat t0 k lambda, 0%nat)
              (vec_set (vec_set (vec_set (repeat 0 3) 0 Y0) 1 B0) 2 N0)
              dt max_t Observer_new Hv) as [n [Hrun Hgrid]].
  rewrite Hrun. eexists. split; [reflexivity |].
  cbn [int_steps int_obs].
  rewrite feed_observer. cbn [time data Observer_new app].
  split; [exact Hgrid |].
  apply records_from_states.
Qed.

Lemma landscape_integrate_on_grid :
  forall (stepper : Tableau) (dt max_t : double),
    valid_times dt max_t ->
    forall m d_yp d_b0 d_bp g_yp g_b0 g_bp L_0 u X Y0 B0,
    exists r,
      LandConstF.landscape_integrate (rd := binary64) stepper m d_yp d_b0
        d_bp g_yp g_b0 g_bp L_0 u X Y0 B0 dt max_t = Some r
      /\ sampled_on_grid dt max_t (time (int_obs r))
                         (length (data (int_obs r))) (int_steps r)
      /\ data (int_obs r)
         = map (fun k =>
                  snd (steps_from (rd := binary64) (counted LandConstF.call)
                         stepper 0 dt k
                         (LandConstF.make m d_yp d_b0 d_bp g_yp g_b0 g_bp L_0
                                          u X, 0%nat)
                         (map (fun i => (nth i Y0 0, nth i B0 0))
                              (seq 0 (length m))) 0))
               (seq 0 (S (int_steps r))).
Proof.
  intros stepper dt max_t Hv. intros.
  unfold LandConstF.landscape_integrate.
  destruct (integrate_const_binary64 (counted LandConstF.call)
              Observer_call stepper
              (LandConstF.make m d_yp d_b0 d_bp g_yp g_b0 g_bp L_0 u X, 0%nat)
              (map (fun i => (nth i Y0 0, nth i B0 0)) (seq 0 (length m)))
              dt max_t Observer_new Hv) as [n [Hrun Hgrid]].
  rewrite Hrun. eexists. split; [reflexivity |].
  cbn [int_steps int_obs].
  rewrite feed_observer. cbn [time data Observer_new app].
  split; [exact Hgrid |].
  apply records_from_states.
Qed.

(** *** The doubles 0.1 and 0.3 *)

Lemma is_double_intro :
  forall (x : double) (m e : Z),
    x = IZR m * powerRZ 2 e ->
    (Z.abs m < 2 ^ 53)%Z -> (Binary64.emin <= e <= 971)%Z ->
    Binary64.is_double x.
Proof.
  intros x m e Hx Hm He. exists m, e. split; [exact Hx |]. split; assumption.
Qed.

Lemma one_is_double : Binary64.is_double 1.
Proof.
  apply (is_double_intro 1 1 0).
  - simpl. lra.
  - reflexivity.
  - unfold Binary64.emin. lia.
Qed.

(** The double 0.1 is 3602879701896397 / 2^55, a little more than 1/10. *)
Lemma scenario_dt_value :
  scenario_dt = 3602879701896397 / 36028797018963968.
Proof.
  unfold scenario_dt.
  rewrite (round_eval (1/10) (-56) 7205759403792794).
  - pow2_const. lra.
  - unfold Binary64.emin. lia.
  - rewrite Rabs_pos_eq by lra. pow2_const. lra.
  - pow2_const. apply Rabs_def1; lra.
Qed.

Lemma scenario_dt_is_double : Binary64.is_double scenario_dt.
Proof.
  apply (is_double_intro _ 7205759403792794 (-56)).
  - rewrite scenario_dt_value. pow2_const. lra.
  - reflexivity.
  - unfold Binary64.emin. lia.
Qed.

Lemma scenario_times_valid : valid_times scenario_dt 1.
Proof.
  unfold valid_times.
  split; [exact scenario_dt_is_double |].
  split; [exact one_is_double |].
  rewrite scenario_dt_value. unfold Std.epsilon.
  pose proof (pow2_ge_1 1022 ltac:(lia)).
  repeat split; lra.
Qed.

(** The double 0.3 is 5404319552844595 / 2^54, a little less than 3/10. *)
Lemma three_tenths_value :
  Binary64.round (3/10) = 5404319552844595 / 18014398509481984.
Proof.
  rewrite (round_eval (3/10) (-54) 5404319552844595).
  - pow2_const. lra.
  - unfold Binary64.emin. lia.
  - rewrite Rabs_pos_eq by lra. pow2_const. lra.
  - pow2_const. apply Rabs_def1; lra.
Qed.

Lemma three_tenths_valid : valid_times (Binary64.round (3/10)) 1.
Proof.
  unfold valid_times.
  split.
  { apply (is_double_intro _ 5404319552844595 (-54)).
    - rewrite three_tenths_value. pow2_const. lra.
    - reflexivity.
    - unfold Binary64.emin. lia. }
  split; [exact one_is_double |].
  rewrite three_tenths_value. unfold Std.epsilon.
  pose proof (pow2_ge_1 1022 ltac:(lia)).
  repeat split; lra.
Qed.

(** With dt = 0.3 and max_t = 1 the test holds after 0, 1 and 2 steps and
    fails after 3. *)
Lemma three_tenths_tests :
  (forall k : nat,
      (k < 3)%nat ->
      less_eq_with_sign (rd := binary64)
        (rnd (Rounding := binary64)
             (time_at (rd := binary64) 0 (Binary64.round (3/10)) k
              + Binary64.round (3/10)))
        1 (Binary64.round (3/10)) = true)
  /\ less_eq_with_sign (rd := binary64)
       (rnd (Rounding := binary64)
            (time_at (rd := binary64) 0 (Binary64.round (3/10)) 3
             + Binary64.round (3/10)))
       1 (Binary64.round (3/10)) = false.
Proof.
  destruct (valid_times_grid _ _ three_tenths_valid) as [Hgd Hgm].
  assert (Hdt : 0 < Binary64.round (3/10))
    by (rewrite three_tenths_value; lra).
  split.
  - intros k Hk.
    apply binary64_test_true_by_bound; try assumption.
    rewrite three_tenths_value, unit_roundoff_value.
    destruct k as [|[|[|k]]]; try lia; simpl INR; lra.
  - apply binary64_test_false_by_bound; try assumption.
    rewrite three_tenths_value, unit_roundoff_value. unfold Std.epsilon.
    simpl INR. lra.
Qed.

(** C6 (amended).  In the arithmetic of [double], for every call of an
    exported entry point with positive finite doubles dt and max_t
    (max_t at most 2^1022 and max_t / dt at most 2^30) the integration
    terminates, after fewer than 2^31 steps.  The recorded time samples are
    the doubles nearest to 0, dt, 2 dt, ..., n dt, where n is the number of
    steps taken: they start at 0, increase strictly, and are spaced by dt up
    to the rounding of each sample (a relative error of at most 2^-53).  The
    last sample is not past max_t by more than the machine epsilon, and the
    sample after it would be past max_t (both up to rounding): the samples
    end within dt before max_t + epsilon, not "at or just past" max_t.  The
    observer holds the initial state at t = 0 followed by exactly one
    (time, state) pair per step, the k-th being the state after k steps: one
    record more than there are steps. *)
Theorem trajectory_sampled_on_grid :
  forall (stepper : Tableau) (dt max_t : double),
    valid_times dt max_t ->
    (forall m R d_yp d_b0 d_bp g_yp g_b0 g_bp L_0 P_max q s_0 h f_0 F_tilde u
            Y0 B0 N0,
        exists r,
          OnePlant.one_plant_integrate (rd := binary64) stepper m R d_yp
            d_b0 d_bp g_yp g_b0 g_bp L_0 P_max q s_0 h f_0 F_tilde u dt
            max_t Y0 B0 N0 = Some r
          /\ sampled_on_grid dt max_t (OnePlant.time (int_obs r))
                             (length (OnePlant.data (int_obs r)))
                             (int_steps r)
          /\ OnePlant.data (int_obs r)
             = map (fun k =>
                      snd (steps_from (rd := binary64)
                             (counted OnePlant.system) stepper 0 dt k
                             (OnePlant.make m R d_yp d_b0 d_bp g_yp g_b0 g_bp
                                L_0 P_max q s_0 h f_0 F_tilde u, 0%nat)
                             [Y0; B0; N0] 0))
                   (seq 0 (S (int_steps r))))
    /\ (forall m d_yp d_b0 d_bp g_yp g_b0 g_bp L_0 P_max q s_0 h f_0 F_tilde u
               R_hat t0 k lambda Y0 B0 N0,
           exists r,
             OnePlantSeason.one_plant_season_integrate (rd := binary64)
               stepper m d_yp d_b0 d_bp g_yp g_b0 g_bp L_0 P_max q s_0 h f_0
               F_tilde u R_hat t0 k lambda dt max_t Y0 B0 N0 = Some r
             /\ sampled_on_grid dt max_t (time (int_obs r))
                                (length (data (int_obs r))) (int_steps r)
             /\ data (int_obs r)
                = map (fun i =>
                         snd (steps_from (rd := binary64)
                                (counted OnePlantSeason.system) stepper 0 dt i
                                (OnePlantSeason.make m d_yp d_b0 d_bp g_yp
                                   g_b0 g_bp L_0 P_max q s_0 h f_0 F_tilde u
                                   R_hat t0 k lambda, 0%nat)
                                [Y0; B0; N0] 0))
                      (seq 0 (S (int_steps r))))
    /\ (forall m d_yp d_b0 d_bp g_yp g_b0 g_bp L_0 u X Y0 B0,
           exists r,
             LandConstF.landscape_integrate (rd := binary64) stepper m d_yp
               d_b0 d_bp g_yp g_b0 g_bp L_0 u X Y0 B0 dt max_t = Some r
             /\ sampled_on_grid dt max_t (time (int_obs r))
                                (length (data (int_obs r))) (int_steps r)
             /\ data (int_obs r)
                = map (fun k =>
                         snd (steps_from (rd := binary64)
                                (counted LandConstF.call) stepper 0 dt k
                                (LandConstF.make m d_yp d_b0 d_bp g_yp g_b0
                                                 g_bp L_0 u X, 0%nat)
                                (map (fun i => (nth i Y0 0, nth i B0 0))
                                     (seq 0 (length m))) 0))
                      (seq 0 (S (int_steps r)))).
Proof.
  intros stepper dt max_t Hv. split; [| split].
  - apply one_plant_integrate_on_grid; assumption.
  - apply season_integrate_on_grid; assumption.
  - apply landscape_integrate_on_grid; assumption.
Qed.

Lemma trajectory_sampled_on_grid_witness :
  exists r,
    OnePlant.one_plant_integrate (rd := binary64) rk4 (1/10) 1 (1/5) (1/20)
      (1/10) (3/10) (1/20) (1/10) 1 5 (1/2) 1 2 1 1 2 scenario_dt 1 1 1 1
    = Some r
    /\ sampled_on_grid scenario_dt 1 (OnePlant.time (int_obs r))
                       (length (OnePlant.data (int_obs r))) (int_steps r)
    /\ OnePlant.data (int_obs r)
       = map (fun k =>
                snd (steps_from (rd := binary64) (counted OnePlant.system)
                       rk4 0 scenario_dt k
                       (OnePlant.make (1/10) 1 (1/5) (1/20) (1/10) (3/10)
                          (1/20) (1/10) 1 5 (1/2) 1 2 1 1 2, 0%nat)
                       [1; 1; 1] 0))
             (seq 0 (S (int_steps r))).
Proof.
  apply (proj1 (trajectory_sampled_on_grid rk4 scenario_dt 1
                  scenario_times_valid)).
Defined.

(** With dt = 0.3 the third and the fourth sample are not dt apart: both are
    multiples of 2^-53, and the double 0.3 is an odd multiple of 2^-54. *)
Lemma three_tenths_spacing :
  Binary64.round (INR 3 * Binary64.round (3/10))
  - Binary64.round (INR 2 * Binary64.round (3/10))
  <> Binary64.round (3/10).
Proof.
  replace (INR 3) with 3 by (simpl; lra).
  replace (INR 2) with 2 by (simpl; lra).
  rewrite three_tenths_value.
  rewrite (round_eval (2 * (5404319552844595 / 18014398509481984)) (-53)
             5404319552844595).
  2: { unfold Binary64.emin. lia. }
  2: { rewrite Rabs_pos_eq by lra. pow2_const. lra. }
  2: { pow2_const. apply Rabs_def1; lra. }
  unfold Binary64.round.
  rewrite (ulp_exponent_eval (3 * (5404319552844595 / 18014398509481984))
             (-53)).
  2: { unfold Binary64.emin. lia. }
  2: { rewrite Rabs_pos_eq by lra. pow2_const. lra. }
  set (n := Binary64.nearest_even
              (3 * (5404319552844595 / 18014398509481984) / powerRZ 2 (-53))).
  pow2_const. intros H.
  assert (Hz : IZR (2 * n - 16212958658533785) = 0).
  { rewrite minus_IZR, mult_IZR. lra. }
  apply eq_IZR in Hz. lia.
Qed.

(** In the arithmetic of [double], with dt = 0.3 and max_t = 1 three steps
    are taken: the last sample, the double nearest to 3 * 0.3, is less than
    max_t, not at or past it; the last two samples are not dt apart; and
    the observer holds four records for the three steps. *)
Lemma trajectory_stops_before_max_t :
  exists r,
    OnePlant.one_plant_integrate (rd := binary64) rk4 (1/10) 1 (1/5) (1/20)
      (1/10) (3/10) (1/20) (1/10) 1 5 (1/2) 1 2 1 1 2
      (Binary64.round (3/10)) 1 1 1 1 = Some r
    /\ int_steps r = 3%nat
    /\ last (OnePlant.time (int_obs r)) 0 < 1
    /\ ~ (1 <= last (OnePlant.time (int_obs r)) 0)
    /\ nth 3 (OnePlant.time (int_obs r)) 0
       - nth 2 (OnePlant.time (int_obs r)) 0 <> Binary64.round (3/10)
    /\ length (OnePlant.data (int_obs r)) = 4%nat
    /\ length (OnePlant.data (int_obs r)) <> int_steps r.
Proof.
  destruct three_tenths_tests as [Hyes Hno].
  unfold OnePlant.one_plant_integrate.
  destruct (integrate_const_binary64_steps (counted OnePlant.system)
              OnePlant.observe rk4
              (OnePlant.make (1/10) 1 (1/5) (1/20) (1/10) (3/10) (1/20)
                             (1/10) 1 5 (1/2) 1 2 1 1 2, 0%nat)
              (vec_set (vec_set (vec_set (repeat 0 3) 0 1) 1 1) 2 1)
              (Binary64.round (3/10)) 1 OnePlant.OnePlantObserver_new 3
              three_tenths_valid Hyes Hno) as [Hrun Hgrid].
  rewrite Hrun. eexists. split; [reflexivity |].
  cbn [int_steps int_obs]. rewrite feed_one_plant_observer.
  cbn [OnePlant.time OnePlant.data OnePlant.OnePlantObserver_new app].
  destruct Hgrid as [Ht [_ [_ [Hsp [_ [_ [_ [Hlen [Hrec _]]]]]]]]].
  assert (Hlast : last (map snd
                          (records_from (rd := binary64)
                             (counted OnePlant.system) rk4 0
                             (Binary64.round (3/10)) 3
                             (OnePlant.make (1/10) 1 (1/5) (1/20) (1/10)
                                (3/10) (1/20) (1/10) 1 5 (1/2) 1 2 1 1 2,
                              0%nat)
                             (vec_set (vec_set (vec_set (repeat 0 3) 0 1) 1 1)
                                      2 1) 0)) 0 < 1).
  { pose proof (Hsp 3%nat ltac:(rewrite Hlen; lia)) as H3.
    rewrite Ht, last_map_seq. rewrite Ht in H3.
    rewrite (nth_map_seq _ 4 3) in H3 by lia.
    apply Rabs_le_inv in H3.
    rewrite three_tenths_value, unit_roundoff_value in *.
    simpl INR in *. lra. }
  split; [reflexivity |].
  split; [exact Hlast |].
  split; [lra |].
  split.
  { rewrite Ht.
    rewrite (nth_map_seq
               (fun k => Binary64.round (INR k * Binary64.round (3/10))) 4 3)
      by lia.
    rewrite (nth_map_seq
               (fun k => Binary64.round (INR k * Binary64.round (3/10))) 4 2)
      by lia.
    exact three_tenths_spacing. }
  rewrite Hrec. split; [reflexivity | lia].
Qed.

(** *** The effect of rounding on the number of steps

    With dt = 0.1 the number of steps in the arithmetic of [double] differs
    from the number in exact arithmetic on the same two doubles: for
    max_t = 3 the double loop takes 29 steps (the exact one 30), and for
    max_t = 90 it takes 900 (the exact one 899). *)

Lemma round_29_tenths :
  Binary64.round (29 * (3602879701896397 / 36028797018963968))
  = 6530219459687220 / 2251799813685248.
Proof.
  rewrite (round_eval _ (-51) 6530219459687220).
  - pow2_const. lra.
  - unfold Binary64.emin. lia.
  - rewrite Rabs_pos_eq by lra. pow2_const. lra.
  - pow2_const. apply Rabs_def1; lra.
Qed.

Lemma round_30_tenths :
  Binary64.round (6530219459687220 / 2251799813685248
                  + 3602879701896397 / 36028797018963968)
  = 6755399441055745 / 2251799813685248.
Proof.
  rewrite (round_eval _ (-51) 6755399441055745).
  - pow2_const. lra.
  - unfold Binary64.emin. lia.
  - rewrite Rabs_pos_eq by lra. pow2_const. lra.
  - pow2_const. apply Rabs_def1; lra.
Qed.

Lemma round_899_tenths :
  Binary64.round (899 * (3602879701896397 / 36028797018963968))
  = 6326150101571994 / 70368744177664.
Proof.
  rewrite (round_eval _ (-46) 6326150101571994).
  - pow2_const. lra.
  - unfold Binary64.emin. lia.
  - rewrite Rabs_pos_eq by lra. pow2_const. lra.
  - pow2_const. apply Rabs_def1; lra.
Qed.

Lemma round_900_tenths :
  Binary64.round (6326150101571994 / 70368744177664
                  + 3602879701896397 / 36028797018963968) = 90.
Proof.
  rewrite (round_eval _ (-46) 6333186975989760).
  - pow2_const. lra.
  - unfold Binary64.emin. lia.
  - rewrite Rabs_pos_eq by lra. pow2_const. lra.
  - pow2_const. apply Rabs_def1; lra.
Qed.

Lemma tenth_times_valid :
  forall max_t : double,
    Binary64.is_double max_t -> 1 <= max_t <= 100 ->
    valid_times scenario_dt max_t.
Proof.
  intros max_t Hm Hr. unfold valid_times.
  split; [exact scenario_dt_is_double |].
  split; [exact Hm |].
  rewrite scenario_dt_value. unfold Std.epsilon.
  pose proof (pow2_le 7 1022 ltac:(lia)) as Hp.
  rewrite (pow2_Zpos 7) in Hp. change (2 ^ 7)%Z with 128%Z in Hp.
  repeat split; lra.
Qed.

Lemma three_is_double : Binary64.is_double 3.
Proof.
  apply (is_double_intro 3 3 0).
  - simpl. lra.
  - reflexivity.
  - unfold Binary64.emin. lia.
Qed.

Lemma ninety_is_double : Binary64.is_double 90.
Proof.
  apply (is_double_intro 90 90 0).
  - simpl. lra.
  - reflexivity.
  - unfold Binary64.emin. lia.
Qed.

(** With dt = 0.1 and max_t = 3 the test fails after 29 steps: the next
    time would be the double 3.0000000000000004, which exceeds max_t by
    2^-51, more than the machine epsilon. *)
Lemma tenth_tests_up_to_3 :
  (forall k : nat,
      (k < 29)%nat ->
      less_eq_with_sign (rd := binary64)
        (rnd (Rounding := binary64)
             (time_at (rd := binary64) 0 scenario_dt k + scenario_dt))
        3 scenario_dt = true)
  /\ less_eq_with_sign (rd := binary64)
       (rnd (Rounding := binary64)
            (time_at (rd := binary64) 0 scenario_dt 29 + scenario_dt))
       3 scenario_dt = false.
Proof.
  pose proof (tenth_times_valid 3 three_is_double ltac:(lra)) as Hv.
  destruct (valid_times_grid _ _ Hv) as [Hgd Hgm].
  assert (Hdt : 0 < scenario_dt) by (rewrite scenario_dt_value; lra).
  split.
  - intros k Hk.
    apply binary64_test_true_by_bound; try assumption.
    assert (Hk' : INR (S k) <= 29).
    { replace 29 with (INR 29) by (simpl; lra). apply le_INR. lia. }
    pose proof (pos_INR (S k)) as Hk0.
    rewrite scenario_dt_value, unit_roundoff_value.
    set (c := 3602879701896397 / 36028797018963968
              * ((1 + / 9007199254740992) * (1 + / 9007199254740992))).
    assert (Hc : 0 < c <= 3 / 29) by (unfold c; lra).
    replace (INR (S k) * (3602879701896397 / 36028797018963968)
             * ((1 + / 9007199254740992) * (1 + / 9007199254740992)))
      with (INR (S k) * c) by (unfold c; ring).
    nra.
  - rewrite binary64_test by exact Hdt.
    replace (INR 29) with 29 by (simpl; lra).
    rewrite scenario_dt_value, round_29_tenths, round_30_tenths.
    replace (6755399441055745 / 2251799813685248 - 3)
      with (IZR 1 * powerRZ 2 (-51)) by (pow2_const; lra).
    rewrite round_id_strict
      by (try reflexivity; unfold Binary64.emin; lia).
    destruct (Rle_dec (1 * powerRZ 2 (-51)) Std.epsilon) as [H | H];
      [| reflexivity].
    exfalso. revert H. unfold Std.epsilon. pow2_const. lra.
Qed.

(** With dt = 0.1 and max_t = 90 the test still holds after 899 steps: the
    next time is the double 90, although 900 times the double 0.1 exceeds
    90 by more than the machine epsilon. *)
Lemma tenth_tests_up_to_90 :
  (forall k : nat,
      (k < 900)%nat ->
      less_eq_with_sign (rd := binary64)
        (rnd (Rounding := binary64)
             (time_at (rd := binary64) 0 scenario_dt k + scenario_dt))
        90 scenario_dt = true)
  /\ less_eq_with_sign (rd := binary64)
       (rnd (Rounding := binary64)
            (time_at (rd := binary64) 0 scenario_dt 900 + scenario_dt))
       90 scenario_dt = false.
Proof.
  pose proof (tenth_times_valid 90 ninety_is_double ltac:(lra)) as Hv.
  destruct (valid_times_grid _ _ Hv) as [Hgd Hgm].
  assert (Hdt : 0 < scenario_dt) by (rewrite scenario_dt_value; lra).
  split.
  - intros k Hk.
    destruct (Nat.eq_dec k 899) as [-> | Hne].
    + rewrite binary64_test by exact Hdt.
      replace (INR 899) with 899 by (rewrite INR_IZR_INZ; reflexivity).
      rewrite scenario_dt_value, round_899_tenths, round_900_tenths.
      replace (90 - 90) with 0 by ring. rewrite round_0.
      pose proof epsilon_pos as He.
      destruct (Rle_dec 0 Std.epsilon) as [_ | Hn]; [reflexivity | lra].
    + apply binary64_test_true_by_bound; try assumption.
      assert (Hk' : INR (S k) <= 899).
      { replace 899 with (INR 899) by (rewrite INR_IZR_INZ; reflexivity).
        apply le_INR. lia. }
      pose proof (pos_INR (S k)) as Hk0.
      rewrite scenario_dt_value, unit_roundoff_value.
      set (c := 3602879701896397 / 36028797018963968
                * ((1 + / 9007199254740992) * (1 + / 9007199254740992))).
      assert (Hc : 0 < c <= 90 / 899) by (unfold c; lra).
      replace (INR (S k) * (3602879701896397 / 36028797018963968)
               * ((1 + / 9007199254740992) * (1 + / 9007199254740992)))
        with (INR (S k) * c) by (unfold c; ring).
      nra.
  - apply binary64_test_false_by_bound; try assumption.
    replace (INR 901) with 901 by (rewrite INR_IZR_INZ; reflexivity).
    rewrite scenario_dt_value, unit_roundoff_value. unfold Std.epsilon.
    lra.
Qed.

(** The number of steps of the constant-input entry point with dt = 0.1 in
    the two arithmetics: 30 and 29 for max_t = 3, 899 and 900 for
    max_t = 90. *)
Lemma rounding_changes_step_count :
  (exists r_exact r_double,
      OnePlant.one_plant_integrate (rd := exact_arithmetic) rk4 (1/10) 1
        (1/5) (1/20) (1/10) (3/10) (1/20) (1/10) 1 5 (1/2) 1 2 1 1 2
        scenario_dt 3 1 1 1 = Some r_exact
      /\ OnePlant.one_plant_integrate (rd := binary64) rk4 (1/10) 1
           (1/5) (1/20) (1/10) (3/10) (1/20) (1/10) 1 5 (1/2) 1 2 1 1 2
           scenario_dt 3 1 1 1 = Some r_double
      /\ int_steps r_exact = 30%nat
      /\ int_steps r_double = 29%nat)
  /\ (exists r_exact r_double,
         OnePlant.one_plant_integrate (rd := exact_arithmetic) rk4 (1/10) 1
           (1/5) (1/20) (1/10) (3/10) (1/20) (1/10) 1 5 (1/2) 1 2 1 1 2
           scenario_dt 90 1 1 1 = Some r_exact
         /\ OnePlant.one_plant_integrate (rd := binary64) rk4 (1/10) 1
              (1/5) (1/20) (1/10) (3/10) (1/20) (1/10) 1 5 (1/2) 1 2 1 1 2
              scenario_dt 90 1 1 1 = Some r_double
         /\ int_steps r_exact = 899%nat
         /\ int_steps r_double = 900%nat).
Proof.
  assert (Hdt : 0 < scenario_dt) by (rewrite scenario_dt_value; lra).
  pose proof epsilon_pos as He. pose proof epsilon_small as Hs.
  unfold OnePlant.one_plant_integrate.
  rewrite !integrate_const_forward by exact Hdt.
  split.
  - destruct tenth_tests_up_to_3 as [Hyes Hno].
    destruct (integrate_const_binary64_steps (counted OnePlant.system)
                OnePlant.observe rk4
                (OnePlant.make (1/10) 1 (1/5) (1/20) (1/10) (3/10) (1/20)
                               (1/10) 1 5 (1/2) 1 2 1 1 2, 0%nat)
                (vec_set (vec_set (vec_set (repeat 0 3) 0 1) 1 1) 2 1)
                scenario_dt 3 OnePlant.OnePlantObserver_new 29
                (tenth_times_valid 3 three_is_double ltac:(lra)) Hyes Hno)
      as [Hrun _].
    rewrite Hrun. eexists. eexists.
    split; [reflexivity |]. split; [reflexivity |].
    cbn [int_steps]. split; [| reflexivity].
    apply step_count_eq; [exact Hdt | |];
      rewrite scenario_dt_value; unfold Std.epsilon;
      rewrite INR_IZR_INZ; simpl IZR; lra.
  - destruct tenth_tests_up_to_90 as [Hyes Hno].
    destruct (integrate_const_binary64_steps (counted OnePlant.system)
                OnePlant.observe rk4
                (OnePlant.make (1/10) 1 (1/5) (1/20) (1/10) (3/10) (1/20)
                               (1/10) 1 5 (1/2) 1 2 1 1 2, 0%nat)
                (vec_set (vec_set (vec_set (repeat 0 3) 0 1) 1 1) 2 1)
                scenario_dt 90 OnePlant.OnePlantObserver_new 900
                (tenth_times_valid 90 ninety_is_double ltac:(lra)) Hyes Hno)
      as [Hrun _].
    rewrite Hrun. eexists. eexists.
    split; [reflexivity |]. split; [reflexivity |].
    cbn [int_steps]. split; [| reflexivity].
    apply step_count_eq; [exact Hdt | |];
      rewrite scenario_dt_value; unfold Std.epsilon;
      rewrite INR_IZR_INZ; simpl IZR; lra.
Qed.

(** ** Validation of the landscape entry point *)

Lemma len_check_raised :
  forall (vec : VecType) (name : string) (np : nat),
    len_check true vec name np = true.
Proof.
  intros. unfold len_check. now destruct (Nat.eqb _ _).
Qed.

Lemma len_check_mismatch :
  forall (err : bool) (vec : VecType) (name : string) (np : nat),
    length vec <> np -> len_check err vec name np = true.
Proof.
  intros err vec name np H. unfold len_check.
  destruct (Nat.eqb_spec (length vec) np); [contradiction | reflexivity].
Qed.

Lemma len_check_match :
  forall (err : bool) (vec : VecType) (name : string) (np : nat),
    length vec = np -> len_check err vec name np = err.
Proof.
  intros err vec name np H. unfold len_check.
  destruct (Nat.eqb_spec (length vec) np); [reflexivity | contradiction].
Qed.

(** C8.  For every call of the landscape entry point in which one of the
    vectors d_yp, d_b0, d_bp, g_yp, g_b0, g_bp, L_0, Y0, B0 has a length
    different from the length of m, the function returns the empty 0 by 0
    matrix, and no integration step and no evaluation of the dynamics
    function takes place. *)
Theorem landscape_length_mismatch :
  forall (stepper : Tableau) (m d_yp d_b0 d_bp g_yp g_b0 g_bp L_0 : VecType)
         (u X : double) (Y0 B0 : VecType) (dt max_t : double),
    (length d_yp <> length m \/ length d_b0 <> length m
     \/ length d_bp <> length m \/ length g_yp <> length m
     \/ length g_b0 <> length m \/ length g_bp <> length m
     \/ length L_0 <> length m \/ length Y0 <> length m
     \/ length B0 <> length m) ->
    LandConstF.landscape_constantF_ode stepper m d_yp d_b0 d_bp g_yp g_b0 g_bp
                                       L_0 u X Y0 B0 dt max_t
    = Some (LandConstF.mkOutcome (mkNumericMatrix 0 0 []) 0 0).
Proof.
  intros stepper m d_yp d_b0 d_bp g_yp g_b0 g_bp L_0 u X Y0 B0 dt max_t H.
  unfold LandConstF.landscape_constantF_ode.
  set (np := length m) in *.
  assert (Herr :
    len_check (len_check (len_check (len_check (len_check (len_check
      (len_check (len_check (len_check false d_yp "d_yp" np) d_b0 "d_b0" np)
      d_bp "d_bp" np) g_yp "g_yp" np) g_b0 "g_b0" np) g_bp "g_bp" np)
      L_0 "L_0" np) Y0 "Y0" np) B0 "B0" np = true).
  { destruct H as [H | [H | [H | [H | [H | [H | [H | [H | H]]]]]]]];
      repeat first [ rewrite (len_check_mismatch _ _ _ _ H)
                   | rewrite len_check_raised ];
      reflexivity. }
  cbv zeta. rewrite Herr. reflexivity.
Qed.

Lemma landscape_length_mismatch_witness :
  LandConstF.landscape_constantF_ode rk4 [1/10; 1/10] [1/5] [1/20; 1/20]
    [1/10; 1/10] [3/10; 3/10] [1/20; 1/20] [1/10; 1/10] [1; 1] 1 1
    [1/2; 1/2] [1/10; 1/10] (1/10) 1
  = Some (LandConstF.mkOutcome (mkNumericMatrix 0 0 []) 0 0).
Proof.
  apply (landscape_length_mismatch rk4 [1/10; 1/10] [1/5]).
  left. simpl. lia.
Defined.

(** ** Invariants of the integration

    A property of the system object and a property of states that every
    evaluation of the dynamics function and both operations of the state
    algebra preserve are preserved by every stage, every step and every
    record of a run. *)

Section Invariants.

Context {rd : Rounding} {St : Type} {SA : StateAlgebra St} {Sys : Type}.
Variable system : Sys -> St -> double -> Sys * St.
Variable tab : Tableau.
Variables start_time dt : double.
Variable sys_ok : Sys -> Prop.
Variable st_ok : St -> Prop.

Hypothesis system_ok :
  forall sys x t,
    sys_ok sys -> st_ok x ->
    sys_ok (fst (system sys x t)) /\ st_ok (snd (system sys x t)).
Hypothesis add_ok : forall a b, st_ok a -> st_ok b -> st_ok (st_add a b).
Hypothesis scale_ok : forall c a, st_ok a -> st_ok (st_scale c a).

Lemma axpy_ok :
  forall coeffs ks x h,
    st_ok x -> Forall st_ok ks -> st_ok (axpy x h coeffs ks).
Proof.
  induction coeffs as [|a coeffs IH]; intros ks x h Hx Hks; cbn [axpy].
  - exact Hx.
  - destruct ks as [|k ks]; [exact Hx |].
    inversion Hks; subst. apply IH; [| assumption].
    apply add_ok; [assumption |]. apply scale_ok. assumption.
Qed.

Lemma rk_stages_ok :
  forall rows sys x t h ks,
    sys_ok sys -> st_ok x -> Forall st_ok ks ->
    sys_ok (fst (rk_stages system rows sys x t h ks))
    /\ Forall st_ok (snd (rk_stages system rows sys x t h ks)).
Proof.
  induction rows as [|[c a] rows IH]; intros sys x t h ks Hs Hx Hks;
    cbn [rk_stages].
  - split; assumption.
  - destruct (system_ok sys (axpy x h a ks) (t + c * h) Hs
                        (axpy_ok a ks x h Hx Hks)) as [Hs' Hk].
    destruct (system sys (axpy x h a ks) (t + c * h)) as [sys' k].
    cbn [fst snd] in Hs', Hk.
    apply IH; try assumption.
    apply Forall_app. split; [assumption | constructor; [assumption | constructor]].
Qed.

Lemma do_step_ok :
  forall sys x t h,
    sys_ok sys -> st_ok x ->
    sys_ok (fst (do_step system tab sys x t h))
    /\ st_ok (snd (do_step system tab sys x t h)).
Proof.
  intros sys x t h Hs Hx. unfold do_step.
  destruct (rk_stages_ok (rk_rows tab) sys x t h [] Hs Hx (Forall_nil _))
    as [Hs' Hks].
  destruct (rk_stages system (rk_rows tab) sys x t h []) as [sys' ks].
  cbn [fst snd] in *. split; [assumption |].
  apply axpy_ok; assumption.
Qed.

Lemma steps_from_ok :
  forall n sys x step,
    sys_ok sys -> st_ok x ->
    sys_ok (fst (steps_from system tab start_time dt n sys x step))
    /\ st_ok (snd (steps_from system tab start_time dt n sys x step)).
Proof.
  induction n as [|n IH]; intros sys x step Hs Hx; cbn [steps_from].
  - split; assumption.
  - destruct (do_step_ok sys x (time_at start_time dt step) dt Hs Hx)
      as [Hs' Hx'].
    destruct (do_step system tab sys x (time_at start_time dt step) dt)
      as [sys' x'].
    apply IH; assumption.
Qed.

Lemma records_from_ok :
  forall n sys x step,
    sys_ok sys -> st_ok x ->
    Forall (fun r => st_ok (fst r))
           (records_from system tab start_time dt n sys x step).
Proof.
  induction n as [|n IH]; intros sys x step Hs Hx; cbn [records_from].
  - constructor; [exact Hx | constructor].
  - destruct (do_step_ok sys x (time_at start_time dt step) dt Hs Hx)
      as [Hs' Hx'].
    destruct (do_step system tab sys x (time_at start_time dt step) dt)
      as [sys' x'].
    constructor; [exact Hx |]. apply IH; assumption.
Qed.

End Invariants.

(** The ghost counter does not disturb an invariant of the system. *)
Lemma counted_ok :
  forall {St Sys : Type} (system : Sys -> St -> double -> Sys * St)
         (sys_ok : Sys -> Prop) (st_ok : St -> Prop),
    (forall sys x t, sys_ok sys -> st_ok x ->
                     sys_ok (fst (system sys x t))
                     /\ st_ok (snd (system sys x t))) ->
    forall sn x t,
      sys_ok (fst sn) -> st_ok x ->
      sys_ok (fst (fst (counted system sn x t)))
      /\ st_ok (snd (counted system sn x t)).
Proof.
  intros St Sys system sys_ok st_ok H sn x t Hs Hx. unfold counted.
  specialize (H (fst sn) x t Hs Hx).
  destruct (system (fst sn) x t) as [sys' dxdt]. exact H.
Qed.

(** ** Shape of the single-plant state *)

Lemma zip_with_length :
  forall {A B C : Type} (f : A -> B -> C) (l1 : list A) (l2 : list B),
    length l1 = length l2 -> length (zip_with f l1 l2) = length l1.
Proof.
  intros A B C f. induction l1 as [|a l1 IH]; intros [|b l2] H;
    simpl in *; try discriminate; auto.
Qed.

Lemma vec_add_length :
  forall (n : nat) (a b : VecType),
    length a = n -> length b = n -> length (st_add a b) = n.
Proof.
  intros n a b Ha Hb. cbn [st_add VecAlgebra].
  rewrite zip_with_length; congruence.
Qed.

Lemma vec_scale_length :
  forall (n : nat) (c : double) (a : VecType),
    length a = n -> length (st_scale c a) = n.
Proof.
  intros n c a Ha. cbn [st_scale VecAlgebra]. now rewrite length_map.
Qed.

Lemma one_plant_system_shape :
  forall (sn : OnePlant.OnePlantSystemFunction * nat) (x : VecType) (t : double),
    True -> length x = 3%nat ->
    True /\ length (snd (counted OnePlant.system sn x t)) = 3%nat.
Proof.
  intros. split; [exact I | reflexivity].
Qed.

(** ** The recomputed "P" column *)

Lemma records_from_head :
  forall {rd : Rounding} {St : Type} {SA : StateAlgebra St} {Sys : Type}
         (system : Sys -> St -> double -> Sys * St) (tab : Tableau)
         (start_time dt : double) (n : nat) (sys : Sys) (x : St) (step : nat),
    exists rest,
      records_from system tab start_time dt n sys x step
      = (x, time_at start_time dt step) :: rest.
Proof.
  intros. destruct n; cbn [records_from]; eexists; reflexivity.
Qed.

(** In the seasonal entry point the "P" column of a sample is the
    visitation rate its dynamics function computes at that sample. *)
Lemma season_P_column_matches :
  forall (m d_yp d_b0 d_bp g_yp g_b0 g_bp L_0 P_max q s_0 h f_0 F_tilde u
          R_hat t0 k lambda t Y B N : double),
    last (OnePlantSeason.output_row P_max q (Std.pow s_0 h) h (Std.pow f_0 u)
                                    F_tilde u 3 t [Y; B; N]) 0
    = OnePlantSeason.visitation
        (OnePlantSeason.make m d_yp d_b0 d_bp g_yp g_b0 g_bp L_0 P_max q s_0
                             h f_0 F_tilde u R_hat t0 k lambda) [Y; B; N].
Proof.
  intros. unfold OnePlantSeason.output_row, OnePlantSeason.visitation.
  rewrite last_last.
  cbn [seq fold_left nth OnePlantSeason.make OnePlantSeason.P_max
       OnePlantSeason.q OnePlantSeason.s_0_h OnePlantSeason.h
       OnePlantSeason.f_0_u OnePlantSeason.F_tilde OnePlantSeason.u].
  replace (0 + Y + B + N) with (Y + B + N) by ring.
  reflexivity.
Qed.

(** In the constant-input entry point the "P" column is computed with
    phi = F^u / (f_0^u + F^u): the total F is not divided by F + F_tilde. *)
Lemma one_plant_P_column :
  forall (P_max q s_0 h f_0 u t Y B N : double),
    last (OnePlant.output_row P_max q (Std.pow s_0 h) h (Std.pow f_0 u) u 3 t
                              [Y; B; N]) 0
    = let F := Y + B + N in
      let phi := Std.pow F u / (Std.pow f_0 u + Std.pow F u) in
      let psi := Std.pow s_0 h / (Std.pow s_0 h + Std.pow (B / F) h) in
      P_max * (q * psi + (1 - q) * phi).
Proof.
  intros. unfold OnePlant.output_row.
  rewrite last_last. cbn [seq fold_left nth].
  replace (0 + Y + B + N) with (Y + B + N) by ring.
  reflexivity.
Qed.

Lemma one_plant_visitation_matches_spec :
  forall (m R d_yp d_b0 d_bp g_yp g_b0 g_bp L_0 P_max q s_0 h f_0 F_tilde u
          Y B N : double),
    OnePlant.visitation
      (OnePlant.make m R d_yp d_b0 d_bp g_yp g_b0 g_bp L_0 P_max q s_0 h f_0
                     F_tilde u) [Y; B; N]
    = Spec.visitation_rate P_max q s_0 h f_0 F_tilde u Y B N.
Proof.
  intros. reflexivity.
Qed.

Lemma one_plant_initial_state_shape :
  forall Y0 B0 N0 : double,
    vec_set (vec_set (vec_set (repeat 0 3) 0 Y0) 1 B0) 2 N0 = [Y0; B0; N0].
Proof.
  intros. reflexivity.
Qed.

(** C5, at the first sample of the scenario of Section 8 (state (1, 1, 1)):
    the "P" column written by [one_plant_ode] is 9/2, while the visitation
    rate of the dynamics function, and of the spec's algebra, is 63/20. *)
Theorem one_plant_ode_P_column_differs :
  exists out,
    OnePlant.one_plant_ode rk4 (1/10) 1 (1/5) (1/20) (1/10) (3/10) (1/20)
      (1/10) 1 5 (1/2) 1 2 1 1 2 (1/10) 1 1 1 1 = Some out
    /\ nth 0 (cells out) [] = [0; 1; 1; 1; 9/2]
    /\ OnePlant.visitation
         (OnePlant.make (1/10) 1 (1/5) (1/20) (1/10) (3/10) (1/20) (1/10) 1 5
                        (1/2) 1 2 1 1 2) [1; 1; 1] = 63/20
    /\ Spec.visitation_rate 5 (1/2) 1 2 1 1 2 1 1 1 = 63/20.
Proof.
  unfold OnePlant.one_plant_ode, OnePlant.one_plant_integrate.
  rewrite integrate_const_forward by lra.
  cbn [int_obs int_state]. eexists. split; [reflexivity |].
  cbn [cells]. rewrite feed_one_plant_observer.
  cbn [OnePlant.time OnePlant.data OnePlant.OnePlantObserver_new app].
  set (n := step_count 0 1 (1/10)).
  rewrite one_plant_initial_state_shape.
  assert (Hsize :
    length (snd (steps_from (counted OnePlant.system) rk4 0 (1/10) n
                            (OnePlant.make (1/10) 1 (1/5) (1/20) (1/10) (3/10)
                               (1/20) (1/10) 1 5 (1/2) 1 2 1 1 2, 0%nat)
                            [1; 1; 1] 0)) = 3%nat).
  { apply (steps_from_ok (counted OnePlant.system) rk4 0 (1/10)
             (fun _ => True) (fun x => length x = 3%nat)).
    - apply one_plant_system_shape.
    - intros a b. apply vec_add_length.
    - intros c a. apply vec_scale_length.
    - exact I.
    - reflexivity. }
  rewrite Hsize.
  destruct (records_from_head (counted OnePlant.system) rk4 0 (1/10) n
              (OnePlant.make (1/10) 1 (1/5) (1/20) (1/10) (3/10)
                 (1/20) (1/10) 1 5 (1/2) 1 2 1 1 2, 0%nat) [1; 1; 1] 0)
    as [rest ->].
  cbn [map fst snd zip_with nth].
  assert (HP : Spec.visitation_rate 5 (1/2) 1 2 1 1 2 1 1 1 = 63/20).
  { unfold Spec.visitation_rate.
    replace (1 + 1 + 1) with 3 by lra.
    replace (3 / (3 + 1)) with (3/4) by lra.
    rewrite !pow_two_exponent by lra. field. }
  split; [| split; [exact HP | exact HP]].
  unfold OnePlant.output_row. cbn [seq map fold_left nth app INR].
  replace (0 + 1 + 1 + 1) with 3 by lra.
  rewrite !pow_two_exponent by lra.
  apply (f_equal (fun p => [0; 1; 1; 1; p])). field.
Qed.

(** ** Symmetry of the landscape model *)

Lemma nth_zip_with :
  forall {A B C : Type} (f : A -> B -> C) (l1 : list A) (l2 : list B)
         (i : nat) (d1 : A) (d2 : B) (d : C),
    (i < length l1)%nat -> length l1 = length l2 ->
    nth i (zip_with f l1 l2) d = f (nth i l1 d1) (nth i l2 d2).
Proof.
  intros A B C f. induction l1 as [|a l1 IH]; intros [|b l2] i d1 d2 d Hi Hlen;
    simpl in *; try lia.
  destruct i as [|i]; [reflexivity |]. apply IH; lia.
Qed.

Lemma nth_map_in_range :
  forall {A B : Type} (f : A -> B) (l : list A) (i : nat) (d : A) (d' : B),
    (i < length l)%nat -> nth i (map f l) d' = f (nth i l d).
Proof.
  intros A B f l i d d' Hi.
  rewrite (nth_indep _ d' (f d)) by (now rewrite length_map).
  apply map_nth.
Qed.

Lemma mat_add_same_rows :
  forall (n i j : nat) (a b : MatType),
    (i < n)%nat -> (j < n)%nat ->
    same_rows n i j a -> same_rows n i j b -> same_rows n i j (st_add a b).
Proof.
  intros n i j a b Hi Hj [Ha Hai] [Hb Hbi]. cbn [st_add MatAlgebra]. split.
  - rewrite zip_with_length; congruence.
  - rewrite (nth_zip_with row_add a b i (0, 0) (0, 0)) by lia.
    rewrite (nth_zip_with row_add a b j (0, 0) (0, 0)) by lia.
    now rewrite Hai, Hbi.
Qed.

Lemma mat_scale_same_rows :
  forall (n i j : nat) (c : double) (a : MatType),
    (i < n)%nat -> (j < n)%nat ->
    same_rows n i j a -> same_rows n i j (st_scale c a).
Proof.
  intros n i j c a Hi Hj [Ha Hai]. cbn [st_scale MatAlgebra]. split.
  - now rewrite length_map.
  - rewrite (nth_map_in_range (row_scale c) a i (0, 0)) by lia.
    rewrite (nth_map_in_range (row_scale c) a j (0, 0)) by lia.
    now rewrite Hai.
Qed.

(** Equal visited proportions give equal allocation weights. *)
Lemma allocation_weight_same_rows :
  forall (u X : double) (n i j : nat) (x : MatType),
    same_rows n i j x ->
    Spec.allocation_weight u X x i = Spec.allocation_weight u X x j.
Proof.
  intros u X n i j x [_ Hrow]. unfold Spec.allocation_weight, mat_get.
  now rewrite Hrow.
Qed.

(** One evaluation of the landscape dynamics function keeps the parameters
    and gives equal derivative rows to two plants with equal parameters and
    equal state rows. *)
Lemma call_same_rows :
  forall (n i j : nat) (sys : LandConstF.LandConstFSystemFunction)
         (x : MatType) (t : double),
    (i < n)%nat -> (j < n)%nat ->
    symmetric_system n i j sys -> same_rows n i j x ->
    symmetric_system n i j (fst (LandConstF.call sys x t))
    /\ same_rows n i j (snd (LandConstF.call sys x t)).
Proof.
  intros n i j sys x t Hi Hj [Hn Hpar] Hx.
  pose proof Hx as [Hlen Hrow].
  unfold LandConstF.call. cbn [fst snd]. split; [split |].
  - exact Hn.
  - exact Hpar.
  - cbn [LandConstF.set_weights LandConstF.n_plants]. rewrite Hn. split.
    + now rewrite length_map, length_seq.
    + rewrite !nth_map_seq by assumption.
      unfold LandConstF.one_plant.
      cbn [LandConstF.set_weights LandConstF.weights LandConstF.L_0
           LandConstF.g_yp LandConstF.g_b0 LandConstF.g_bp LandConstF.d_yp
           LandConstF.d_b0 LandConstF.d_bp LandConstF.m].
      rewrite !make_weights_nth by congruence.
      rewrite (allocation_weight_same_rows _ _ n i j x Hx).
      destruct Hpar as [-> [-> [-> [-> [-> [-> [-> ->]]]]]]].
      unfold mat_get. rewrite Hrow. reflexivity.
Qed.

(** The same for the functor with its ghost counter. *)
Lemma counted_call_same_rows :
  forall (n i j : nat),
    (i < n)%nat -> (j < n)%nat ->
    forall (sn : LandConstF.LandConstFSystemFunction * nat) (x : MatType)
           (t : double),
      symmetric_system n i j (fst sn) -> same_rows n i j x ->
      symmetric_system n i j (fst (fst (counted LandConstF.call sn x t)))
      /\ same_rows n i j (snd (counted LandConstF.call sn x t)).
Proof.
  intros n i j Hi Hj.
  apply (counted_ok LandConstF.call (symmetric_system n i j) (same_rows n i j)).
  intros sys x t. apply call_same_rows; assumption.
Qed.

(** Every integration step preserves the symmetry. *)
Lemma do_step_same_rows :
  forall (stepper : Tableau) (n i j : nat)
         (sn : LandConstF.LandConstFSystemFunction * nat) (x : MatType)
         (t dt : double),
    (i < n)%nat -> (j < n)%nat ->
    symmetric_system n i j (fst sn) -> same_rows n i j x ->
    symmetric_system n i j
      (fst (fst (do_step (counted LandConstF.call) stepper sn x t dt)))
    /\ same_rows n i j (snd (do_step (counted LandConstF.call) stepper sn x t dt)).
Proof.
  intros stepper n i j sn x t dt Hi Hj Hs Hx.
  apply (do_step_ok (counted LandConstF.call) stepper
                    (fun sn => symmetric_system n i j (fst sn))
                    (same_rows n i j)); try assumption.
  - apply counted_call_same_rows; assumption.
  - intros a b. apply mat_add_same_rows; assumption.
  - intros c a. apply mat_scale_same_rows; assumption.
Qed.

Lemma make_weights_same_rows :
  forall (n i j : nat) (sys : LandConstF.LandConstFSystemFunction)
         (wts_vec : VecType) (x : MatType),
    (i < n)%nat -> (j < n)%nat ->
    LandConstF.n_plants sys = n -> same_rows n i j x ->
    nth i (LandConstF.make_weights sys wts_vec x) 0
    = nth j (LandConstF.make_weights sys wts_vec x) 0.
Proof.
  intros n i j sys wts_vec x Hi Hj Hn Hx. pose proof Hx as [Hlen _].
  rewrite !make_weights_nth by congruence.
  apply (allocation_weight_same_rows _ _ n). exact Hx.
Qed.

(** Two plants with equal parameters and equal initial values have equal
    rows in every recorded state, for any number of plants. *)
Lemma landscape_run_same_rows :
  forall (stepper : Tableau) (m d_yp d_b0 d_bp g_yp g_b0 g_bp L_0 : VecType)
         (u X : double) (Y0 B0 : VecType) (dt max_t : double) (i j : nat),
    0 < dt ->
    (i < length m)%nat -> (j < length m)%nat ->
    same_parameters (LandConstF.make m d_yp d_b0 d_bp g_yp g_b0 g_bp L_0 u X) i j ->
    nth i Y0 0 = nth j Y0 0 ->
    nth i B0 0 = nth j B0 0 ->
    exists r,
      LandConstF.landscape_integrate stepper m d_yp d_b0 d_bp g_yp g_b0 g_bp
                                     L_0 u X Y0 B0 dt max_t = Some r
      /\ symmetric_system (length m) i j (fst (int_sys r))
      /\ Forall (same_rows (length m) i j) (data (int_obs r)).
Proof.
  intros stepper m d_yp d_b0 d_bp g_yp g_b0 g_bp L_0 u X Y0 B0 dt max_t i j
         Hdt Hi Hj Hpar HY HB.
  unfold LandConstF.landscape_integrate.
  rewrite integrate_const_forward by exact Hdt.
  eexists. split; [reflexivity |]. cbn [int_sys int_obs].
  set (sys0 := LandConstF.make m d_yp d_b0 d_bp g_yp g_b0 g_bp L_0 u X) in *.
  set (x0 := map (fun i0 => (nth i0 Y0 0, nth i0 B0 0)) (seq 0 (length m))).
  assert (Hs0 : symmetric_system (length m) i j (fst (sys0, 0%nat))).
  { split; [reflexivity | exact Hpar]. }
  assert (Hx0 : same_rows (length m) i j x0).
  { split.
    - unfold x0. now rewrite length_map, length_seq.
    - unfold x0. rewrite !nth_map_seq by assumption. now rewrite HY, HB. }
  split.
  - apply (steps_from_ok (counted LandConstF.call) stepper 0 dt
             (fun sn => symmetric_system (length m) i j (fst sn))
             (same_rows (length m) i j)); try assumption.
    + apply counted_call_same_rows; assumption.
    + intros a b. apply mat_add_same_rows; assumption.
    + intros c a. apply mat_scale_same_rows; assumption.
  - rewrite feed_observer. cbn [data Observer_new app].
    apply Forall_map.
    apply (records_from_ok (counted LandConstF.call) stepper 0 dt
             (fun sn => symmetric_system (length m) i j (fst sn))
             (same_rows (length m) i j)); try assumption.
    + apply counted_call_same_rows; assumption.
    + intros a b. apply mat_add_same_rows; assumption.
    + intros c a. apply mat_scale_same_rows; assumption.
Qed.

(** C9.  Equality of two plants' parameters and state rows is preserved by
    every integration step; and in the landscape run with exactly two
    plants with identical parameters, u = 1, X = 1, Y0 = [0.5, 0.5] and
    B0 = [0.1, 0.1], the two rows of every recorded state are equal and so
    are the two allocation weights computed from it. *)
Theorem identical_plants_stay_identical :
  forall (stepper : Tableau) (dt : double),
    0 < dt ->
    (forall (n i j : nat) (sn : LandConstF.LandConstFSystemFunction * nat)
            (x : MatType) (t : double),
        (i < n)%nat -> (j < n)%nat ->
        symmetric_system n i j (fst sn) -> same_rows n i j x ->
        symmetric_system n i j
          (fst (fst (do_step (counted LandConstF.call) stepper sn x t dt)))
        /\ same_rows n i j
             (snd (do_step (counted LandConstF.call) stepper sn x t dt)))
    /\
    (forall (m d_yp d_b0 d_bp g_yp g_b0 g_bp L_0 max_t : double),
        exists r,
          LandConstF.landscape_integrate stepper [m; m] [d_yp; d_yp]
            [d_b0; d_b0] [d_bp; d_bp] [g_yp; g_yp] [g_b0; g_b0] [g_bp; g_bp]
            [L_0; L_0] 1 1 [1/2; 1/2] [1/10; 1/10] dt max_t = Some r
          /\ forall d : MatType,
              In d (data (int_obs r)) ->
              length d = 2%nat
              /\ nth 0 d (0, 0) = nth 1 d (0, 0)
              /\ forall wts : VecType,
                  nth 0 (LandConstF.make_weights (fst (int_sys r)) wts d) 0
                  = nth 1 (LandConstF.make_weights (fst (int_sys r)) wts d) 0).
Proof.
  intros stepper dt Hdt. split.
  - intros n i j sn x t Hi Hj Hs Hx. apply do_step_same_rows; assumption.
  - intros m d_yp d_b0 d_bp g_yp g_b0 g_bp L_0 max_t.
    destruct (landscape_run_same_rows stepper [m; m] [d_yp; d_yp]
                [d_b0; d_b0] [d_bp; d_bp] [g_yp; g_yp] [g_b0; g_b0]
                [g_bp; g_bp] [L_0; L_0] 1 1 [1/2; 1/2] [1/10; 1/10] dt max_t
                0%nat 1%nat Hdt)
      as [r [Hr [[Hn Hpar] Hall]]];
      try (simpl; lia); try reflexivity.
    { repeat split. }
    exists r. split; [exact Hr |].
    intros d Hd. rewrite Forall_forall in Hall. specialize (Hall d Hd).
    cbn [length] in Hall, Hn. destruct Hall as [Hlen Hrow].
    split; [exact Hlen |]. split; [exact Hrow |].
    intros wts. apply (make_weights_same_rows 2); try lia; try assumption.
    split; assumption.
Qed.

Lemma identical_plants_stay_identical_witness :
  exists r,
    LandConstF.landscape_integrate rk4 [1/10; 1/10] [1/5; 1/5] [1/20; 1/20]
      [1/10; 1/10] [3/10; 3/10] [1/20; 1/20] [1/10; 1/10] [1; 1] 1 1
      [1/2; 1/2] [1/10; 1/10] (1/10) 1 = Some r
    /\ forall d : MatType,
        In d (data (int_obs r)) ->
        length d = 2%nat
        /\ nth 0 d (0, 0) = nth 1 d (0, 0)
        /\ forall wts : VecType,
            nth 0 (LandConstF.make_weights (fst (int_sys r)) wts d) 0
            = nth 1 (LandConstF.make_weights (fst (int_sys r)) wts d) 0.
Proof.
  apply (proj2 (identical_plants_stay_identical rk4 (1/10) ltac:(lra))
               (1/10) (1/5) (1/20) (1/10) (3/10) (1/20) (1/10) 1 1).
Defined.

(** ** The single-plant scenario *)

Lemma saturation_bounds :
  forall a c : double, 0 <= a -> 0 < c -> 0 <= a / (c + a) <= 1.
Proof.
  intros a c Ha Hc.
  assert (Hi : 0 < / (c + a)) by (apply Rinv_0_lt_compat; lra).
  split.
  - apply Rmult_le_pos; lra.
  - apply Rmult_le_reg_r with (r := c + a); [lra |].
    unfold Rdiv. rewrite Rmult_assoc, Rinv_l by lra. lra.
Qed.

Lemma inhibition_bounds :
  forall a c : double, 0 <= a -> 0 < c -> 0 <= c / (c + a) <= 1.
Proof.
  intros a c Ha Hc.
  assert (Hi : 0 < / (c + a)) by (apply Rinv_0_lt_compat; lra).
  split.
  - apply Rmult_le_pos; lra.
  - apply Rmult_le_reg_r with (r := c + a); [lra |].
    unfold Rdiv. rewrite Rmult_assoc, Rinv_l by lra. lra.
Qed.

Lemma fraction_bounds :
  forall a F : double, 0 <= a -> a <= F -> 0 < F -> 0 <= a / F <= 1.
Proof.
  intros a F Ha HaF HF.
  assert (Hi : 0 < / F) by (apply Rinv_0_lt_compat; lra).
  split.
  - apply Rmult_le_pos; lra.
  - apply Rmult_le_reg_r with (r := F); [lra |].
    unfold Rdiv. rewrite Rmult_assoc, Rinv_l by lra. lra.
Qed.












Lemma euler_convex : convex_tableau euler.
Proof.
  unfold convex_tableau, convex_coeffs, euler. cbn [rk_rows rk_b].
  split; [| split].
  - repeat constructor; cbn [snd vec_sum fold_right]; lra.
  - repeat constructor; lra.
  - cbn [vec_sum fold_right]. lra.
Qed.

(** *** The ten steps *)










(** In the arithmetic of [double], a call of the landscape entry point with
    vectors of matching lengths and valid times is not answered by the
    sentinel: the integration runs, and the table has 5 columns and
    n_plants rows for the initial sample and for every step. *)
Lemma landscape_valid_call_runs :
  forall (stepper : Tableau) (m d_yp d_b0 d_bp g_yp g_b0 g_bp L_0 : VecType)
         (u X : double) (Y0 B0 : VecType) (dt max_t : double),
    valid_times dt max_t ->
    length d_yp = length m -> length d_b0 = length m ->
    length d_bp = length m -> length g_yp = length m ->
    length g_b0 = length m -> length g_bp = length m ->
    length L_0 = length m -> length Y0 = length m -> length B0 = length m ->
    exists out,
      LandConstF.landscape_constantF_ode (rd := binary64) stepper m d_yp
        d_b0 d_bp g_yp g_b0 g_bp L_0 u X Y0 B0 dt max_t = Some out
      /\ nrow (LandConstF.output out)
         = (S (LandConstF.steps_taken out) * length m)%nat
      /\ ncol (LandConstF.output out) = 5%nat.
Proof.
  intros stepper m d_yp d_b0 d_bp g_yp g_b0 g_bp L_0 u X Y0 B0 dt max_t Hv
         H1 H2 H3 H4 H5 H6 H7 H8 H9.
  unfold LandConstF.landscape_constantF_ode. cbv zeta.
  rewrite !len_check_match by assumption.
  unfold LandConstF.landscape_integrate.
  destruct (integrate_const_binary64 (counted LandConstF.call) Observer_call
              stepper
              (LandConstF.make m d_yp d_b0 d_bp g_yp g_b0 g_bp L_0 u X, 0%nat)
              (map (fun i => (nth i Y0 0, nth i B0 0)) (seq 0 (length m)))
              dt max_t Observer_new Hv) as [n [Hrun _]].
  rewrite Hrun. eexists. split; [reflexivity |].
  cbn [LandConstF.steps_taken LandConstF.output nrow ncol int_steps int_obs].
  split; [| reflexivity].
  rewrite feed_observer. cbn [data Observer_new app].
  now rewrite length_map, records_from_length.
Qed.

(* ================================================================== *)
(** * Further properties of the sources                                *)
(* ================================================================== *)

(** ** The single-plant dynamics functions *)

(** X1.  The seasonal dynamics function is the constant-input one with the
    member R replaced by the resource pulse at the time of the call: the
    two functors differ in nothing else. *)
Theorem season_call_is_one_plant_call_with_pulse :
  forall (m d_yp d_b0 d_bp g_yp g_b0 g_bp L_0 P_max q s_0 h f_0 F_tilde u
          R_hat t0 k lambda : double) (x : VecType) (t : double),
    let season := OnePlantSeason.make m d_yp d_b0 d_bp g_yp g_b0 g_bp L_0
                    P_max q s_0 h f_0 F_tilde u R_hat t0 k lambda in
    OnePlantSeason.call season x t
    = OnePlant.call
        (OnePlant.make m (OnePlantSeason.resource season t) d_yp d_b0 d_bp
                       g_yp g_b0 g_bp L_0 P_max q s_0 h f_0 F_tilde u) x t
    /\ OnePlantSeason.visitation season x
       = OnePlant.visitation
           (OnePlant.make m (OnePlantSeason.resource season t) d_yp d_b0 d_bp
                          g_yp g_b0 g_bp L_0 P_max q s_0 h f_0 F_tilde u) x.
Proof.
  intros. split; reflexivity.
Qed.

(** X2.  With no non-colonized flowers (N = 0, Y + B > 0) nothing is
    dispersed: both single-plant dynamics functions return
    (- m Y, - m B, R), R being the resource inflow at that time. *)
Theorem single_plant_derivative_without_N :
  forall (Y B t : double),
    Y + B > 0 ->
    (forall sys : OnePlant.OnePlantSystemFunction,
        OnePlant.call sys [Y; B; 0] t
        = [- OnePlant.m sys * Y; - OnePlant.m sys * B; OnePlant.R_in sys])
    /\ (forall sys : OnePlantSeason.OnePlantSeasonSystemFunction,
           OnePlantSeason.call sys [Y; B; 0] t
           = [- OnePlantSeason.m sys * Y; - OnePlantSeason.m sys * B;
              OnePlantSeason.resource sys t]).
Proof.
  intros Y B t _. split; intros sys.
  - unfold OnePlant.call. cbn [nth].
    repeat (apply (f_equal2 (@cons R)); [ring |]). reflexivity.
  - unfold OnePlantSeason.call. cbn [nth].
    repeat (apply (f_equal2 (@cons R)); [ring |]). reflexivity.
Qed.

Lemma single_plant_derivative_without_N_witness :
  (forall sys : OnePlant.OnePlantSystemFunction,
      OnePlant.call sys [1; 2; 0] 0
      = [- OnePlant.m sys * 1; - OnePlant.m sys * 2; OnePlant.R_in sys])
  /\ (forall sys : OnePlantSeason.OnePlantSeasonSystemFunction,
         OnePlantSeason.call sys [1; 2; 0] 0
         = [- OnePlantSeason.m sys * 1; - OnePlantSeason.m sys * 2;
            OnePlantSeason.resource sys 0]).
Proof.
  apply (single_plant_derivative_without_N 1 2 0). lra.
Defined.

(** The visitation rate of a system object whose cached powers are
    positive. *)
Lemma visitation_bounds :
  forall (sys : OnePlant.OnePlantSystemFunction) (Y B N : double),
    0 <= Y -> 0 <= B -> 0 <= N -> 0 < Y + B + N ->
    0 <= OnePlant.P_max sys -> 0 <= OnePlant.q sys <= 1 ->
    0 < OnePlant.s_0_h sys -> 0 < OnePlant.f_0_u sys ->
    0 <= OnePlant.F_tilde sys ->
    0 <= OnePlant.visitation sys [Y; B; N] <= OnePlant.P_max sys.
Proof.
  intros sys Y B N HY HB HN HF HP Hq Hs Hf Ht.
  unfold OnePlant.visitation. cbn [nth].
  assert (HBF' : B <= Y + B + N) by lra.
  set (F := Y + B + N) in *.
  assert (Hr : 0 <= F / (F + OnePlant.F_tilde sys))
    by (apply Rmult_le_pos; [lra | left; apply Rinv_0_lt_compat; lra]).
  assert (Hb : 0 <= B / F <= 1) by (apply fraction_bounds; assumption).
  pose proof (pow_nonneg _ (OnePlant.u sys) Hr) as HFF.
  pose proof (pow_nonneg _ (OnePlant.h sys) (proj1 Hb)) as HBF.
  pose proof (saturation_bounds _ (OnePlant.f_0_u sys) HFF Hf) as Hphi.
  pose proof (inhibition_bounds _ (OnePlant.s_0_h sys) HBF Hs) as Hpsi.
  set (phi := Std.pow (F / (F + OnePlant.F_tilde sys)) (OnePlant.u sys)
              / (OnePlant.f_0_u sys
                 + Std.pow (F / (F + OnePlant.F_tilde sys)) (OnePlant.u sys)))
    in *.
  set (psi := OnePlant.s_0_h sys
              / (OnePlant.s_0_h sys + Std.pow (B / F) (OnePlant.h sys))) in *.
  assert (Hmix : 0 <= OnePlant.q sys * psi + (1 - OnePlant.q sys) * phi <= 1)
    by nra.
  set (mix := OnePlant.q sys * psi + (1 - OnePlant.q sys) * phi) in *.
  split; nra.
Qed.

(** The pollination pressure Lambda = (P/F) / (L_0 + P/F). *)
Lemma pressure_bounds :
  forall P F L_0 : double,
    0 <= P -> 0 < F -> 0 < L_0 -> 0 <= P / F / (L_0 + P / F) <= 1.
Proof.
  intros P F L_0 HP HF HL. apply saturation_bounds; [| exact HL].
  apply Rmult_le_pos; [exact HP | left; apply Rinv_0_lt_compat; exact HF].
Qed.

(** X3.  For non-negative flower counts with a positive total and
    parameters P_max >= 0, 0 <= q <= 1, s_0 > 0, f_0 > 0, F_tilde >= 0, the
    visitation rate computed by either single-plant dynamics function lies
    between 0 and P_max. *)
Theorem visitation_within_P_max :
  forall (m R d_yp d_b0 d_bp g_yp g_b0 g_bp L_0 P_max q s_0 h f_0 F_tilde u
          R_hat t0 k lambda Y B N : double),
    0 <= Y -> 0 <= B -> 0 <= N -> 0 < Y + B + N ->
    0 <= P_max -> 0 <= q <= 1 -> 0 < s_0 -> 0 < f_0 -> 0 <= F_tilde ->
    0 <= OnePlant.visitation
           (OnePlant.make m R d_yp d_b0 d_bp g_yp g_b0 g_bp L_0 P_max q s_0 h
                          f_0 F_tilde u) [Y; B; N] <= P_max
    /\ 0 <= OnePlantSeason.visitation
              (OnePlantSeason.make m d_yp d_b0 d_bp g_yp g_b0 g_bp L_0 P_max q
                                   s_0 h f_0 F_tilde u R_hat t0 k lambda)
              [Y; B; N] <= P_max.
Proof.
  intros m R d_yp d_b0 d_bp g_yp g_b0 g_bp L_0 P_max q s_0 h f_0 F_tilde u
         R_hat t0 k lambda Y B N HY HB HN HF HP Hq Hs Hf Ht.
  assert (H : 0 <= OnePlant.visitation
                     (OnePlant.make m R d_yp d_b0 d_bp g_yp g_b0 g_bp L_0
                                    P_max q s_0 h f_0 F_tilde u) [Y; B; N]
              <= P_max).
  { apply (visitation_bounds
             (OnePlant.make m R d_yp d_b0 d_bp g_yp g_b0 g_bp L_0 P_max q s_0
                            h f_0 F_tilde u)); try assumption;
      cbn [OnePlant.make OnePlant.s_0_h OnePlant.f_0_u];
      apply pow_positive; assumption. }
  split; exact H.
Qed.

Lemma visitation_within_P_max_witness :
  0 <= OnePlant.visitation
         (OnePlant.make (1/10) 1 (1/5) (1/20) (1/10) (3/10) (1/20) (1/10) 1 5
                        (1/2) 1 2 1 1 2) [1; 0; 2] <= 5
  /\ 0 <= OnePlantSeason.visitation
            (OnePlantSeason.make (1/10) (1/5) (1/20) (1/10) (3/10) (1/20)
                                 (1/10) 1 5 (1/2) 1 2 1 1 2 3 0 2 10)
            [1; 0; 2] <= 5.
Proof.
  apply (visitation_within_P_max (1/10) 1 (1/5) (1/20) (1/10) (3/10) (1/20)
           (1/10) 1 5 (1/2) 1 2 1 1 2 3 0 2 10 1 0 2); lra.
Defined.

(** The dispersal flows of a single plant with rates in their meaningful
    range: Y and B fall no faster than by mortality and gain at most the
    full dispersal rates times N; N gains at most R - m N. *)
Lemma one_plant_flow_bounds :
  forall (sys : OnePlant.OnePlantSystemFunction) (Y B N t : double),
    0 <= Y -> 0 <= B -> 0 <= N -> 0 < Y + B + N ->
    0 <= OnePlant.visitation sys [Y; B; N] ->
    0 < OnePlant.L_0 sys ->
    0 <= OnePlant.d_yp sys -> 0 <= OnePlant.d_b0 sys -> 0 <= OnePlant.d_bp sys ->
    0 <= OnePlant.g_yp sys -> 0 <= OnePlant.g_b0 sys -> 0 <= OnePlant.g_bp sys ->
    let dxdt := OnePlant.call sys [Y; B; N] t in
    - OnePlant.m sys * Y <= nth 0 dxdt 0
      <= (OnePlant.d_yp sys + OnePlant.g_yp sys) * N - OnePlant.m sys * Y
    /\ - OnePlant.m sys * B <= nth 1 dxdt 0
       <= (OnePlant.d_b0 sys + OnePlant.d_bp sys + OnePlant.g_b0 sys
           + OnePlant.g_bp sys) * N - OnePlant.m sys * B
    /\ nth 2 dxdt 0 <= OnePlant.R_in sys - OnePlant.m sys * N.
Proof.
  intros sys Y B N t HY HB HN HF HP HL Hdyp Hdb0 Hdbp Hgyp Hgb0 Hgbp dxdt.
  unfold dxdt, OnePlant.call. cbn [nth].
  set (P := OnePlant.visitation sys [Y; B; N]) in *.
  assert (HYF : Y <= Y + B + N) by lra.
  assert (HBF : B <= Y + B + N) by lra.
  set (F := Y + B + N) in *.
  pose proof (pressure_bounds P F (OnePlant.L_0 sys) HP HF HL) as HLam.
  set (Lambda := P / F / (OnePlant.L_0 sys + P / F)) in *.
  assert (Hy : 0 <= Y / F <= 1) by (apply fraction_bounds; assumption).
  assert (Hb : 0 <= B / F <= 1) by (apply fraction_bounds; assumption).
  replace (OnePlant.d_yp sys * Lambda * Y / F)
    with (OnePlant.d_yp sys * Lambda * (Y / F)) by (unfold Rdiv; ring).
  replace ((OnePlant.d_b0 sys + OnePlant.d_bp sys * Lambda) * B / F)
    with ((OnePlant.d_b0 sys + OnePlant.d_bp sys * Lambda) * (B / F))
    by (unfold Rdiv; ring).
  set (ry := Y / F) in *. set (rb := B / F) in *.
  assert (HdL : 0 <= OnePlant.d_yp sys * Lambda <= OnePlant.d_yp sys) by nra.
  assert (HgL : 0 <= OnePlant.g_yp sys * Lambda <= OnePlant.g_yp sys) by nra.
  assert (HbL : 0 <= OnePlant.d_bp sys * Lambda <= OnePlant.d_bp sys) by nra.
  assert (HcL : 0 <= OnePlant.g_bp sys * Lambda <= OnePlant.g_bp sys) by nra.
  set (dL := OnePlant.d_yp sys * Lambda) in *.
  set (gL := OnePlant.g_yp sys * Lambda) in *.
  set (bL := OnePlant.d_bp sys * Lambda) in *.
  set (cL := OnePlant.g_bp sys * Lambda) in *.
  assert (Hdy : 0 <= dL * ry + gL <= OnePlant.d_yp sys + OnePlant.g_yp sys)
    by nra.
  assert (Hdb : 0 <= (OnePlant.d_b0 sys + bL) * rb + (OnePlant.g_b0 sys + cL)
                <= OnePlant.d_b0 sys + OnePlant.d_bp sys + OnePlant.g_b0 sys
                   + OnePlant.g_bp sys) by nra.
  set (disp_y := dL * ry + gL) in *.
  set (disp_b := (OnePlant.d_b0 sys + bL) * rb + (OnePlant.g_b0 sys + cL)) in *.
  repeat split; nra.
Qed.

(** X4.  For non-negative flower counts with a positive total and
    parameters in their meaningful range (rates >= 0, L_0 > 0, P_max >= 0,
    0 <= q <= 1, s_0 > 0, f_0 > 0, F_tilde >= 0), the constant-input
    derivative satisfies dY/dt >= - m Y, dB/dt >= - m B and
    dN/dt <= R - m N, and the gains of Y and B are at most the full
    dispersal rates times N.  Hence dY/dt >= 0 where Y = 0 and dB/dt >= 0
    where B = 0: the vector field does not leave the non-negative states
    through those faces. *)
Theorem one_plant_derivative_bounds :
  forall (m R d_yp d_b0 d_bp g_yp g_b0 g_bp L_0 P_max q s_0 h f_0 F_tilde u
          Y B N t : double),
    0 <= Y -> 0 <= B -> 0 <= N -> 0 < Y + B + N ->
    0 <= d_yp -> 0 <= d_b0 -> 0 <= d_bp ->
    0 <= g_yp -> 0 <= g_b0 -> 0 <= g_bp -> 0 < L_0 ->
    0 <= P_max -> 0 <= q <= 1 -> 0 < s_0 -> 0 < f_0 -> 0 <= F_tilde ->
    let dxdt := OnePlant.call
                  (OnePlant.make m R d_yp d_b0 d_bp g_yp g_b0 g_bp L_0 P_max q
                                 s_0 h f_0 F_tilde u) [Y; B; N] t in
    - m * Y <= nth 0 dxdt 0 <= (d_yp + g_yp) * N - m * Y
    /\ - m * B <= nth 1 dxdt 0 <= (d_b0 + d_bp + g_b0 + g_bp) * N - m * B
    /\ nth 2 dxdt 0 <= R - m * N
    /\ (Y = 0 -> 0 <= nth 0 dxdt 0)
    /\ (B = 0 -> 0 <= nth 1 dxdt 0).
Proof.
  intros m R d_yp d_b0 d_bp g_yp g_b0 g_bp L_0 P_max q s_0 h f_0 F_tilde u
         Y B N t HY HB HN HF Hdyp Hdb0 Hdbp Hgyp Hgb0 Hgbp HL HP Hq Hs Hf Ht
         dxdt.
  set (sys := OnePlant.make m R d_yp d_b0 d_bp g_yp g_b0 g_bp L_0 P_max q
                            s_0 h f_0 F_tilde u) in *.
  assert (Hvis : 0 <= OnePlant.visitation sys [Y; B; N] <= OnePlant.P_max sys).
  { apply visitation_bounds; try assumption;
      cbn [sys OnePlant.make OnePlant.s_0_h OnePlant.f_0_u];
      apply pow_positive; assumption. }
  destruct (one_plant_flow_bounds sys Y B N t HY HB HN HF (proj1 Hvis) HL
              Hdyp Hdb0 Hdbp Hgyp Hgb0 Hgbp) as [H0 [H1 H2]].
  fold dxdt in H0, H1, H2.
  cbn [sys OnePlant.make OnePlant.m OnePlant.R_in OnePlant.d_yp OnePlant.d_b0
       OnePlant.d_bp OnePlant.g_yp OnePlant.g_b0 OnePlant.g_bp] in H0, H1, H2.
  repeat split; try lra.
  - intros ->. lra.
  - intros ->. lra.
Qed.

Lemma one_plant_derivative_bounds_witness :
  let dxdt := OnePlant.call
                (OnePlant.make (1/10) 1 (1/5) (1/20) (1/10) (3/10) (1/20)
                               (1/10) 1 5 (1/2) 1 2 1 1 2) [0; 1; 2] 0 in
  - (1/10) * 0 <= nth 0 dxdt 0 <= (1/5 + 3/10) * 2 - (1/10) * 0
  /\ - (1/10) * 1 <= nth 1 dxdt 0
     <= (1/20 + 1/10 + 1/20 + 1/10) * 2 - (1/10) * 1
  /\ nth 2 dxdt 0 <= 1 - (1/10) * 2
  /\ (0 = 0 -> 0 <= nth 0 dxdt 0)
  /\ (1 = 0 -> 0 <= nth 1 dxdt 0).
Proof.
  apply (one_plant_derivative_bounds (1/10) 1 (1/5) (1/20) (1/10) (3/10)
           (1/20) (1/10) 1 5 (1/2) 1 2 1 1 2 0 1 2 0); lra.
Defined.

(** X5.  Where no flower is visited (B = 0, Y + N > 0), with h > 0 and
    s_0 > 0, the palatability response is 1 and the visitation rate is
    P_max (q + (1 - q) phi), phi the background response. *)
Theorem visitation_without_visited_flowers :
  forall (m R d_yp d_b0 d_bp g_yp g_b0 g_bp L_0 P_max q s_0 h f_0 F_tilde u
          Y N : double),
    0 < Y + N -> 0 < h -> 0 < s_0 ->
    OnePlant.visitation
      (OnePlant.make m R d_yp d_b0 d_bp g_yp g_b0 g_bp L_0 P_max q s_0 h f_0
                     F_tilde u) [Y; 0; N]
    = let F := Y + 0 + N in
      let FF_u := Std.pow (F / (F + F_tilde)) u in
      P_max * (q + (1 - q) * (FF_u / (Std.pow f_0 u + FF_u))).
Proof.
  intros m R d_yp d_b0 d_bp g_yp g_b0 g_bp L_0 P_max q s_0 h f_0 F_tilde u
         Y N HF Hh Hs.
  unfold OnePlant.visitation.
  cbn [nth OnePlant.make OnePlant.P_max OnePlant.q OnePlant.s_0_h OnePlant.h
       OnePlant.f_0_u OnePlant.F_tilde OnePlant.u].
  cbv zeta.
  replace (0 / (Y + 0 + N)) with 0 by (unfold Rdiv; ring).
  rewrite (pow_zero_base h Hh).
  pose proof (pow_positive s_0 h Hs) as Hsh.
  replace (Std.pow s_0 h / (Std.pow s_0 h + 0)) with 1 by (field; lra).
  ring.
Qed.

Lemma visitation_without_visited_flowers_witness :
  OnePlant.visitation
    (OnePlant.make (1/10) 1 (1/5) (1/20) (1/10) (3/10) (1/20) (1/10) 1 5
                   (1/2) 1 2 1 1 2) [1; 0; 2]
  = let F := 1 + 0 + 2 in
    let FF_u := Std.pow (F / (F + 1)) 2 in
    5 * (1/2 + (1 - 1/2) * (FF_u / (Std.pow 1 2 + FF_u))).
Proof.
  apply (visitation_without_visited_flowers (1/10) 1 (1/5) (1/20) (1/10)
           (3/10) (1/20) (1/10) 1 5 (1/2) 1 2 1 1 2 1 2); lra.
Defined.

(** ** The seasonal resource pulse *)

(** X6.  The resource inflow of the seasonal dynamics function is never
    negative: for R_hat >= 0, lambda > 0, k >= 0 and t + t0 >= 0 (with
    k >= 1 when t + t0 = 0, where the power has base 0). *)
Theorem season_resource_nonneg :
  forall (sys : OnePlantSeason.OnePlantSeasonSystemFunction) (t : double),
    0 <= OnePlantSeason.R_hat sys ->
    0 < OnePlantSeason.lambda sys ->
    0 <= OnePlantSeason.k sys ->
    0 <= t + OnePlantSeason.t0 sys ->
    (0 < t + OnePlantSeason.t0 sys \/ 1 <= OnePlantSeason.k sys) ->
    0 <= OnePlantSeason.resource sys t.
Proof.
  intros sys t HR Hl Hk Ht _. unfold OnePlantSeason.resource.
  assert (Hil : 0 < / OnePlantSeason.lambda sys)
    by (apply Rinv_0_lt_compat; exact Hl).
  assert (Hbase : 0 <= (t + OnePlantSeason.t0 sys) / OnePlantSeason.lambda sys)
    by (apply Rmult_le_pos; lra).
  assert (Hkl : 0 <= OnePlantSeason.k sys / OnePlantSeason.lambda sys)
    by (apply Rmult_le_pos; lra).
  pose proof (pow_nonneg _ (OnePlantSeason.k sys - 1) Hbase) as Hpow.
  pose proof (exp_pos (-1 * Std.pow ((t + OnePlantSeason.t0 sys)
                                     / OnePlantSeason.lambda sys)
                                    (OnePlantSeason.k sys))) as Hexp.
  unfold Std.exp.
  apply Rmult_le_pos; [| lra].
  apply Rmult_le_pos; [| exact Hpow].
  apply Rmult_le_pos; assumption.
Qed.

Lemma season_resource_nonneg_witness :
  0 <= OnePlantSeason.resource
         (OnePlantSeason.make (1/10) (1/5) (1/20) (1/10) (3/10) (1/20) (1/10)
                              1 5 (1/2) 1 2 1 1 2 3 0 2 10) 1.
Proof.
  apply (season_resource_nonneg
           (OnePlantSeason.make (1/10) (1/5) (1/20) (1/10) (3/10) (1/20)
                                (1/10) 1 5 (1/2) 1 2 1 1 2 3 0 2 10) 1);
    simpl; lra.
Defined.

(** X7.  With shape k = 1 the pulse is an exponential decay: for
    lambda > 0 and t + t0 >= 0 the resource inflow is
    (R_hat / lambda) exp (- (t + t0) / lambda). *)
Theorem season_resource_shape_one :
  forall (m d_yp d_b0 d_bp g_yp g_b0 g_bp L_0 P_max q s_0 h f_0 F_tilde u
          R_hat t0 lambda t : double),
    0 < lambda -> 0 <= t + t0 ->
    OnePlantSeason.resource
      (OnePlantSeason.make m d_yp d_b0 d_bp g_yp g_b0 g_bp L_0 P_max q s_0 h
                           f_0 F_tilde u R_hat t0 1 lambda) t
    = R_hat / lambda * Std.exp (- ((t + t0) / lambda)).
Proof.
  intros m d_yp d_b0 d_bp g_yp g_b0 g_bp L_0 P_max q s_0 h f_0 F_tilde u
         R_hat t0 lambda t Hl Ht.
  unfold OnePlantSeason.resource.
  cbn [OnePlantSeason.make OnePlantSeason.R_hat OnePlantSeason.k
       OnePlantSeason.lambda OnePlantSeason.t0].
  assert (Hbase : 0 <= (t + t0) / lambda).
  { apply Rmult_le_pos; [exact Ht |]. left. apply Rinv_0_lt_compat. exact Hl. }
  replace (1 - 1) with 0 by ring.
  rewrite pow_zero_exponent, pow_one_exponent by exact Hbase.
  replace (-1 * ((t + t0) / lambda)) with (- ((t + t0) / lambda)) by ring.
  unfold Rdiv. ring.
Qed.

Lemma season_resource_shape_one_witness :
  OnePlantSeason.resource
    (OnePlantSeason.make (1/10) (1/5) (1/20) (1/10) (3/10) (1/20) (1/10) 1 5
                         (1/2) 1 2 1 1 2 3 0 1 10) 5
  = 3 / 10 * Std.exp (- ((5 + 0) / 10)).
Proof.
  apply (season_resource_shape_one (1/10) (1/5) (1/20) (1/10) (3/10) (1/20)
           (1/10) 1 5 (1/2) 1 2 1 1 2 3 0 10 5); lra.
Defined.

(** X8.  With shape k > 1 the pulse starts from nothing: at the time
    t = - t0 the resource inflow is 0. *)
Theorem season_resource_starts_at_zero :
  forall (sys : OnePlantSeason.OnePlantSeasonSystemFunction) (t : double),
    1 < OnePlantSeason.k sys ->
    OnePlantSeason.lambda sys <> 0 ->
    t + OnePlantSeason.t0 sys = 0 ->
    OnePlantSeason.resource sys t = 0.
Proof.
  intros sys t Hk _ Ht. unfold OnePlantSeason.resource. rewrite Ht.
  replace (0 / OnePlantSeason.lambda sys) with 0 by (unfold Rdiv; ring).
  rewrite (pow_zero_base (OnePlantSeason.k sys - 1)) by lra.
  ring.
Qed.

Lemma season_resource_starts_at_zero_witness :
  OnePlantSeason.resource
    (OnePlantSeason.make (1/10) (1/5) (1/20) (1/10) (3/10) (1/20) (1/10) 1 5
                         (1/2) 1 2 1 1 2 3 (-4) 2 10) 4 = 0.
Proof.
  apply (season_resource_starts_at_zero
           (OnePlantSeason.make (1/10) (1/5) (1/20) (1/10) (3/10) (1/20)
                                (1/10) 1 5 (1/2) 1 2 1 1 2 3 (-4) 2 10) 4);
    simpl; lra.
Defined.

(** ** The allocation weights *)

(** X9.  [make_weights] overwrites the vector it is given: whatever its
    content and its size, the result has one entry per plant and depends on
    the state only. *)
Theorem make_weights_ignores_buffer :
  forall (sys : LandConstF.LandConstFSystemFunction) (v1 v2 : VecType)
         (x : MatType),
    LandConstF.make_weights sys v1 x = LandConstF.make_weights sys v2 x
    /\ length (LandConstF.make_weights sys v1 x) = LandConstF.n_plants sys.
Proof.
  intros sys v1 v2 x. split.
  - now rewrite !make_weights_closed_form.
  - apply make_weights_length.
Qed.

Lemma raw_weight_sum_shape_zero :
  forall x : MatType,
    (forall row, In row x -> snd row <= 1) ->
    Spec.raw_weight_sum 0 x = INR (length x).
Proof.
  induction x as [|row x IH]; intros Hx.
  - reflexivity.
  - cbn [Spec.raw_weight_sum fold_right]. fold (Spec.raw_weight_sum 0 x).
    rewrite IH by (intros r Hr; apply Hx; now right).
    rewrite pow_zero_exponent
      by (specialize (Hx row (or_introl eq_refl)); lra).
    change (length (row :: x)) with (S (length x)). rewrite S_INR. ring.
Qed.

(** X10.  With shape u = 0 the pollinators do not discriminate: every plant
    of a state with all B_i <= 1 receives the weight 1 / (X + n_plants). *)
Theorem weights_equal_at_shape_zero :
  forall (sys : LandConstF.LandConstFSystemFunction) (wts_vec : VecType)
         (x : MatType) (i : nat),
    LandConstF.u sys = 0 ->
    length x = LandConstF.n_plants sys ->
    (forall row, In row x -> snd row <= 1) ->
    (i < LandConstF.n_plants sys)%nat ->
    nth i (LandConstF.make_weights sys wts_vec x) 0
    = 1 / (LandConstF.X sys + INR (LandConstF.n_plants sys)).
Proof.
  intros sys wts_vec x i Hu Hx HB Hi.
  rewrite make_weights_nth by assumption.
  unfold Spec.allocation_weight. rewrite Hu.
  rewrite raw_weight_sum_shape_zero, Hx by exact HB.
  rewrite pow_zero_exponent; [reflexivity |].
  assert (Hin : In (nth i x (0, 0)) x) by (apply nth_In; lia).
  specialize (HB _ Hin). unfold mat_get. lra.
Qed.

Lemma weights_equal_at_shape_zero_witness :
  nth 1 (LandConstF.make_weights
           (LandConstF.make [1/10; 1/10] [1/5; 1/5] [1/20; 1/20] [1/10; 1/10]
                            [3/10; 3/10] [1/20; 1/20] [1/10; 1/10] [1; 1] 0 1)
           [] [(1/2, 1/10); (0, 1)]) 0
  = 1 / (1 + INR 2).
Proof.
  apply (weights_equal_at_shape_zero
           (LandConstF.make [1/10; 1/10] [1/5; 1/5] [1/20; 1/20] [1/10; 1/10]
                            [3/10; 3/10] [1/20; 1/20] [1/10; 1/10] [1; 1] 0 1)
           [] [(1/2, 1/10); (0, 1)] 1%nat).
  - reflexivity.
  - reflexivity.
  - intros row [<- | [<- | []]]; simpl; lra.
  - simpl. lia.
Defined.

Lemma pow_monotone_base :
  forall a b u : double,
    0 <= a -> a <= b -> 0 <= u -> Std.pow a u <= Std.pow b u.
Proof.
  intros a b u Ha Hab Hu.
  destruct (Rle_lt_or_eq_dec 0 a Ha) as [Hpos | Hz].
  - rewrite !pow_pos_base by lra. apply Rle_Rpower_l; [exact Hu | lra].
  - subst a. destruct (Rle_lt_or_eq_dec 0 u Hu) as [Hupos | Huz].
    + rewrite pow_zero_base by exact Hupos. apply pow_nonneg. exact Hab.
    + subst u. rewrite !pow_zero_exponent by lra. lra.
Qed.

(** X11.  Pollinators prefer the less visited plant: for X > 0, u >= 0 and
    all B in [0, 1], a plant with a larger visited proportion never gets a
    larger weight. *)
Theorem weights_decrease_with_B :
  forall (sys : LandConstF.LandConstFSystemFunction) (wts_vec : VecType)
         (x : MatType) (i j : nat),
    length x = LandConstF.n_plants sys ->
    (i < LandConstF.n_plants sys)%nat -> (j < LandConstF.n_plants sys)%nat ->
    0 < LandConstF.X sys -> 0 <= LandConstF.u sys ->
    (forall row, In row x -> 0 <= snd row <= 1) ->
    mat_get x i 1 <= mat_get x j 1 ->
    nth j (LandConstF.make_weights sys wts_vec x) 0
    <= nth i (LandConstF.make_weights sys wts_vec x) 0.
Proof.
  intros sys wts_vec x i j Hx Hi Hj HX Hu HB Hij.
  rewrite !make_weights_nth by assumption.
  unfold Spec.allocation_weight.
  pose proof (raw_weight_sum_nonneg (LandConstF.u sys) x HB) as HW.
  assert (Hj1 : 0 <= mat_get x j 1 <= 1)
    by (unfold mat_get; apply HB; apply nth_In; lia).
  apply Rmult_le_compat_r.
  - left. apply Rinv_0_lt_compat. lra.
  - apply pow_monotone_base; lra.
Qed.

Lemma weights_decrease_with_B_witness :
  nth 1 (LandConstF.make_weights
           (LandConstF.make [1/10; 1/10] [1/5; 1/5] [1/20; 1/20] [1/10; 1/10]
                            [3/10; 3/10] [1/20; 1/20] [1/10; 1/10] [1; 1] 2 1)
           [] [(1/2, 1/10); (1/4, 1/2)]) 0
  <= nth 0 (LandConstF.make_weights
              (LandConstF.make [1/10; 1/10] [1/5; 1/5] [1/20; 1/20]
                               [1/10; 1/10] [3/10; 3/10] [1/20; 1/20]
                               [1/10; 1/10] [1; 1] 2 1)
              [] [(1/2, 1/10); (1/4, 1/2)]) 0.
Proof.
  apply (weights_decrease_with_B
           (LandConstF.make [1/10; 1/10] [1/5; 1/5] [1/20; 1/20] [1/10; 1/10]
                            [3/10; 3/10] [1/20; 1/20] [1/10; 1/10] [1; 1] 2 1)
           [] [(1/2, 1/10); (1/4, 1/2)] 0%nat 1%nat).
  - reflexivity.
  - simpl. lia.
  - simpl. lia.
  - simpl. lra.
  - simpl. lra.
  - intros row [<- | [<- | []]]; simpl; lra.
  - simpl. lra.
Defined.

(** X12.  The weights and the share X / (X + W) left to the sources outside
    the landscape add up to 1, W being the sum of the raw weights, whenever
    X + W is not 0; with X = 0 the weights alone add up to 1. *)
Theorem weights_and_outside_share :
  forall (sys : LandConstF.LandConstFSystemFunction) (wts_vec : VecType)
         (x : MatType),
    length x = LandConstF.n_plants sys ->
    LandConstF.X sys + Spec.raw_weight_sum (LandConstF.u sys) x <> 0 ->
    vec_sum (LandConstF.make_weights sys wts_vec x)
    + LandConstF.X sys
      / (LandConstF.X sys + Spec.raw_weight_sum (LandConstF.u sys) x) = 1
    /\ (LandConstF.X sys = 0 ->
        vec_sum (LandConstF.make_weights sys wts_vec x) = 1).
Proof.
  intros sys wts_vec x Hx Hden.
  rewrite make_weights_sum, <- Hx, raw_weight_sum_of_rows.
  split.
  - field. exact Hden.
  - intros HX0. rewrite HX0 in *. field. lra.
Qed.

Lemma weights_and_outside_share_witness :
  let sys := LandConstF.make [1/10; 1/10] [1/5; 1/5] [1/20; 1/20] [1/10; 1/10]
                             [3/10; 3/10] [1/20; 1/20] [1/10; 1/10] [1; 1] 1 1 in
  let x := [(1/2, 1/10); (1/4, 1/2)] in
  vec_sum (LandConstF.make_weights sys [] x)
  + LandConstF.X sys
    / (LandConstF.X sys + Spec.raw_weight_sum (LandConstF.u sys) x) = 1
  /\ (LandConstF.X sys = 0 ->
      vec_sum (LandConstF.make_weights sys [] x) = 1).
Proof.
  intros sys x.
  apply (weights_and_outside_share sys [] x).
  - reflexivity.
  - unfold Spec.raw_weight_sum, sys, x.
    cbn [LandConstF.make LandConstF.X LandConstF.u fold_right snd].
    rewrite !pow_one_exponent by lra. lra.
Defined.

(** ** The landscape dynamics function *)

Lemma allocation_weight_nonneg :
  forall (u X : double) (x : MatType) (i : nat),
    0 < X -> (i < length x)%nat ->
    (forall row, In row x -> 0 <= snd row <= 1) ->
    0 <= Spec.allocation_weight u X x i.
Proof.
  intros u X x i HX Hi HB. unfold Spec.allocation_weight.
  pose proof (raw_weight_sum_nonneg u x HB) as HW.
  assert (Hrow : 0 <= mat_get x i 1 <= 1)
    by (unfold mat_get; apply HB; apply nth_In; exact Hi).
  apply Rmult_le_pos; [apply pow_nonneg; lra |].
  left. apply Rinv_0_lt_compat. lra.
Qed.

(** X13.  In a landscape state with X > 0 and all B in [0, 1], a plant i
    with Y_i >= 0, B_i >= 0, Y_i + B_i <= 1, L_0 > 0 and non-negative rates
    has dY_i/dt >= - m_i Y_i and dB_i/dt >= - m_i B_i, its gains being at
    most the full dispersal rates times N_i = 1 - Y_i - B_i.  Hence
    dY_i/dt >= 0 where Y_i = 0 and dB_i/dt >= 0 where B_i = 0. *)
Theorem landscape_derivative_bounds :
  forall (sys : LandConstF.LandConstFSystemFunction) (x : MatType)
         (t : double) (i : nat),
    length x = LandConstF.n_plants sys ->
    (i < LandConstF.n_plants sys)%nat ->
    0 < LandConstF.X sys ->
    (forall row, In row x -> 0 <= snd row <= 1) ->
    0 <= mat_get x i 0 -> mat_get x i 0 + mat_get x i 1 <= 1 ->
    0 < nth i (LandConstF.L_0 sys) 0 ->
    0 <= nth i (LandConstF.d_yp sys) 0 -> 0 <= nth i (LandConstF.d_b0 sys) 0 ->
    0 <= nth i (LandConstF.d_bp sys) 0 -> 0 <= nth i (LandConstF.g_yp sys) 0 ->
    0 <= nth i (LandConstF.g_b0 sys) 0 -> 0 <= nth i (LandConstF.g_bp sys) 0 ->
    let dxdt := snd (LandConstF.call sys x t) in
    let Y := mat_get x i 0 in
    let B := mat_get x i 1 in
    let m_i := nth i (LandConstF.m sys) 0 in
    - m_i * Y <= mat_get dxdt i 0
      <= (nth i (LandConstF.d_yp sys) 0 + nth i (LandConstF.g_yp sys) 0)
         * (1 - Y - B) - m_i * Y
    /\ - m_i * B <= mat_get dxdt i 1
       <= (nth i (LandConstF.d_b0 sys) 0 + nth i (LandConstF.d_bp sys) 0
           + nth i (LandConstF.g_b0 sys) 0 + nth i (LandConstF.g_bp sys) 0)
          * (1 - Y - B) - m_i * B
    /\ (Y = 0 -> 0 <= mat_get dxdt i 0)
    /\ (B = 0 -> 0 <= mat_get dxdt i 1).
Proof.
  intros sys x t i Hx Hi HX HB HY HN HL Hdyp Hdb0 Hdbp Hgyp Hgb0 Hgbp
         dxdt Y B m_i.
  assert (HBi : 0 <= B <= 1)
    by (unfold B, mat_get; apply HB; apply nth_In; lia).
  assert (Hrow : nth i dxdt (0, 0)
                 = LandConstF.one_plant (fst (LandConstF.call sys x t)) i x t).
  { unfold dxdt, LandConstF.call. cbn [fst snd].
    rewrite nth_map_seq; [reflexivity | exact Hi]. }
  assert (HP : 0 <= nth i (LandConstF.weights (fst (LandConstF.call sys x t))) 0).
  { unfold LandConstF.call. cbn [fst LandConstF.weights LandConstF.set_weights].
    rewrite make_weights_nth by assumption.
    apply allocation_weight_nonneg; [exact HX | lia | exact HB]. }
  cut ((- m_i * Y <= mat_get dxdt i 0
        <= (nth i (LandConstF.d_yp sys) 0 + nth i (LandConstF.g_yp sys) 0)
           * (1 - Y - B) - m_i * Y)
       /\ (- m_i * B <= mat_get dxdt i 1
           <= (nth i (LandConstF.d_b0 sys) 0 + nth i (LandConstF.d_bp sys) 0
               + nth i (LandConstF.g_b0 sys) 0 + nth i (LandConstF.g_bp sys) 0)
              * (1 - Y - B) - m_i * B)).
  { intros [H0 H1]. split; [exact H0 |]. split; [exact H1 |].
    split; intros Hz; rewrite Hz in H0, H1; lra. }
  unfold mat_get at 1 2 3 4. rewrite Hrow. unfold LandConstF.one_plant.
  cbn [fst snd].
  set (P := nth i (LandConstF.weights (fst (LandConstF.call sys x t))) 0) in *.
  replace (nth i (LandConstF.L_0 (fst (LandConstF.call sys x t))) 0)
    with (nth i (LandConstF.L_0 sys) 0) by reflexivity.
  replace (nth i (LandConstF.m (fst (LandConstF.call sys x t))) 0)
    with m_i by reflexivity.
  replace (nth i (LandConstF.d_yp (fst (LandConstF.call sys x t))) 0)
    with (nth i (LandConstF.d_yp sys) 0) by reflexivity.
  replace (nth i (LandConstF.d_b0 (fst (LandConstF.call sys x t))) 0)
    with (nth i (LandConstF.d_b0 sys) 0) by reflexivity.
  replace (nth i (LandConstF.d_bp (fst (LandConstF.call sys x t))) 0)
    with (nth i (LandConstF.d_bp sys) 0) by reflexivity.
  replace (nth i (LandConstF.g_yp (fst (LandConstF.call sys x t))) 0)
    with (nth i (LandConstF.g_yp sys) 0) by reflexivity.
  replace (nth i (LandConstF.g_b0 (fst (LandConstF.call sys x t))) 0)
    with (nth i (LandConstF.g_b0 sys) 0) by reflexivity.
  replace (nth i (LandConstF.g_bp (fst (LandConstF.call sys x t))) 0)
    with (nth i (LandConstF.g_bp sys) 0) by reflexivity.
  fold Y B.
  pose proof (saturation_bounds P (nth i (LandConstF.L_0 sys) 0) HP HL) as HLam.
  set (Lambda := P / (nth i (LandConstF.L_0 sys) 0 + P)) in *.
  set (dyp := nth i (LandConstF.d_yp sys) 0) in *.
  set (db0 := nth i (LandConstF.d_b0 sys) 0) in *.
  set (dbp := nth i (LandConstF.d_bp sys) 0) in *.
  set (gyp := nth i (LandConstF.g_yp sys) 0) in *.
  set (gb0 := nth i (LandConstF.g_b0 sys) 0) in *.
  set (gbp := nth i (LandConstF.g_bp sys) 0) in *.
  fold Y in HY, HN. fold B in HN.
  assert (HY1 : Y <= 1) by lra.
  assert (HdL : 0 <= dyp * Lambda <= dyp) by nra.
  assert (HgL : 0 <= gyp * Lambda <= gyp) by nra.
  assert (HbL : 0 <= dbp * Lambda <= dbp) by nra.
  assert (HcL : 0 <= gbp * Lambda <= gbp) by nra.
  set (dL := dyp * Lambda) in *. set (gL := gyp * Lambda) in *.
  set (bL := dbp * Lambda) in *. set (cL := gbp * Lambda) in *.
  assert (Hdy : 0 <= dL * Y + gL <= dyp + gyp) by nra.
  assert (Hdb : 0 <= (db0 + bL) * B + (gb0 + cL) <= db0 + dbp + gb0 + gbp)
    by nra.
  set (disp_y := dL * Y + gL) in *.
  set (disp_b := (db0 + bL) * B + (gb0 + cL)) in *.
  assert (HNn : 0 <= 1 - Y - B) by lra.
  set (N := 1 - Y - B) in *.
  assert (H0 : - m_i * Y <= disp_y * N - m_i * Y
               <= (dyp + gyp) * N - m_i * Y) by nra.
  assert (H1 : - m_i * B <= disp_b * N - m_i * B
               <= (db0 + dbp + gb0 + gbp) * N - m_i * B) by nra.
  split; [exact H0 | exact H1].
Qed.

Lemma landscape_derivative_bounds_witness :
  let sys := LandConstF.make [1/10; 1/10] [1/5; 1/5] [1/20; 1/20] [1/10; 1/10]
                             [3/10; 3/10] [1/20; 1/20] [1/10; 1/10] [1; 1] 1 1 in
  let x := [(0, 1/4); (1/2, 1/10)] in
  let dxdt := snd (LandConstF.call sys x 0) in
  let Y := mat_get x 0 0 in
  let B := mat_get x 0 1 in
  let m_i := nth 0 (LandConstF.m sys) 0 in
  - m_i * Y <= mat_get dxdt 0 0
    <= (nth 0 (LandConstF.d_yp sys) 0 + nth 0 (LandConstF.g_yp sys) 0)
       * (1 - Y - B) - m_i * Y
  /\ - m_i * B <= mat_get dxdt 0 1
     <= (nth 0 (LandConstF.d_b0 sys) 0 + nth 0 (LandConstF.d_bp sys) 0
         + nth 0 (LandConstF.g_b0 sys) 0 + nth 0 (LandConstF.g_bp sys) 0)
        * (1 - Y - B) - m_i * B
  /\ (Y = 0 -> 0 <= mat_get dxdt 0 0)
  /\ (B = 0 -> 0 <= mat_get dxdt 0 1).
Proof.
  intros sys x.
  apply (landscape_derivative_bounds sys x 0 0%nat);
    try reflexivity; try (simpl; lia); try (simpl; lra).
  intros row [<- | [<- | []]]; simpl; lra.
Defined.

(** ** The tables returned by the single-plant entry points *)

Lemma season_system_shape :
  forall (sn : OnePlantSeason.OnePlantSeasonSystemFunction * nat) (x : VecType)
         (t : double),
    True -> length x = 3%nat ->
    True /\ length (snd (counted OnePlantSeason.system sn x t)) = 3%nat.
Proof.
  intros. split; [exact I | reflexivity].
Qed.

Lemma three_elements :
  forall d : VecType,
    length d = 3%nat -> d = [nth 0 d 0; nth 1 d 0; nth 2 d 0].
Proof.
  intros d H. destruct d as [|a [|b [|c [|]]]]; try discriminate. reflexivity.
Qed.

(** Row i of a table assembled from the records of a run. *)
Lemma assembled_row :
  forall {rd : Rounding} {St : Type} {SA : StateAlgebra St} {Sys : Type}
         (system : Sys -> St -> double -> Sys * St) (tab : Tableau)
         (dt : double) (n : nat) (sys : Sys) (x : St)
         (row : double -> St -> list double) (i : nat) (dflt : St),
    (i <= n)%nat ->
    nth i (zip_with row
             (map snd (records_from system tab 0 dt n sys x 0))
             (map fst (records_from system tab 0 dt n sys x 0))) []
    = row (time_at 0 dt i) (snd (steps_from system tab 0 dt i sys x 0)).
Proof.
  intros rd St SA Sys system tab dt n sys x row i dflt Hi.
  rewrite (nth_zip_with row _ _ i 0 dflt)
    by (rewrite !length_map, ?records_from_length; lia).
  rewrite records_from_time_at, records_from_states.
  rewrite (nth_map_seq (time_at 0 dt)) by lia.
  rewrite (nth_map_seq (fun k => snd (steps_from system tab 0 dt k sys x 0)))
    by lia.
  reflexivity.
Qed.

(** X14.  In the arithmetic of [double], for valid times, the table
    returned by [one_plant_ode] has one row per recorded sample (one more
    than the steps taken) and 5 columns; row i holds the i-th recorded time
    (the double nearest to i dt), the three values of the state after i
    steps, and P_max (q psi + (1 - q) phi) computed from that state with
    phi = F^u / (f_0^u + F^u). *)
Theorem one_plant_ode_table :
  forall (stepper : Tableau)
         (m R d_yp d_b0 d_bp g_yp g_b0 g_bp L_0 P_max q s_0 h f_0 F_tilde u
          dt max_t Y0 B0 N0 : double),
    valid_times dt max_t ->
    exists r out,
      OnePlant.one_plant_integrate (rd := binary64) stepper m R d_yp d_b0
        d_bp g_yp g_b0 g_bp L_0 P_max q s_0 h f_0 F_tilde u dt max_t
        Y0 B0 N0 = Some r
      /\ OnePlant.one_plant_ode (rd := binary64) stepper m R d_yp d_b0 d_bp
           g_yp g_b0 g_bp L_0 P_max q s_0 h f_0 F_tilde u dt max_t Y0 B0 N0
         = Some out
      /\ nrow out = S (int_steps r)
      /\ ncol out = 5%nat
      /\ length (cells out) = nrow out
      /\ forall i : nat,
          (i <= int_steps r)%nat ->
          let state :=
            snd (steps_from (rd := binary64) (counted OnePlant.system)
                   stepper 0 dt i
                   (OnePlant.make m R d_yp d_b0 d_bp g_yp g_b0 g_bp L_0 P_max
                                  q s_0 h f_0 F_tilde u, 0%nat)
                   [Y0; B0; N0] 0) in
          let Y := nth 0 state 0 in
          let B := nth 1 state 0 in
          let N := nth 2 state 0 in
          let F := Y + B + N in
          let phi := Std.pow F u / (Std.pow f_0 u + Std.pow F u) in
          let psi := Std.pow s_0 h / (Std.pow s_0 h + Std.pow (B / F) h) in
          nth i (OnePlant.data (int_obs r)) [] = state
          /\ nth i (cells out) []
             = [Binary64.round (INR i * dt); Y; B; N;
                P_max * (q * psi + (1 - q) * phi)].
Proof.
  intros stepper m Rin d_yp d_b0 d_bp g_yp g_b0 g_bp L_0 P_max q s_0 h f_0
         F_tilde u dt max_t Y0 B0 N0 Hv.
  unfold OnePlant.one_plant_ode, OnePlant.one_plant_integrate.
  set (sys0 := (OnePlant.make m Rin d_yp d_b0 d_bp g_yp g_b0 g_bp L_0 P_max q
                              s_0 h f_0 F_tilde u, 0%nat)).
  destruct (integrate_const_binary64 (counted OnePlant.system)
              OnePlant.observe stepper sys0
              (vec_set (vec_set (vec_set (repeat 0 3) 0 Y0) 1 B0) 2 N0)
              dt max_t OnePlant.OnePlantObserver_new Hv) as [n [Hrun _]].
  rewrite Hrun. clear Hrun.
  eexists. eexists. split; [reflexivity |]. split; [reflexivity |].
  cbn [nrow ncol cells int_obs int_state int_steps].
  rewrite feed_one_plant_observer.
  cbn [OnePlant.time OnePlant.data OnePlant.OnePlantObserver_new app].
  rewrite one_plant_initial_state_shape.
  assert (Hshape : forall i,
             length (snd (steps_from (rd := binary64)
                            (counted OnePlant.system) stepper 0 dt i
                            sys0 [Y0; B0; N0] 0)) = 3%nat).
  { intros i.
    apply (steps_from_ok (rd := binary64) (counted OnePlant.system) stepper
             0 dt (fun _ => True) (fun x => length x = 3%nat)).
    - apply one_plant_system_shape.
    - intros a b. apply vec_add_length.
    - intros c a. apply vec_scale_length.
    - exact I.
    - reflexivity. }
  rewrite (Hshape n).
  split; [now rewrite length_map, records_from_length |].
  split; [reflexivity |].
  split.
  { rewrite zip_with_length; rewrite !length_map; reflexivity. }
  intros i Hi. cbv zeta.
  split.
  { rewrite records_from_states.
    apply (nth_map_seq
             (fun k => snd (steps_from (rd := binary64)
                              (counted OnePlant.system) stepper 0 dt k sys0
                              [Y0; B0; N0] 0))).
    lia. }
  rewrite (assembled_row (rd := binary64) (counted OnePlant.system) stepper
             dt n sys0 [Y0; B0; N0] _ i []) by exact Hi.
  rewrite binary64_time_at.
  set (state := snd (steps_from (rd := binary64) (counted OnePlant.system)
                                stepper 0 dt i sys0 [Y0; B0; N0] 0)).
  rewrite (three_elements state (Hshape i)) at 1.
  unfold OnePlant.output_row. cbn [seq map fold_left nth app].
  replace (0 + nth 0 state 0 + nth 1 state 0 + nth 2 state 0)
    with (nth 0 state 0 + nth 1 state 0 + nth 2 state 0) by ring.
  reflexivity.
Qed.

Lemma one_plant_ode_table_witness :
  exists r out,
    OnePlant.one_plant_integrate (rd := binary64) rk4 (1/10) 1 (1/5) (1/20)
      (1/10) (3/10) (1/20) (1/10) 1 5 (1/2) 1 2 1 1 2 scenario_dt 1 1 1 1
    = Some r
    /\ OnePlant.one_plant_ode (rd := binary64) rk4 (1/10) 1 (1/5) (1/20)
         (1/10) (3/10) (1/20) (1/10) 1 5 (1/2) 1 2 1 1 2 scenario_dt 1 1 1 1
       = Some out
    /\ nrow out = S (int_steps r)
    /\ ncol out = 5%nat
    /\ length (cells out) = nrow out
    /\ forall i : nat,
        (i <= int_steps r)%nat ->
        let state :=
          snd (steps_from (rd := binary64) (counted OnePlant.system) rk4 0
                 scenario_dt i
                 (OnePlant.make (1/10) 1 (1/5) (1/20) (1/10) (3/10) (1/20)
                                (1/10) 1 5 (1/2) 1 2 1 1 2, 0%nat)
                 [1; 1; 1] 0) in
        let Y := nth 0 state 0 in
        let B := nth 1 state 0 in
        let N := nth 2 state 0 in
        let F := Y + B + N in
        let phi := Std.pow F 2 / (Std.pow 1 2 + Std.pow F 2) in
        let psi := Std.pow 1 2 / (Std.pow 1 2 + Std.pow (B / F) 2) in
        nth i (OnePlant.data (int_obs r)) [] = state
        /\ nth i (cells out) []
           = [Binary64.round (INR i * scenario_dt); Y; B; N;
              5 * (1/2 * psi + (1 - 1/2) * phi)].
Proof.
  apply (one_plant_ode_table rk4 (1/10) 1 (1/5) (1/20) (1/10) (3/10) (1/20)
           (1/10) 1 5 (1/2) 1 2 1 1 2 scenario_dt 1 1 1 1).
  exact scenario_times_valid.
Defined.

(** X15.  In the arithmetic of [double], for valid times, the table
    returned by [one_plant_season_ode] has one row per recorded sample and
    5 columns; row i holds the i-th recorded time (the double nearest to
    i dt), the three values of the state after i steps, and the visitation
    rate that the seasonal dynamics function itself computes at that
    state. *)
Theorem one_plant_season_ode_table :
  forall (stepper : Tableau)
         (m d_yp d_b0 d_bp g_yp g_b0 g_bp L_0 P_max q s_0 h f_0 F_tilde u
          R_hat t0 k lambda dt max_t Y0 B0 N0 : double),
    valid_times dt max_t ->
    exists r out,
      OnePlantSeason.one_plant_season_integrate (rd := binary64) stepper m
        d_yp d_b0 d_bp g_yp g_b0 g_bp L_0 P_max q s_0 h f_0 F_tilde u R_hat
        t0 k lambda dt max_t Y0 B0 N0 = Some r
      /\ OnePlantSeason.one_plant_season_ode (rd := binary64) stepper m d_yp
           d_b0 d_bp g_yp g_b0 g_bp L_0 P_max q s_0 h f_0 F_tilde u R_hat t0
           k lambda dt max_t Y0 B0 N0 = Some out
      /\ nrow out = S (int_steps r)
      /\ ncol out = 5%nat
      /\ length (cells out) = nrow out
      /\ forall i : nat,
          (i <= int_steps r)%nat ->
          let sys := OnePlantSeason.make m d_yp d_b0 d_bp g_yp g_b0 g_bp L_0
                       P_max q s_0 h f_0 F_tilde u R_hat t0 k lambda in
          let state :=
            snd (steps_from (rd := binary64) (counted OnePlantSeason.system)
                   stepper 0 dt i (sys, 0%nat) [Y0; B0; N0] 0) in
          nth i (data (int_obs r)) [] = state
          /\ nth i (cells out) []
             = [Binary64.round (INR i * dt);
                nth 0 state 0; nth 1 state 0; nth 2 state 0;
                OnePlantSeason.visitation sys state].
Proof.
  intros stepper m d_yp d_b0 d_bp g_yp g_b0 g_bp L_0 P_max q s_0 h f_0
         F_tilde u R_hat t0 k lambda dt max_t Y0 B0 N0 Hv.
  unfold OnePlantSeason.one_plant_season_ode,
         OnePlantSeason.one_plant_season_integrate.
  set (sys := OnePlantSeason.make m d_yp d_b0 d_bp g_yp g_b0 g_bp L_0 P_max q
                                  s_0 h f_0 F_tilde u R_hat t0 k lambda).
  destruct (integrate_const_binary64 (counted OnePlantSeason.system)
              Observer_call stepper (sys, 0%nat)
              (vec_set (vec_set (vec_set (repeat 0 3) 0 Y0) 1 B0) 2 N0)
              dt max_t Observer_new Hv) as [n [Hrun _]].
  rewrite Hrun. clear Hrun.
  eexists. eexists. split; [reflexivity |]. split; [reflexivity |].
  cbn [nrow ncol cells int_obs int_state int_steps].
  rewrite feed_observer.
  cbn [time data Observer_new app].
  rewrite one_plant_initial_state_shape.
  assert (Hshape : forall i,
             length (snd (steps_from (rd := binary64)
                            (counted OnePlantSeason.system) stepper 0
                            dt i (sys, 0%nat) [Y0; B0; N0] 0))
             = 3%nat).
  { intros i.
    apply (steps_from_ok (rd := binary64) (counted OnePlantSeason.system)
             stepper 0 dt (fun _ => True) (fun x => length x = 3%nat)).
    - apply season_system_shape.
    - intros a b. apply vec_add_length.
    - intros c a. apply vec_scale_length.
    - exact I.
    - reflexivity. }
  rewrite (Hshape n).
  split; [now rewrite length_map, records_from_length |].
  split; [reflexivity |].
  split.
  { rewrite zip_with_length; rewrite !length_map; reflexivity. }
  intros i Hi. cbv zeta.
  split.
  { rewrite records_from_states.
    apply (nth_map_seq
             (fun j => snd (steps_from (rd := binary64)
                              (counted OnePlantSeason.system) stepper 0 dt j
                              (sys, 0%nat) [Y0; B0; N0] 0))).
    lia. }
  rewrite (assembled_row (rd := binary64) (counted OnePlantSeason.system)
             stepper dt n (sys, 0%nat) [Y0; B0; N0] _ i []) by exact Hi.
  rewrite binary64_time_at.
  set (state := snd (steps_from (rd := binary64)
                       (counted OnePlantSeason.system) stepper 0 dt i
                       (sys, 0%nat) [Y0; B0; N0] 0)).
  rewrite (three_elements state (Hshape i)).
  unfold OnePlantSeason.output_row, OnePlantSeason.visitation.
  cbn [seq map fold_left nth app sys OnePlantSeason.make
       OnePlantSeason.P_max OnePlantSeason.q OnePlantSeason.s_0_h
       OnePlantSeason.h OnePlantSeason.f_0_u OnePlantSeason.F_tilde
       OnePlantSeason.u].
  replace (0 + nth 0 state 0 + nth 1 state 0 + nth 2 state 0)
    with (nth 0 state 0 + nth 1 state 0 + nth 2 state 0) by ring.
  reflexivity.
Qed.

Lemma one_plant_season_ode_table_witness :
  exists r out,
    OnePlantSeason.one_plant_season_integrate (rd := binary64) rk4 (1/10)
      (1/5) (1/20) (1/10) (3/10) (1/20) (1/10) 1 5 (1/2) 1 2 1 1 2 3 0 2 10
      scenario_dt 1 1 1 1 = Some r
    /\ OnePlantSeason.one_plant_season_ode (rd := binary64) rk4 (1/10) (1/5)
         (1/20) (1/10) (3/10) (1/20) (1/10) 1 5 (1/2) 1 2 1 1 2 3 0 2 10
         scenario_dt 1 1 1 1 = Some out
    /\ nrow out = S (int_steps r)
    /\ ncol out = 5%nat
    /\ length (cells out) = nrow out
    /\ forall i : nat,
        (i <= int_steps r)%nat ->
        let sys := OnePlantSeason.make (1/10) (1/5) (1/20) (1/10) (3/10)
                     (1/20) (1/10) 1 5 (1/2) 1 2 1 1 2 3 0 2 10 in
        let state :=
          snd (steps_from (rd := binary64) (counted OnePlantSeason.system)
                 rk4 0 scenario_dt i (sys, 0%nat) [1; 1; 1] 0) in
        nth i (data (int_obs r)) [] = state
        /\ nth i (cells out) []
           = [Binary64.round (INR i * scenario_dt);
              nth 0 state 0; nth 1 state 0; nth 2 state 0;
              OnePlantSeason.visitation sys state].
Proof.
  apply (one_plant_season_ode_table rk4 (1/10) (1/5) (1/20) (1/10) (3/10)
           (1/20) (1/10) 1 5 (1/2) 1 2 1 1 2 3 0 2 10 scenario_dt 1 1 1 1).
  exact scenario_times_valid.
Defined.

(** ** The table returned by the landscape entry point *)

Lemma nth_concat_uniform :
  forall {A : Type} (blocks : list (list A)) (np s k : nat) (d : A),
    (forall b, In b blocks -> length b = np) ->
    (s < length blocks)%nat -> (k < np)%nat ->
    nth (s * np + k) (concat blocks) d = nth k (nth s blocks []) d.
Proof.
  intros A. induction blocks as [|b blocks IH]; intros np s k d Hlen Hs Hk.
  - simpl in Hs. lia.
  - pose proof (Hlen b (or_introl eq_refl)) as Hb.
    destruct s as [|s]; cbn [concat nth].
    + rewrite app_nth1 by lia. reflexivity.
    + replace (S s * np + k)%nat with (length b + (s * np + k))%nat by lia.
      rewrite app_nth2_plus. apply IH; [| simpl in Hs; lia | exact Hk].
      intros b' Hb'. apply Hlen. now right.
Qed.

Lemma length_concat_uniform :
  forall {A : Type} (blocks : list (list A)) (np : nat),
    (forall b, In b blocks -> length b = np) ->
    length (concat blocks) = (length blocks * np)%nat.
Proof.
  intros A. induction blocks as [|b blocks IH]; intros np Hlen.
  - reflexivity.
  - cbn [concat length]. rewrite length_app.
    rewrite (Hlen b (or_introl eq_refl)).
    rewrite (IH np) by (intros b' Hb'; apply Hlen; now right). lia.
Qed.

Lemma combine_swapped :
  forall {A B : Type} (l : list (A * B)),
    combine (map snd l) (map fst l) = map (fun r => (snd r, fst r)) l.
Proof.
  intros A B. induction l as [|r l IH]; simpl; [reflexivity | now rewrite IH].
Qed.

(** The output loop writes, sample after sample, the rows of every plant
    with the weights of that sample: the vector [wts] carried from one
    sample to the next has no influence. *)
Lemma output_loop_rows :
  forall (sys : LandConstF.LandConstFSystemFunction) (np : nat)
         (recs : list (double * MatType)) (wts : VecType)
         (acc : list (list double)),
    snd (fold_left (LandConstF.output_step sys np) recs (wts, acc))
    = acc ++ concat (map (fun r =>
                            LandConstF.output_rows np (fst r) (snd r)
                              (LandConstF.make_weights sys [] (snd r)))
                         recs).
Proof.
  intros sys np. induction recs as [|r recs IH]; intros wts acc.
  - cbn. now rewrite app_nil_r.
  - cbn [fold_left map concat]. unfold LandConstF.output_step at 2.
    cbn [fst snd]. rewrite IH, <- app_assoc.
    rewrite (make_weights_closed_form sys wts),
            <- (make_weights_closed_form sys []).
    reflexivity.
Qed.

Lemma output_rows_length :
  forall np t d wts, length (LandConstF.output_rows np t d wts) = np.
Proof.
  intros. unfold LandConstF.output_rows. now rewrite length_map, length_seq.
Qed.

(** The shape of the state and the members u, X and n_plants of the system
    object do not change during a run. *)
Lemma landscape_call_keeps_shape :
  forall (n : nat) (u X : double)
         (sn : LandConstF.LandConstFSystemFunction * nat) (x : MatType)
         (t : double),
    (LandConstF.n_plants (fst sn) = n /\ LandConstF.u (fst sn) = u
     /\ LandConstF.X (fst sn) = X) ->
    length x = n ->
    (LandConstF.n_plants (fst (fst (counted LandConstF.call sn x t))) = n
     /\ LandConstF.u (fst (fst (counted LandConstF.call sn x t))) = u
     /\ LandConstF.X (fst (fst (counted LandConstF.call sn x t))) = X)
    /\ length (snd (counted LandConstF.call sn x t)) = n.
Proof.
  intros n u X sn x t [Hn [Hu HX]] Hx.
  unfold counted, LandConstF.call. cbn [fst snd LandConstF.set_weights
    LandConstF.n_plants LandConstF.u LandConstF.X].
  repeat split; try assumption.
  now rewrite length_map, length_seq.
Qed.

Lemma mat_add_length :
  forall (n : nat) (a b : MatType),
    length a = n -> length b = n -> length (st_add a b) = n.
Proof.
  intros n a b Ha Hb. cbn [st_add MatAlgebra].
  rewrite zip_with_length; congruence.
Qed.

Lemma mat_scale_length :
  forall (n : nat) (c : double) (a : MatType),
    length a = n -> length (st_scale c a) = n.
Proof.
  intros n c a Ha. cbn [st_scale MatAlgebra]. now rewrite length_map.
Qed.

(** X16.  In the arithmetic of [double], a call of the landscape entry
    point with vectors of matching lengths and valid times is not answered
    by the sentinel.  It returns a table of 5 columns with one row per
    sample and plant, the samples being one more than the steps taken; row
    s * n_plants + k holds the s-th recorded time (the double nearest to
    s dt), the plant index k, Y and B of plant k in the state after s steps,
    and the allocation weight of plant k computed from that same state. *)
Theorem landscape_ode_table :
  forall (stepper : Tableau) (m d_yp d_b0 d_bp g_yp g_b0 g_bp L_0 : VecType)
         (u X : double) (Y0 B0 : VecType) (dt max_t : double),
    valid_times dt max_t ->
    length d_yp = length m -> length d_b0 = length m ->
    length d_bp = length m -> length g_yp = length m ->
    length g_b0 = length m -> length g_bp = length m ->
    length L_0 = length m -> length Y0 = length m -> length B0 = length m ->
    exists out,
      LandConstF.landscape_constantF_ode (rd := binary64) stepper m d_yp
        d_b0 d_bp g_yp g_b0 g_bp L_0 u X Y0 B0 dt max_t = Some out
      /\ nrow (LandConstF.output out)
         = (S (LandConstF.steps_taken out) * length m)%nat
      /\ ncol (LandConstF.output out) = 5%nat
      /\ length (cells (LandConstF.output out)) = nrow (LandConstF.output out)
      /\ forall s k : nat,
          (s <= LandConstF.steps_taken out)%nat -> (k < length m)%nat ->
          let state :=
            snd (steps_from (rd := binary64) (counted LandConstF.call)
                   stepper 0 dt s
                   (LandConstF.make m d_yp d_b0 d_bp g_yp g_b0 g_bp L_0 u X,
                    0%nat)
                   (map (fun i => (nth i Y0 0, nth i B0 0))
                        (seq 0 (length m))) 0) in
          nth (s * length m + k) (cells (LandConstF.output out)) []
          = [Binary64.round (INR s * dt); INR k;
             mat_get state k 0; mat_get state k 1;
             Spec.allocation_weight u X state k].
Proof.
  intros stepper m d_yp d_b0 d_bp g_yp g_b0 g_bp L_0 u X Y0 B0 dt max_t Hv
         H1 H2 H3 H4 H5 H6 H7 H8 H9.
  unfold LandConstF.landscape_constantF_ode. cbv zeta.
  rewrite !len_check_match by assumption.
  unfold LandConstF.landscape_integrate.
  set (np := length m).
  set (sn0 := (LandConstF.make m d_yp d_b0 d_bp g_yp g_b0 g_bp L_0 u X, 0%nat)).
  set (x0 := map (fun i => (nth i Y0 0, nth i B0 0)) (seq 0 np)).
  destruct (integrate_const_binary64 (counted LandConstF.call) Observer_call
              stepper sn0 x0 dt max_t Observer_new Hv) as [n [Hrun _]].
  rewrite Hrun. clear Hrun.
  eexists. split; [reflexivity |].
  cbn [LandConstF.steps_taken LandConstF.rhs_evaluations LandConstF.output
       nrow ncol cells int_steps int_sys int_obs].
  rewrite feed_observer. cbn [time data Observer_new app].
  rewrite combine_swapped, output_loop_rows. cbn [app].
  rewrite map_map. cbn [fst snd].
  set (recs := records_from (rd := binary64) (counted LandConstF.call)
                            stepper 0 dt n sn0 x0 0).
  assert (Hinv : forall s,
     (LandConstF.n_plants
        (fst (fst (steps_from (rd := binary64) (counted LandConstF.call)
                              stepper 0 dt s sn0 x0 0)))
      = np
      /\ LandConstF.u
           (fst (fst (steps_from (rd := binary64) (counted LandConstF.call)
                                 stepper 0 dt s sn0 x0 0))) = u
      /\ LandConstF.X
           (fst (fst (steps_from (rd := binary64) (counted LandConstF.call)
                                 stepper 0 dt s sn0 x0 0))) = X)
     /\ length (snd (steps_from (rd := binary64) (counted LandConstF.call)
                                stepper 0 dt s sn0 x0 0)) = np).
  { intros s.
    apply (steps_from_ok (rd := binary64) (counted LandConstF.call) stepper
             0 dt
             (fun sn => LandConstF.n_plants (fst sn) = np
                        /\ LandConstF.u (fst sn) = u
                        /\ LandConstF.X (fst sn) = X)
             (fun x => length x = np)).
    - intros sn x t. apply landscape_call_keeps_shape.
    - intros a b. apply mat_add_length.
    - intros c a. apply mat_scale_length.
    - repeat split.
    - unfold x0. now rewrite length_map, length_seq. }
  set (sysn := fst (fst (steps_from (rd := binary64)
                           (counted LandConstF.call) stepper 0 dt n
                           sn0 x0 0))).
  set (block := fun r : MatType * double =>
                  LandConstF.output_rows np (snd r) (fst r)
                    (LandConstF.make_weights sysn [] (fst r))).
  assert (Hblocks : forall b, In b (map block recs) -> length b = np).
  { intros b Hb. apply in_map_iff in Hb. destruct Hb as [r [<- _]].
    apply output_rows_length. }
  split; [unfold recs; now rewrite length_map, records_from_length |].
  split; [reflexivity |].
  split.
  { rewrite (length_concat_uniform _ np Hblocks).
    unfold recs. now rewrite !length_map, records_from_length. }
  intros s k Hs Hk. cbv zeta.
  rewrite (nth_concat_uniform _ np s k [] Hblocks)
    by (unfold recs; rewrite ?length_map, ?records_from_length; lia).
  assert (Hrec : nth s recs (x0, 0)
                 = (snd (steps_from (rd := binary64) (counted LandConstF.call)
                                    stepper 0 dt s sn0 x0 0),
                    Binary64.round (INR s * dt))).
  { rewrite (surjective_pairing (nth s recs (x0, 0))). f_equal.
    - rewrite <- (map_nth fst). unfold recs. rewrite records_from_states.
      cbn [fst].
      apply (nth_map_seq
               (fun k0 => snd (steps_from (rd := binary64)
                                 (counted LandConstF.call) stepper 0 dt k0
                                 sn0 x0 0))).
      lia.
    - rewrite <- (map_nth snd). unfold recs. rewrite records_from_time_at.
      cbn [snd]. rewrite (nth_map_seq (time_at (rd := binary64) 0 dt)) by lia.
      apply binary64_time_at. }
  rewrite (nth_indep _ [] (block (x0, 0)))
    by (rewrite length_map; unfold recs; rewrite records_from_length; lia).
  rewrite (map_nth block), Hrec. unfold block. cbn [fst snd].
  unfold LandConstF.output_rows. rewrite nth_map_seq by exact Hk.
  destruct (Hinv n) as [[Hnn [Hun HXn]] _]. fold sysn in Hnn, Hun, HXn.
  destruct (Hinv s) as [_ Hlen].
  rewrite make_weights_nth by congruence.
  rewrite Hun, HXn. reflexivity.
Qed.

Lemma landscape_ode_table_witness :
  exists out,
    LandConstF.landscape_constantF_ode (rd := binary64) rk4 [1/10; 1/10]
      [1/5; 1/5] [1/20; 1/20] [1/10; 1/10] [3/10; 3/10] [1/20; 1/20]
      [1/10; 1/10] [1; 1] 1 1 [1/2; 1/2] [1/10; 1/10] scenario_dt 1
    = Some out
    /\ nrow (LandConstF.output out)
       = (S (LandConstF.steps_taken out) * 2)%nat
    /\ ncol (LandConstF.output out) = 5%nat
    /\ length (cells (LandConstF.output out)) = nrow (LandConstF.output out)
    /\ forall s k : nat,
        (s <= LandConstF.steps_taken out)%nat -> (k < 2)%nat ->
        let state :=
          snd (steps_from (rd := binary64) (counted LandConstF.call) rk4 0
                 scenario_dt s
                 (LandConstF.make [1/10; 1/10] [1/5; 1/5] [1/20; 1/20]
                    [1/10; 1/10] [3/10; 3/10] [1/20; 1/20] [1/10; 1/10]
                    [1; 1] 1 1, 0%nat)
                 (map (fun i => (nth i [1/2; 1/2] 0, nth i [1/10; 1/10] 0))
                      (seq 0 2)) 0) in
        nth (s * 2 + k) (cells (LandConstF.output out)) []
        = [Binary64.round (INR s * scenario_dt); INR k;
           mat_get state k 0; mat_get state k 1;
           Spec.allocation_weight 1 1 state k].
Proof.
  apply (landscape_ode_table rk4 [1/10; 1/10] [1/5; 1/5] [1/20; 1/20]
           [1/10; 1/10] [3/10; 3/10] [1/20; 1/20] [1/10; 1/10] [1; 1] 1 1
           [1/2; 1/2] [1/10; 1/10] scenario_dt 1);
    try reflexivity. exact scenario_times_valid.
Defined.

(** ** Edge cases of the integration *)





(** X18.  With dt equal to max_t (and larger than the machine epsilon) the
    constant-input entry point takes exactly one step: the samples are the
    initial state at t = 0 and the state after the step at t = dt. *)
Theorem one_plant_single_step :
  forall (stepper : Tableau)
         (m R d_yp d_b0 d_bp g_yp g_b0 g_bp L_0 P_max q s_0 h f_0 F_tilde u
          dt Y0 B0 N0 : double),
    Std.epsilon < dt ->
    exists r,
      OnePlant.one_plant_integrate stepper m R d_yp d_b0 d_bp g_yp g_b0 g_bp
        L_0 P_max q s_0 h f_0 F_tilde u dt dt Y0 B0 N0 = Some r
      /\ int_steps r = 1%nat
      /\ OnePlant.time (int_obs r) = [0; dt]
      /\ OnePlant.data (int_obs r)
         = [[Y0; B0; N0];
            snd (do_step (counted OnePlant.system) stepper
                   (OnePlant.make m R d_yp d_b0 d_bp g_yp g_b0 g_bp L_0 P_max
                                  q s_0 h f_0 F_tilde u, 0%nat)
                   [Y0; B0; N0] 0 dt)]
      /\ int_state r = last (OnePlant.data (int_obs r)) [].
Proof.
  intros stepper m R d_yp d_b0 d_bp g_yp g_b0 g_bp L_0 P_max q s_0 h f_0
         F_tilde u dt Y0 B0 N0 Hdt.
  pose proof epsilon_pos as Heps.
  unfold OnePlant.one_plant_integrate.
  rewrite integrate_const_forward by lra.
  assert (H1 : step_count 0 dt dt = 1%nat)
    by (apply step_count_eq; simpl; lra).
  rewrite H1.
  eexists. split; [reflexivity |]. cbn [int_steps int_obs int_state].
  rewrite feed_one_plant_observer.
  cbn [OnePlant.time OnePlant.data OnePlant.OnePlantObserver_new app
       records_from steps_from time_at rnd exact_arithmetic INR].
  rewrite one_plant_initial_state_shape.
  destruct (do_step (counted OnePlant.system) stepper
              (OnePlant.make m R d_yp d_b0 d_bp g_yp g_b0 g_bp L_0 P_max q
                             s_0 h f_0 F_tilde u, 0%nat) [Y0; B0; N0] 0 dt)
    as [sn' x'].
  cbn [map fst snd last].
  split; [reflexivity |]. split; [| split; reflexivity].
  repeat (apply (f_equal2 (@cons _)); [ring |]). reflexivity.
Qed.

Lemma one_plant_single_step_witness :
  exists r,
    OnePlant.one_plant_integrate rk4 (1/10) 1 (1/5) (1/20) (1/10) (3/10)
      (1/20) (1/10) 1 5 (1/2) 1 2 1 1 2 1 1 1 1 1 = Some r
    /\ int_steps r = 1%nat
    /\ OnePlant.time (int_obs r) = [0; 1]
    /\ OnePlant.data (int_obs r)
       = [[1; 1; 1];
          snd (do_step (counted OnePlant.system) rk4
                 (OnePlant.make (1/10) 1 (1/5) (1/20) (1/10) (3/10) (1/20)
                                (1/10) 1 5 (1/2) 1 2 1 1 2, 0%nat)
                 [1; 1; 1] 0 1)]
    /\ int_state r = last (OnePlant.data (int_obs r)) [].
Proof.
  apply (one_plant_single_step rk4 (1/10) 1 (1/5) (1/20) (1/10) (3/10)
           (1/20) (1/10) 1 5 (1/2) 1 2 1 1 2 1 1 1 1).
  pose proof epsilon_small. lra.
Defined.

(** ** Bookkeeping of a run *)

(** X19.  In the arithmetic of [double], for valid times, when the
    constant-input run returns, the state vector x (passed by reference)
    holds the last recorded state, the observer's two vectors have the same
    length, one more than the number of steps, and its first record is the
    initial state at t = 0. *)
Theorem one_plant_run_accounting :
  forall (stepper : Tableau)
         (m R d_yp d_b0 d_bp g_yp g_b0 g_bp L_0 P_max q s_0 h f_0 F_tilde u
          dt max_t Y0 B0 N0 : double),
    valid_times dt max_t ->
    exists r,
      OnePlant.one_plant_integrate (rd := binary64) stepper m R d_yp d_b0
        d_bp g_yp g_b0 g_bp L_0 P_max q s_0 h f_0 F_tilde u dt max_t
        Y0 B0 N0 = Some r
      /\ int_state r = last (OnePlant.data (int_obs r)) []
      /\ length (OnePlant.data (int_obs r)) = S (int_steps r)
      /\ length (OnePlant.time (int_obs r)) = S (int_steps r)
      /\ nth 0 (OnePlant.data (int_obs r)) [] = [Y0; B0; N0]
      /\ nth 0 (OnePlant.time (int_obs r)) 0 = 0.
Proof.
  intros stepper m Rin d_yp d_b0 d_bp g_yp g_b0 g_bp L_0 P_max q s_0 h f_0
         F_tilde u dt max_t Y0 B0 N0 Hv.
  unfold OnePlant.one_plant_integrate.
  destruct (integrate_const_binary64 (counted OnePlant.system)
              OnePlant.observe stepper
              (OnePlant.make m Rin d_yp d_b0 d_bp g_yp g_b0 g_bp L_0 P_max q
                             s_0 h f_0 F_tilde u, 0%nat)
              (vec_set (vec_set (vec_set (repeat 0 3) 0 Y0) 1 B0) 2 N0)
              dt max_t OnePlant.OnePlantObserver_new Hv) as [n [Hrun _]].
  rewrite Hrun. clear Hrun.
  eexists. split; [reflexivity |].
  cbn [int_state int_obs int_sys int_steps].
  rewrite feed_one_plant_observer.
  cbn [OnePlant.time OnePlant.data OnePlant.OnePlantObserver_new app].
  rewrite one_plant_initial_state_shape.
  split.
  { rewrite records_from_states, seq_S, map_app. cbn [map plus].
    now rewrite last_last. }
  split; [now rewrite length_map, records_from_length |].
  split; [now rewrite length_map, records_from_length |].
  destruct (records_from_head (rd := binary64) (counted OnePlant.system)
              stepper 0 dt n
              (OnePlant.make m Rin d_yp d_b0 d_bp g_yp g_b0 g_bp L_0 P_max q
                             s_0 h f_0 F_tilde u, 0%nat) [Y0; B0; N0] 0)
    as [rest ->].
  split; reflexivity.
Qed.

Lemma one_plant_run_accounting_witness :
  exists r,
    OnePlant.one_plant_integrate (rd := binary64) rk4 (1/10) 1 (1/5) (1/20)
      (1/10) (3/10) (1/20) (1/10) 1 5 (1/2) 1 2 1 1 2 scenario_dt 1 1 1 1
    = Some r
    /\ int_state r = last (OnePlant.data (int_obs r)) []
    /\ length (OnePlant.data (int_obs r)) = S (int_steps r)
    /\ length (OnePlant.time (int_obs r)) = S (int_steps r)
    /\ nth 0 (OnePlant.data (int_obs r)) [] = [1; 1; 1]
    /\ nth 0 (OnePlant.time (int_obs r)) 0 = 0.
Proof.
  apply (one_plant_run_accounting rk4 (1/10) 1 (1/5) (1/20) (1/10) (3/10)
           (1/20) (1/10) 1 5 (1/2) 1 2 1 1 2 scenario_dt 1 1 1 1).
  exact scenario_times_valid.
Defined.

(** X20.  [OnePlantObserver] only appends: after any sequence of calls the
    records it held before are still there, in their order, followed by one
    (state, time) pair per call in the order of the calls; its two vectors
    keep equal lengths. *)
Theorem one_plant_observer_appends :
  forall (obs : OnePlant.OnePlantObserver)
         (calls : list (VecType * double)),
    let obs' := feed OnePlant.observe obs calls in
    OnePlant.data obs' = OnePlant.data obs ++ map fst calls
    /\ OnePlant.time obs' = OnePlant.time obs ++ map snd calls
    /\ (length (OnePlant.data obs) = length (OnePlant.time obs) ->
        length (OnePlant.data obs') = length (OnePlant.time obs')).
Proof.
  intros obs calls obs'. unfold obs'. rewrite feed_one_plant_observer.
  cbn [OnePlant.data OnePlant.time].
  split; [reflexivity |]. split; [reflexivity |].
  intros H. now rewrite !length_app, !length_map, H.
Qed.

Lemma one_plant_observer_appends_witness :
  let obs := OnePlant.observe OnePlant.OnePlantObserver_new [1; 1; 1] 0 in
  let calls := [([2; 2; 2], 1/10); ([3; 3; 3], 2/10)] in
  let obs' := feed OnePlant.observe obs calls in
  OnePlant.data obs' = OnePlant.data obs ++ map fst calls
  /\ OnePlant.time obs' = OnePlant.time obs ++ map snd calls
  /\ (length (OnePlant.data obs) = length (OnePlant.time obs) ->
      length (OnePlant.data obs') = length (OnePlant.time obs')).
Proof.
  intros obs calls.
  apply (one_plant_observer_appends obs calls).
Defined.

(** X21.  In a landscape of any number of plants, two plants with the same
    parameters and the same initial values have the same (Y, B) in every
    recorded state and receive the same allocation weight in every
    sample. *)
Theorem landscape_equal_plants_stay_equal :
  forall (stepper : Tableau) (m d_yp d_b0 d_bp g_yp g_b0 g_bp L_0 : VecType)
         (u X : double) (Y0 B0 : VecType) (dt max_t : double) (i j : nat),
    0 < dt ->
    (i < length m)%nat -> (j < length m)%nat ->
    nth i m 0 = nth j m 0 ->
    nth i d_yp 0 = nth j d_yp 0 -> nth i d_b0 0 = nth j d_b0 0 ->
    nth i d_bp 0 = nth j d_bp 0 -> nth i g_yp 0 = nth j g_yp 0 ->
    nth i g_b0 0 = nth j g_b0 0 -> nth i g_bp 0 = nth j g_bp 0 ->
    nth i L_0 0 = nth j L_0 0 ->
    nth i Y0 0 = nth j Y0 0 -> nth i B0 0 = nth j B0 0 ->
    exists r,
      LandConstF.landscape_integrate stepper m d_yp d_b0 d_bp g_yp g_b0 g_bp
                                     L_0 u X Y0 B0 dt max_t = Some r
      /\ forall d : MatType,
          In d (data (int_obs r)) ->
          mat_get d i 0 = mat_get d j 0
          /\ mat_get d i 1 = mat_get d j 1
          /\ forall wts : VecType,
              nth i (LandConstF.make_weights (fst (int_sys r)) wts d) 0
              = nth j (LandConstF.make_weights (fst (int_sys r)) wts d) 0.
Proof.
  intros stepper m d_yp d_b0 d_bp g_yp g_b0 g_bp L_0 u X Y0 B0 dt max_t i j
         Hdt Hi Hj Hm H1 H2 H3 H4 H5 H6 H7 HY HB.
  destruct (landscape_run_same_rows stepper m d_yp d_b0 d_bp g_yp g_b0 g_bp
              L_0 u X Y0 B0 dt max_t i j Hdt Hi Hj)
    as [r [Hr [[Hn Hpar] Hall]]]; try assumption.
  { unfold same_parameters.
    cbn [LandConstF.make LandConstF.m LandConstF.d_yp LandConstF.d_b0
         LandConstF.d_bp LandConstF.g_yp LandConstF.g_b0 LandConstF.g_bp
         LandConstF.L_0].
    repeat split; assumption. }
  exists r. split; [exact Hr |].
  intros d Hd. rewrite Forall_forall in Hall. specialize (Hall d Hd).
  pose proof Hall as [Hlen Hrow].
  unfold mat_get. rewrite Hrow.
  split; [reflexivity |]. split; [reflexivity |].
  intros wts. apply (make_weights_same_rows (length m)); assumption.
Qed.

Lemma landscape_equal_plants_stay_equal_witness :
  exists r,
    LandConstF.landscape_integrate rk4 [1/10; 1/5; 1/10] [1/5; 1/4; 1/5]
      [1/20; 1/10; 1/20] [1/10; 1/5; 1/10] [3/10; 1/10; 3/10]
      [1/20; 1/10; 1/20] [1/10; 1/5; 1/10] [1; 2; 1] 2 1
      [1/2; 1/4; 1/2] [1/10; 1/5; 1/10] (1/10) 1 = Some r
    /\ forall d : MatType,
        In d (data (int_obs r)) ->
        mat_get d 0 0 = mat_get d 2 0
        /\ mat_get d 0 1 = mat_get d 2 1
        /\ forall wts : VecType,
            nth 0 (LandConstF.make_weights (fst (int_sys r)) wts d) 0
            = nth 2 (LandConstF.make_weights (fst (int_sys r)) wts d) 0.
Proof.
  apply (landscape_equal_plants_stay_equal rk4 [1/10; 1/5; 1/10]
           [1/5; 1/4; 1/5] [1/20; 1/10; 1/20] [1/10; 1/5; 1/10]
           [3/10; 1/10; 3/10] [1/20; 1/10; 1/20] [1/10; 1/5; 1/10] [1; 2; 1]
           2 1 [1/2; 1/4; 1/2] [1/10; 1/5; 1/10] (1/10) 1 0%nat 2%nat);
    try reflexivity; try (simpl; lia); lra.
Defined.

(** ** Coupling between the plants of a landscape *)

Lemma raw_weights_same_B :
  forall (u : double) (x x' : MatType) (n : nat),
    (forall k, (k < n)%nat -> mat_get x k 1 = mat_get x' k 1) ->
    raw_weights u x n = raw_weights u x' n.
Proof.
  intros u x x' n H. unfold raw_weights. apply map_ext_in.
  intros k Hk. apply in_seq in Hk. rewrite H by lia. reflexivity.
Qed.

(** X22.  The plants of a landscape are coupled through their visited
    proportions only: the derivative of plant i is the same in two states
    that agree on the row of plant i and on the B of every plant, whatever
    the Y of the other plants. *)
Theorem landscape_coupling_through_B :
  forall (sys : LandConstF.LandConstFSystemFunction) (x x' : MatType)
         (t : double) (i : nat),
    (i < LandConstF.n_plants sys)%nat ->
    (forall k, (k < LandConstF.n_plants sys)%nat ->
               mat_get x k 1 = mat_get x' k 1) ->
    mat_get x i 0 = mat_get x' i 0 ->
    LandConstF.weights (fst (LandConstF.call sys x t))
    = LandConstF.weights (fst (LandConstF.call sys x' t))
    /\ nth i (snd (LandConstF.call sys x t)) (0, 0)
       = nth i (snd (LandConstF.call sys x' t)) (0, 0).
Proof.
  intros sys x x' t i Hi HB HY.
  assert (Hw : LandConstF.make_weights sys (LandConstF.weights sys) x
               = LandConstF.make_weights sys (LandConstF.weights sys) x').
  { rewrite !make_weights_closed_form.
    now rewrite (raw_weights_same_B (LandConstF.u sys) x x' _ HB). }
  unfold LandConstF.call. cbn [fst snd LandConstF.weights LandConstF.set_weights
    LandConstF.n_plants].
  split; [exact Hw |].
  rewrite !nth_map_seq by exact Hi.
  unfold LandConstF.one_plant.
  cbn [LandConstF.set_weights LandConstF.weights LandConstF.L_0
       LandConstF.g_yp LandConstF.g_b0 LandConstF.g_bp LandConstF.d_yp
       LandConstF.d_b0 LandConstF.d_bp LandConstF.m].
  rewrite Hw, HY, (HB i Hi). reflexivity.
Qed.

Lemma landscape_coupling_through_B_witness :
  let sys := LandConstF.make [1/10; 1/10] [1/5; 1/5] [1/20; 1/20] [1/10; 1/10]
                             [3/10; 3/10] [1/20; 1/20] [1/10; 1/10] [1; 1] 1 1 in
  let x := [(1/2, 1/10); (1/4, 1/2)] in
  let x' := [(1/2, 1/10); (1/3, 1/2)] in
  LandConstF.weights (fst (LandConstF.call sys x 0))
  = LandConstF.weights (fst (LandConstF.call sys x' 0))
  /\ nth 0 (snd (LandConstF.call sys x 0)) (0, 0)
     = nth 0 (snd (LandConstF.call sys x' 0)) (0, 0).
Proof.
  intros sys x x'.
  apply (landscape_coupling_through_B sys x x' 0 0%nat).
  - simpl. lia.
  - intros [|[|k]] Hk; simpl in Hk; try lia; reflexivity.
  - reflexivity.
Defined.

Lemma vec_sum_map_le :
  forall (f g : nat -> double) (l : list nat),
    (forall k, In k l -> f k <= g k) ->
    vec_sum (map f l) <= vec_sum (map g l).
Proof.
  intros f g. induction l as [|k l IH]; intros H; simpl.
  - lra.
  - pose proof (H k (or_introl eq_refl)).
    assert (vec_sum (map f l) <= vec_sum (map g l))
      by (apply IH; intros k' Hk'; apply H; now right).
    lra.
Qed.

(** X23.  Competition: for X > 0, u >= 0 and B in [0, 1], when the visited
    proportion of no plant decreases and that of plant i stays the same,
    the allocation weight of plant i does not decrease. *)
Theorem weight_gains_from_visited_competitors :
  forall (sys : LandConstF.LandConstFSystemFunction) (wts_vec : VecType)
         (x x' : MatType) (i : nat),
    length x = LandConstF.n_plants sys ->
    length x' = LandConstF.n_plants sys ->
    (i < LandConstF.n_plants sys)%nat ->
    0 < LandConstF.X sys -> 0 <= LandConstF.u sys ->
    (forall k, (k < LandConstF.n_plants sys)%nat ->
               0 <= mat_get x k 1 /\ mat_get x k 1 <= mat_get x' k 1
               /\ mat_get x' k 1 <= 1) ->
    mat_get x i 1 = mat_get x' i 1 ->
    nth i (LandConstF.make_weights sys wts_vec x) 0
    <= nth i (LandConstF.make_weights sys wts_vec x') 0.
Proof.
  intros sys wts_vec x x' i Hx Hx' Hi HX Hu HB Hii.
  rewrite !make_weights_nth by assumption.
  unfold Spec.allocation_weight.
  rewrite <- !raw_weight_sum_of_rows, Hx, Hx', <- Hii.
  set (n := LandConstF.n_plants sys) in *.
  assert (HW' : 0 <= vec_sum (raw_weights (LandConstF.u sys) x' n)).
  { replace 0 with (vec_sum (map (fun _ : nat => 0) (seq 0 n))).
    - unfold raw_weights. apply vec_sum_map_le. intros k Hk.
      apply in_seq in Hk. apply pow_nonneg.
      destruct (HB k ltac:(lia)) as [? [? ?]]. lra.
    - clear. induction (seq 0 n) as [|k l IH]; simpl; [reflexivity |].
      rewrite IH. ring. }
  assert (HWW : vec_sum (raw_weights (LandConstF.u sys) x' n)
                <= vec_sum (raw_weights (LandConstF.u sys) x n)).
  { unfold raw_weights. apply vec_sum_map_le. intros k Hk.
    apply in_seq in Hk. destruct (HB k ltac:(lia)) as [? [? ?]].
    apply pow_monotone_base; lra. }
  assert (Hnum : 0 <= Std.pow (1 - mat_get x i 1) (LandConstF.u sys)).
  { apply pow_nonneg. destruct (HB i Hi) as [? [? ?]]. lra. }
  set (W := vec_sum (raw_weights (LandConstF.u sys) x n)) in *.
  set (W' := vec_sum (raw_weights (LandConstF.u sys) x' n)) in *.
  apply Rmult_le_compat_l; [exact Hnum |].
  apply Rinv_le_contravar; lra.
Qed.

Lemma weight_gains_from_visited_competitors_witness :
  let sys := LandConstF.make [1/10; 1/10] [1/5; 1/5] [1/20; 1/20] [1/10; 1/10]
                             [3/10; 3/10] [1/20; 1/20] [1/10; 1/10] [1; 1] 1 1 in
  nth 0 (LandConstF.make_weights sys [] [(1/2, 1/10); (1/4, 1/4)]) 0
  <= nth 0 (LandConstF.make_weights sys [] [(1/2, 1/10); (1/4, 1/2)]) 0.
Proof.
  intros sys.
  apply (weight_gains_from_visited_competitors sys []
           [(1/2, 1/10); (1/4, 1/4)] [(1/2, 1/10); (1/4, 1/2)] 0%nat).
  - reflexivity.
  - reflexivity.
  - simpl. lia.
  - simpl. lra.
  - simpl. lra.
  - intros [|[|k]] Hk; simpl in Hk; try lia; simpl; lra.
  - reflexivity.
Defined.
